(** * A file-backed, schema-validated document store: embedding and properties

    Shallow embedding of the four classes of [src/myDatabase]:
    [DBHandler] (dbhandler.js), [Schema] (schema.js), [Document] and
    [Model].  Texts are sequences of characters; the storage file is the
    sequence of characters it holds.  The three markers the handler works
    with (CR LF, the bracket characters and the new-line token) are ASCII,
    so scanning a text character by character or byte by byte finds the
    same occurrences. *)

From Stdlib Require Import Ascii String List ZArith Lia Bool Arith DecimalString FinFun.
From Stdlib Require DecimalZ DecimalPos.
Import ListNotations.

Set Warnings "-register-all".

(** ** Texts and the string primitives the sources call *)

Module Str.

Definition t := list ascii.

Definition lit (s : string) : t := list_ascii_of_string s.

(** [s.startsWith(p)]: the test a scan performs at every position. *)
Fixpoint starts_with (p s : t) : bool :=
  match p, s with
  | [], _ => true
  | _ :: _, [] => false
  | a :: p', b :: s' => Ascii.eqb a b && starts_with p' s'
  end.

(** Left-to-right scan of [String.prototype.replaceAll] for a non-empty
    pattern: at a match the replacement is emitted and the scan resumes
    after the matched characters ([skip] of them are still to be passed). *)
Fixpoint replace_go (pat rep : t) (skip : nat) (s : t) : t :=
  match s with
  | [] => []
  | c :: s' =>
      match skip with
      | S k => replace_go pat rep k s'
      | O => if starts_with pat s
             then rep ++ replace_go pat rep (length pat - 1) s'
             else c :: replace_go pat rep 0 s'
      end
  end.

(** [s.replaceAll(pat, rep)].  An empty pattern matches between all
    characters and at both ends. *)
Definition replaceAll (pat rep s : t) : t :=
  match pat with
  | [] => rep ++ flat_map (fun c => c :: rep) s
  | _ :: _ => replace_go pat rep 0 s
  end.

(** [s.includes(p)]. *)
Fixpoint includes (p s : t) : bool :=
  starts_with p s ||
  match s with
  | [] => false
  | _ :: s' => includes p s'
  end.

(** [arr.join(sep)]. *)
Fixpoint join (sep : t) (l : list t) : t :=
  match l with
  | [] => []
  | x :: l' =>
      match l' with
      | [] => x
      | _ :: _ => x ++ sep ++ join sep l'
      end
  end.

(** [s.slice(0, -1)]. *)
Definition drop_last (s : t) : t := removelast s.

(** [s[s.length - 1]], [None] standing for [undefined]. *)
Definition last_char (s : t) : option ascii :=
  match rev s with
  | [] => None
  | c :: _ => Some c
  end.

(** [a === b] on strings. *)
Fixpoint eqb (a b : t) : bool :=
  match a, b with
  | [], [] => true
  | x :: a', y :: b' => Ascii.eqb x y && eqb a' b'
  | _, _ => false
  end.

End Str.

(** ** JavaScript values

    The data the store handles: what JSON carries, the boxed primitives,
    dates and arrays the schema can declare, and functions (a schema may
    name a type by its constructor).  An object is the list of its own
    enumerable properties in the order the runtime enumerates them, and
    every object node of a value is an object of its own.  The objects
    the sources build get their properties in the order in which
    another object, or a fixed list of names, is enumerated, so a new
    property comes last.  A function is known by its name.  Numbers are
    carried as integers: no operation below computes with them. *)

Module Js.

Inductive value :=
| VUndefined
| VNull
| VBool (b : bool)
| VNum (n : Z)
| VStr (s : Str.t)
| VObject (fields : list (Str.t * value))
| VArray (items : list value)
| VBoxStr (s : Str.t)
| VBoxNum (n : Z)
| VBoxBool (b : bool)
| VDate (time : option Z)
| VFunction (name : Str.t).

(** What the code can throw or reject with, one constructor per [throw]
    or [reject] of the sources (the runtime's own errors included). *)
Inductive error :=
| TypeError
| DataCloneError
| InvalidDefinition
| InvalidOption (opt : Str.t)
| InvalidContentArg
| InvalidSchemaArg
| InvalidSeedArg
| MissingRequired (param : Str.t)
| WrongType (param : Str.t)
| NotConnected
| InvalidFileType
| CreateFailed
| AccessError
| NotAFile
| BadPermissions
| WriteError
| ReadError
| InvalidPattern
| InvalidId
| SyntaxError
| NotASchema.

(** The result of a synchronous call. *)
Inductive result (A : Type) :=
| Ok (a : A)
| Throw (e : error).

Arguments Ok {A} a.
Arguments Throw {A} e.

Definition bind {A B} (r : result A) (k : A -> result B) : result B :=
  match r with
  | Ok a => k a
  | Throw e => Throw e
  end.

(** How a promise ends: it may also stay pending for ever, where the
    sources leave a rejection without a handler. *)
Inductive promise (A : Type) :=
| Resolved (a : A)
| Rejected (e : error)
| Pending.

Arguments Resolved {A} a.
Arguments Rejected {A} e.
Arguments Pending {A}.

Definition lookup (k : Str.t) (fs : list (Str.t * value)) : option value :=
  match find (fun kv => Str.eqb (fst kv) k) fs with
  | Some kv => Some (snd kv)
  | None => None
  end.

(** A property of its own is defined on an object ([{...x}], the writes
    of [JSON.parse] and of [structuredClone]): an existing property keeps
    its place. *)
Fixpoint assign (k : Str.t) (v : value) (fs : list (Str.t * value))
  : list (Str.t * value) :=
  match fs with
  | [] => [(k, v)]
  | (k', v') :: fs' =>
      if Str.eqb k' k then (k, v) :: fs' else (k', v') :: assign k v fs'
  end.

Definition proto_key : Str.t := Str.lit "__proto__".

(** [obj[k] = v] on a plain object.  Every name but one is written as a
    property of the object.  The name [__proto__] is an accessor that
    the object inherits, unless it has a property of that name of its
    own: the assignment then hands [v] to the setter, which changes the
    prototype of the object when [v] is an object or [null], and the
    object gets no property.  The objects the sources build in this way
    are read afterwards through [structuredClone] and [JSON.stringify]
    only, which look at properties of the object's own: what such an
    assignment does to the prototype is not kept. *)
Definition set_prop (k : Str.t) (v : value) (fs : list (Str.t * value))
  : list (Str.t * value) :=
  if Str.eqb k proto_key
  then match lookup k fs with
       | Some _ => assign k v fs
       | None => fs
       end
  else assign k v fs.

Definition keys (fs : list (Str.t * value)) : list Str.t := map fst fs.

Definition index_key (i : nat) : Str.t :=
  Str.lit (NilZero.string_of_uint (Nat.to_uint i)).

Definition indexed (items : list value) : list (Str.t * value) :=
  combine (map index_key (seq 0 (length items))) items.

(** The own enumerable properties [Object.keys], [for ... in] and the
    spread [{...x}] go through; the properties of the built-in
    prototypes are not enumerable. *)
Definition own_entries (x : value) : list (Str.t * value) :=
  match x with
  | VObject fs => fs
  | VArray items => indexed items
  | VStr s | VBoxStr s => indexed (map (fun c => VStr [c]) s)
  | _ => []
  end.

Definition length_key : Str.t := Str.lit "length".
Definition name_key : Str.t := Str.lit "name".
Definition constructor_key : Str.t := Str.lit "constructor".

Definition is_primitive (x : value) : bool :=
  match x with
  | VUndefined | VNull | VBool _ | VNum _ | VStr _ => true
  | _ => false
  end.

(** [typeof x]. *)
Definition typeof (x : value) : Str.t :=
  match x with
  | VUndefined => Str.lit "undefined"
  | VBool _ => Str.lit "boolean"
  | VNum _ => Str.lit "number"
  | VStr _ => Str.lit "string"
  | VFunction _ => Str.lit "function"
  | _ => Str.lit "object"
  end.

(** [!x] is [negb (truthy x)]. *)
Definition truthy (x : value) : bool :=
  match x with
  | VUndefined | VNull => false
  | VBool b => b
  | VNum n => negb (n =? 0)%Z
  | VStr s => negb (Str.eqb s [])
  | _ => true
  end.

(** The built-in class whose prototype a property read on [x] starts
    from, once the properties of [x] itself are passed: the class of an
    object, the wrapper class of a primitive.  [null] and [undefined]
    have none. *)
Definition class_name (x : value) : Str.t :=
  match x with
  | VStr _ | VBoxStr _ => Str.lit "String"
  | VNum _ | VBoxNum _ => Str.lit "Number"
  | VBool _ | VBoxBool _ => Str.lit "Boolean"
  | VArray _ => Str.lit "Array"
  | VDate _ => Str.lit "Date"
  | VFunction _ => Str.lit "Function"
  | _ => Str.lit "Object"
  end.

(** The methods of [Object.prototype], which every object inherits; each
    is a function that has the name of the property.  The two other
    properties of [Object.prototype], [constructor] and the accessor
    [__proto__], are in [inherited] below. *)
Definition object_prototype : list (Str.t * value) :=
  map (fun n => (Str.lit n, VFunction (Str.lit n)))
    [ "__defineGetter__"%string; "__defineSetter__"%string;
      "hasOwnProperty"%string; "__lookupGetter__"%string;
      "__lookupSetter__"%string; "isPrototypeOf"%string;
      "propertyIsEnumerable"%string; "toString"%string;
      "valueOf"%string; "toLocaleString"%string ].

(** What stands for the prototype object of a class, which a read of
    [__proto__] gives.  A prototype object is no value of this model;
    the value that stands for it agrees with it on what the sources can
    look at in the value of a property: its [typeof], its [constructor]
    and its enumerable properties, of which it has none. *)
Definition prototype_like (cls : Str.t) : value :=
  if Str.eqb cls (Str.lit "Array") then VArray []
  else if Str.eqb cls (Str.lit "String") then VBoxStr []
  else if Str.eqb cls (Str.lit "Number") then VBoxNum 0
  else if Str.eqb cls (Str.lit "Boolean") then VBoxBool false
  else if Str.eqb cls (Str.lit "Date") then VDate None
  else if Str.eqb cls (Str.lit "Function") then VFunction []
  else VObject [].

(** [a === b].  Primitives are compared by value.  An object is equal to
    itself only: where the sources compare two values that may both be
    objects, one of them comes out of [structuredClone], so they are two
    objects. *)
Definition strict_equal (a b : value) : bool :=
  match a, b with
  | VUndefined, VUndefined => true
  | VNull, VNull => true
  | VBool x, VBool y => Bool.eqb x y
  | VNum x, VNum y => (x =? y)%Z
  | VStr x, VStr y => Str.eqb x y
  | _, _ => false
  end.

(** [structuredClone] copies data and refuses functions, at any depth.
    Values here are immutable trees, so the copy of a value is the value. *)
Fixpoint cloneable (x : value) : bool :=
  match x with
  | VFunction _ => false
  | VObject fs =>
      (fix all (l : list (Str.t * value)) : bool :=
         match l with
         | [] => true
         | (_, v) :: l' => cloneable v && all l'
         end) fs
  | VArray items =>
      (fix all (l : list value) : bool :=
         match l with
         | [] => true
         | v :: l' => cloneable v && all l'
         end) items
  | _ => true
  end.

Definition structuredClone (x : value) : result value :=
  if cloneable x then Ok x else Throw DataCloneError.

End Js.

Declare Scope js_scope.
Delimit Scope js_scope with js.
Notation "x <- r ;; k" := (Js.bind r (fun x => k))
  (at level 61, r at next level, right associativity) : js_scope.
Open Scope js_scope.

(** ** The runtime the sources call into

    Library functions of the platform, taken as given: [path.extname],
    [JSON.parse] ([None] for a [SyntaxError]) and [JSON.stringify],
    the time value of [new Date(v)] ([None] for an invalid date),
    [Date.prototype.toISOString], the string a value other than a string
    turns into when concatenated, and the chunks a read stream cuts a
    file into.  Also taken as given is what depends on the code of
    functions or on the built-in classes of the runtime at hand: the
    property key a value other than a string is turned into and the
    outcome of [==] on operands that are not both strings (both may call
    [toString] or [valueOf] of an object), the properties a function has
    of its own besides its name, and the properties, besides
    [constructor], of the prototype of a built-in class other than
    [Object]. *)

Record Platform := {
  extname : Str.t -> Str.t;
  JSON_parse : Str.t -> option Js.value;
  JSON_stringify : Js.value -> Str.t;
  Date_value : Js.value -> option Z;
  toISOString : Z -> Str.t;
  to_string : Js.value -> Str.t;
  read_chunks : Str.t -> list Str.t;
  to_property_key : Js.value -> Js.result Str.t;
  loose_eq : Js.value -> Js.value -> Js.result bool;
  function_props : Str.t -> list (Str.t * Js.value);
  class_prototype : Str.t -> list (Str.t * Js.value)
}.

(** ** Properties of values: reads, [in] and [Object.hasOwn] *)

Module Obj.

Import Str Js.

Section WithPlatform.

Context (P : Platform).

(** The properties a value has of its own. *)
Definition own_props (x : value) : list (Str.t * value) :=
  match x with
  | VArray items => own_entries x ++ [(length_key, VNum (Z.of_nat (length items)))]
  | VStr s | VBoxStr s => own_entries x ++ [(length_key, VNum (Z.of_nat (length s)))]
  | VFunction n => (name_key, VStr n) :: function_props P n
  | _ => own_entries x
  end.

(** What the prototype chain of [x] holds under the name [k]: the
    constructor of its class, the accessor [__proto__], a property of
    the prototype of its class, or a method of [Object.prototype]. *)
Definition inherited (x : value) (k : Str.t) : option value :=
  if Str.eqb k constructor_key then Some (VFunction (class_name x))
  else if Str.eqb k proto_key then Some (prototype_like (class_name x))
  else
    match (if Str.eqb (class_name x) (lit "Object") then None
           else lookup k (class_prototype P (class_name x))) with
    | Some v => Some v
    | None => lookup k object_prototype
    end.

(** The property a read of [x[k]] finds, for [x] other than [null] and
    [undefined]. *)
Definition find_prop (x : value) (k : Str.t) : option value :=
  match lookup k (own_props x) with
  | Some v => Some v
  | None => inherited x k
  end.

(** [k in x]: a [TypeError] on a primitive. *)
Definition prop_in (k : Str.t) (x : value) : result bool :=
  if is_primitive x then Throw TypeError
  else Ok (match find_prop x k with Some _ => true | None => false end).

(** [Object.hasOwn(x, k)]: a [TypeError] on [null] and [undefined]. *)
Definition hasOwn (x : value) (k : Str.t) : result bool :=
  match x with
  | VNull | VUndefined => Throw TypeError
  | _ => Ok (match lookup k (own_props x) with Some _ => true | None => false end)
  end.

(** [x[k]]: a [TypeError] on [null] and [undefined]. *)
Definition prop_get (x : value) (k : Str.t) : result value :=
  match x with
  | VNull | VUndefined => Throw TypeError
  | _ => Ok (match find_prop x k with Some v => v | None => VUndefined end)
  end.

(** The property key [obj[v]] and [Object.hasOwn(obj, v)] look under. *)
Definition property_key (v : value) : result Str.t :=
  match v with
  | VStr s => Ok s
  | _ => to_property_key P v
  end.

(** [a == b]. *)
Definition loose_equal (a b : value) : result bool :=
  match a, b with
  | VStr x, VStr y => Ok (Str.eqb x y)
  | _, _ => loose_eq P a b
  end.

End WithPlatform.

End Obj.

(** ** Objects held by reference

    Where the sources can reach one object from two places, or where it
    matters which object a call writes to, objects are kept in a store:
    a reference is a position in it. *)

Module Store.

Definition ref := nat.

(** The store with the object at [i] replaced. *)
Fixpoint put {A : Type} (l : list A) (i : nat) (x : A) : list A :=
  match l, i with
  | [], _ => []
  | _ :: l', O => x :: l'
  | y :: l', S i' => y :: put l' i' x
  end.

End Store.

(** ** The file system, as far as the handler looks at it *)

Module Fs.

(** What a path leads to: nothing (a file can be created there or not),
    something [fs.stat] cannot reach, or a node with its kind, its mode
    bits and, for a regular file, its content. *)
Inductive entry :=
| Missing (creatable : bool)
| Blocked
| Node (isFile : bool) (mode : Z) (content : Str.t).

Definition t := Str.t -> entry.

Definition update (disk : t) (path : Str.t) (e : entry) : t :=
  fun p => if Str.eqb p path then e else disk p.

(** [fs.constants.F_OK], [R_OK], [W_OK]; the file-type bits of a regular
    file ([0o100000]) and the mode [0o666] asked for a created file. *)
Definition F_OK : Z := 0.
Definition R_OK : Z := 4.
Definition W_OK : Z := 2.
Definition S_IFREG : Z := 32768.
Definition mode_rw : Z := 438.

End Fs.

(** ** dbhandler.js *)

Module DBHandler.

Import Str.

Definition CR : ascii := "013"%char.
Definition LF : ascii := "010"%char.

(** [const SEP = '\r\n'], [const newLine = '\r\n'],
    [const newLine_encoded = '<|NEW-LINE|>'], [const dbFileExt = '.json']. *)
Definition SEP : Str.t := [CR; LF].
Definition newLine : Str.t := [CR; LF].
Definition newLine_encoded : Str.t := lit "<|NEW-LINE|>".
Definition dbFileExt : Str.t := lit ".json".

(** The text stored for a record: [data.replaceAll(newLine, newLine_encoded)]. *)
Definition encode_str (data : Str.t) : Str.t :=
  replaceAll newLine newLine_encoded data.

(** [#decode_str]. *)
Definition decode_str (data : Str.t) : Str.t :=
  let data := replaceAll SEP [] data in
  replaceAll newLine_encoded newLine data.

(** [#prepare_data_and_truncate(fStats, data)], with [size] for
    [fStats.size]; returns [[data, truncateIdx]]. *)
Definition prepare_data_and_truncate (size : nat) (data : Str.t) : Str.t * nat :=
  let data := replaceAll newLine newLine_encoded data in
  if size =? 0 then
    (lit "[" ++ SEP ++ data ++ SEP ++ lit "]", 0)
  else if size =? 2 then
    (SEP ++ data ++ SEP ++ lit "]", 1)
  else if size <=? 2 + length SEP then
    (data ++ SEP ++ lit "]", 1)
  else
    (lit "," ++ SEP ++ data ++ SEP ++ lit "]", 3).

(** [#prepare_doc_arr_to_str(strArray)]. *)
Definition prepare_doc_arr_to_str (strArray : list Str.t) : Str.t :=
  let strArray := map (fun str => replaceAll newLine newLine_encoded str) strArray in
  let dataStr := join (lit "," ++ SEP) strArray in
  if 0 <? length dataStr then lit "[" ++ SEP ++ dataStr ++ SEP ++ lit "]"
  else dataStr.

(** What a write stream opened with [{flags: 'r+', start}] leaves in the
    file: the characters before [start] stay, [data] is laid over what
    follows, and whatever the old file holds beyond the written range
    stays as well (the flag does not truncate). *)
Definition write_at (file : Str.t) (start : nat) (data : Str.t) : Str.t :=
  firstn start file ++ data ++ skipn (start + length data) file.

(** A write stream opened with [{flags: 'w', start: 0}] truncates first. *)
Definition write_fresh (data : Str.t) : Str.t := data.

(** The file after [save(dataStr)] on a connected handler whose file
    holds [file]: [fs.stat] gives the size, the prepared text is written
    at [stats.size - truncateIdx]. *)
Definition save_file (file : Str.t) (dataStr : Str.t) : Str.t :=
  let '(docStr, truncateIdx) := prepare_data_and_truncate (length file) dataStr in
  let startIdx := length file - truncateIdx in
  write_at file startIdx docStr.

(** The file after [overwrite(strArray)] and after [erase_db()]. *)
Definition overwrite_file (strArray : list Str.t) : Str.t :=
  write_fresh (prepare_doc_arr_to_str strArray).

Definition erase_file : Str.t := [].

(** The text [load()] resolves with: the stream reader turns an empty
    file into ['[]'], then [#decode_str]. *)
Definition load_with_readStream (file : Str.t) : Str.t :=
  match file with
  | [] => lit "[]"
  | _ :: _ => file
  end.

Definition load_file (file : Str.t) : Str.t :=
  decode_str (load_with_readStream file).

(** [buffer.split(/,\r\n|\r\n/)]: the length of the separator matched at
    the head of [s], the first alternative being tried first. *)
Definition sep_at (s : Str.t) : nat :=
  if starts_with (lit "," ++ SEP) s then 3
  else if starts_with SEP s then 2
  else 0.

(** [split_go skip cur s]: [cur] holds, reversed, the characters of the
    piece being read. *)
Fixpoint split_go (skip : nat) (cur : Str.t) (s : Str.t) : list Str.t :=
  match s with
  | [] => [rev cur]
  | c :: s' =>
      match skip with
      | S k => split_go k cur s'
      | O =>
          match sep_at s with
          | O => split_go 0 (c :: cur) s'
          | S n => rev cur :: split_go n [] s'
          end
      end
  end.

Definition split_lines (buffer : Str.t) : list Str.t := split_go 0 [] buffer.

(** The test of the ['data'] handler of [delete_by_match] on one line. *)
Definition keep_line (pattern line : Str.t) : bool :=
  negb (Str.eqb line []) && negb (Str.eqb line (lit "["))
  && negb (Str.eqb line (lit "]")) && negb (includes pattern line).

(** What the handler pushes for a kept line. *)
Definition strip_comma (line : Str.t) : Str.t :=
  match last_char line with
  | Some c => if Ascii.eqb c ","%char then drop_last line else line
  | None => line
  end.

(** One ['data'] event: the chunk is appended to the buffer, every line
    but the last is filtered into [docStrArray], the last one stays in
    the buffer. *)
Definition on_data (pattern : Str.t) (st : list Str.t * Str.t) (chunk : Str.t)
  : list Str.t * Str.t :=
  let '(docStrArray, buffer) := st in
  let buffer := buffer ++ chunk in
  let lines := split_lines buffer in
  (docStrArray ++ map strip_comma (filter (keep_line pattern) (removelast lines)),
   last lines []).

(** The lines [delete_by_match] keeps when the read stream delivers the
    file as [chunks]; what is left in the buffer at ['end'] is dropped. *)
Definition kept_lines (pattern : Str.t) (chunks : list Str.t) : list Str.t :=
  fst (fold_left (on_data pattern) chunks ([], [])).

(** The file after [delete_by_match(pattern)] has read [chunks]. *)
Definition delete_by_match_file (pattern : Str.t) (chunks : list Str.t) : Str.t :=
  let pattern := replaceAll newLine newLine_encoded pattern in
  write_fresh (prepare_doc_arr_to_str (kept_lines pattern chunks)).

(** A line [delete_by_match] may keep: it holds neither the pattern nor
    a CR LF pair. *)
Definition clean (pattern line : Str.t) : Prop :=
  includes pattern line = false /\ includes SEP line = false.

(** A record text the splitter of [delete_by_match] gives back as it is:
    it holds no CR LF pair and does not end with a comma. *)
Definition plain (r : Str.t) : Prop :=
  includes SEP r = false /\ last_char r <> Some ","%char.

(** The documented layout of a file that holds the record texts [rs]:
    an opening bracket, the records one per line with a comma after
    every record but the last, a closing bracket. *)
Definition layout (rs : list Str.t) : Str.t :=
  lit "[" ++ SEP ++ join (lit "," ++ SEP) rs ++ SEP ++ lit "]".

(** The file after the texts [ts] have been saved one after the other. *)
Definition save_all (file : Str.t) (ts : list Str.t) : Str.t :=
  fold_left save_file ts file.

(** [fs.ftruncate(fd, len)]: what lies beyond [len] is lost, a shorter
    file is filled up with NUL characters. *)
Definition ftruncate (file : Str.t) (len : nat) : Str.t :=
  firstn len file ++ repeat zero (len - length file).

(** What [#save_with_writeFile(data, startIdx)] leaves in the file once
    its callbacks have run: the file is cut at [startIdx], then [data] is
    appended (flag ['a']).  [save] can be switched to it. *)
Definition save_with_writeFile (file : Str.t) (startIdx : nat) (data : Str.t) : Str.t :=
  ftruncate file startIdx ++ data.

(** *** The operations on a handler and the disk

    A handler is its private [#dbFilePath].  The reader/writer lock is
    not represented: an operation runs to its end before the next one
    starts. *)

Record t := { dbFilePath : option Str.t }.

Definition is_connected (h : t) : bool :=
  match dbFilePath h with
  | None => false
  | Some _ => true
  end.

Definition disconnect (h : t) : t := {| dbFilePath := None |}.

(** [static copy(oldHandler)] on an instance of the class: a new handler
    that holds the same path. *)
Definition copy (oldHandler : t) : t := {| dbFilePath := dbFilePath oldHandler |}.

Section WithPlatform.

Context (P : Platform).

(** [static check_db_file(dbFilePath)]. *)
Definition check_db_file (disk : Fs.t) (path : Js.value) : Fs.t * Js.promise bool :=
  match path with
  | Js.VStr p =>
      if negb (Js.truthy path) || negb (Str.eqb (extname P p) dbFileExt)
      then (disk, Js.Rejected Js.InvalidFileType)
      else
        match disk p with
        | Fs.Missing creatable =>
            if creatable
            then (Fs.update disk p (Fs.Node true (Z.lor Fs.S_IFREG Fs.mode_rw) []),
                  Js.Resolved true)
            else (disk, Js.Rejected Js.CreateFailed)
        | Fs.Blocked => (disk, Js.Rejected Js.AccessError)
        | Fs.Node isFile mode _ =>
            if negb isFile then (disk, Js.Rejected Js.NotAFile)
            else if negb (Z.land mode Fs.F_OK =? 0)%Z
                    && negb (Z.land mode Fs.W_OK =? 0)%Z
                    && negb (Z.land mode Fs.R_OK =? 0)%Z
            then (disk, Js.Rejected Js.BadPermissions)
            else (disk, Js.Resolved true)
        end
  | _ => (disk, Js.Rejected Js.InvalidFileType)
  end.

(** [connect_dbFilePath(dbFilePath)]: the path is cleared first and set
    only when the check resolves with [true]. *)
Definition connect_dbFilePath (h : t) (disk : Fs.t) (path : Js.value)
  : t * Fs.t * Js.promise unit :=
  let h := {| dbFilePath := None |} in
  match check_db_file disk path with
  | (disk', Js.Resolved valid) =>
      match path with
      | Js.VStr p =>
          (if valid then {| dbFilePath := Some p |} else h, disk', Js.Resolved tt)
      | _ => (h, disk', Js.Resolved tt)
      end
  | (disk', Js.Rejected e) => (h, disk', Js.Rejected e)
  | (disk', Js.Pending) => (h, disk', Js.Pending)
  end.

(** [save(dataStr)] for a string.  On a path [fs.stat] reaches but that
    is no regular file the stream fails outside every promise: nothing
    settles. *)
Definition save (h : t) (disk : Fs.t) (dataStr : Str.t) : Fs.t * Js.promise Str.t :=
  match dbFilePath h with
  | None => (disk, Js.Rejected Js.NotConnected)
  | Some p =>
      match disk p with
      | Fs.Missing _ | Fs.Blocked => (disk, Js.Rejected Js.WriteError)
      | Fs.Node true mode content =>
          (Fs.update disk p (Fs.Node true mode (save_file content dataStr)),
           Js.Resolved dataStr)
      | Fs.Node false _ _ => (disk, Js.Pending)
      end
  end.

(** What a stream opened with the flag ['w'] does to the path. *)
Definition write_whole (disk : Fs.t) (p : Str.t) (data : Str.t) : option Fs.t :=
  match disk p with
  | Fs.Node true mode _ => Some (Fs.update disk p (Fs.Node true mode (write_fresh data)))
  | Fs.Missing true =>
      Some (Fs.update disk p (Fs.Node true (Z.lor Fs.S_IFREG Fs.mode_rw) (write_fresh data)))
  | _ => None
  end.

(** [overwrite(strArray)] for an array of strings; it throws, rather
    than rejects, when the handler is not connected. *)
Definition overwrite (h : t) (disk : Fs.t) (strArray : list Str.t)
  : Js.result (Fs.t * Js.promise unit) :=
  match dbFilePath h with
  | None => Js.Throw Js.NotConnected
  | Some p =>
      match write_whole disk p (prepare_doc_arr_to_str strArray) with
      | Some disk' => Js.Ok (disk', Js.Resolved tt)
      | None => Js.Ok (disk, Js.Pending)
      end
  end.

(** [load()]. *)
Definition load (h : t) (disk : Fs.t) : Js.promise Str.t :=
  match dbFilePath h with
  | None => Js.Rejected Js.NotConnected
  | Some p =>
      match disk p with
      | Fs.Node true _ content => Js.Resolved (load_file content)
      | _ => Js.Rejected Js.ReadError
      end
  end.

(** [erase_db()]. *)
Definition erase_db (h : t) (disk : Fs.t) : Js.result (Fs.t * Js.promise unit) :=
  match dbFilePath h with
  | None => Js.Throw Js.NotConnected
  | Some p =>
      match write_whole disk p erase_file with
      | Some disk' => Js.Ok (disk', Js.Resolved tt)
      | None => Js.Ok (disk, Js.Rejected Js.WriteError)
      end
  end.

(** [delete_by_match(pattern)] for a string. *)
Definition delete_by_match (h : t) (disk : Fs.t) (pattern : Str.t)
  : Fs.t * Js.promise unit :=
  match dbFilePath h with
  | None => (disk, Js.Rejected Js.NotConnected)
  | Some p =>
      if Str.eqb pattern [] then (disk, Js.Rejected Js.InvalidPattern)
      else
        match disk p with
        | Fs.Node true mode content =>
            (Fs.update disk p
               (Fs.Node true mode (delete_by_match_file pattern (read_chunks P content))),
             Js.Resolved tt)
        | _ => (disk, Js.Rejected Js.ReadError)
        end
  end.

End WithPlatform.

End DBHandler.

(** ** schema.js *)

Module Schema.

Import Str Js Obj Store.

Definition k_type : Str.t := lit "type".
Definition k_required : Str.t := lit "required".
Definition k_default : Str.t := lit "default".
Definition k_timestamps : Str.t := lit "timestamps".

(** [static #defaultOptions]. *)
Definition defaultOptions : list (Str.t * value) :=
  [(k_timestamps, VBool false)].

(** [static #allowedTypesAndDefaultsVals()]. *)
Definition allowedTypesAndDefaultsVals : list (Str.t * value) :=
  [ (lit "string", VStr []);
    (lit "number", VNum 0);
    (lit "boolean", VBool false);
    (lit "object", VObject []);
    (lit "String", VBoxStr []);
    (lit "Number", VBoxNum 0);
    (lit "Boolean", VBoxBool false);
    (lit "Date", VDate (Some 0%Z));
    (lit "Array", VArray []) ].

(** The [defaultValue] of a parameter property: a value, or a table to
    be read at the final value of another property. *)
Inductive default_value :=
| Plain (v : value)
| ByProperty (map : list (Str.t * value)) (property : Str.t).

Record property_rule := { defaultValue : default_value; must : bool }.

(** [static #get_default_val_by_param_property()]. *)
Definition get_default_val_by_param_property : list (Str.t * property_rule) :=
  [ (k_type, {| defaultValue := Plain (VStr (lit "object")); must := true |});
    (k_required, {| defaultValue := Plain (VBool false); must := false |});
    (k_default,
      {| defaultValue := ByProperty allowedTypesAndDefaultsVals k_type;
         must := false |}) ].

(** [static get_allowed_parameter_properties_names_lst()]. *)
Definition get_allowed_parameter_properties_names_lst : list Str.t :=
  map fst get_default_val_by_param_property.

Definition rule_must (property : Str.t) : bool :=
  match find (fun kr => Str.eqb (fst kr) property) get_default_val_by_param_property with
  | Some kr => must (snd kr)
  | None => false
  end.

(** [v === s] for a string [s]. *)
Definition is_string (v : value) (s : Str.t) : bool :=
  match v with
  | VStr s' => Str.eqb s' s
  | _ => false
  end.

(** [static #preprocess_definition_parameter(defParamVal)]. *)
Definition preprocess_definition_parameter (defParamVal : value) : value :=
  if negb (Str.eqb (typeof defParamVal) (lit "object")) then defParamVal
  else
    let processedParam := own_entries defParamVal in
    match lookup k_type processedParam with
    | Some (VFunction name) =>
        let name := if Str.eqb name (lit "String") then lit "string" else name in
        let name := if Str.eqb name (lit "Number") then lit "number" else name in
        VObject (assign k_type (VStr name) processedParam)
    | _ => VObject processedParam
    end.

(** A [Schema] instance: the public [_definition] and the private
    [#options]. *)
Record t := { _definition : value; options_ : list (Str.t * value) }.

(** [get definition()] and [get options()]. *)
Definition definition (s : t) : result value := structuredClone (_definition s).

Definition options (s : t) : result value := structuredClone (VObject (options_ s)).

(** [get_timestamps()]. *)
Definition get_timestamps (s : t) : value :=
  match lookup k_timestamps (options_ s) with Some v => v | None => VUndefined end.

(** [Object.keys(x)]: a [TypeError] on [null] and [undefined]. *)
Definition object_keys (x : value) : result (list Str.t) :=
  match x with
  | VNull | VUndefined => Throw TypeError
  | _ => Ok (keys (own_entries x))
  end.

Section WithPlatform.

Context (P : Platform).

(** [static typeX(x)]: what it returns is the value of
    [x.constructor.name] when [x] is an object with another name than
    ['Object'] there, whatever value that is. *)
Definition typeX (x : value) : result value :=
  let typ := typeof x in
  if Str.eqb typ (lit "object") then
    c <- prop_get P x constructor_key ;;
    n <- prop_get P c name_key ;;
    if negb (is_string n (lit "Object")) then Ok n else Ok (VStr typ)
  else Ok (VStr typ).

(** [Object.hasOwn(Schema.#allowedTypesAndDefaultsVals(), v)]: [v] is
    turned into a property key. *)
Definition is_allowed_type (v : value) : result bool :=
  key <- property_key P v ;;
  Ok (match lookup key allowedTypesAndDefaultsVals with Some _ => true | None => false end).

(** [static #is_valid_definition_param_format(valObj)]. *)
Definition is_valid_definition_param_format (valObj : value) : result bool :=
  if negb (Str.eqb (typeof valObj) (lit "object")) then Ok false
  else if negb (forallb (fun prop =>
                 existsb (Str.eqb prop) get_allowed_parameter_properties_names_lst)
               (keys (own_entries valObj))) then Ok false
  else
    hasType <- hasOwn P valObj k_type ;;
    badType <- (if hasType then
                  vType <- prop_get P valObj k_type ;;
                  allowed <- is_allowed_type vType ;;
                  Ok (negb allowed)
                else Ok false) ;;
    if (rule_must k_type && negb hasType) || badType then Ok false
    else
      hasReq <- hasOwn P valObj k_required ;;
      badReq <- (if hasReq then
                   vReq <- prop_get P valObj k_required ;;
                   tReq <- typeX vReq ;;
                   tDef <- typeX (VBool false) ;;
                   Ok (negb (strict_equal tReq tDef))
                 else Ok false) ;;
      if (rule_must k_required && negb hasReq) || badReq then Ok false
      else
        hasDef <- hasOwn P valObj k_default ;;
        badDef <- (if hasDef && hasType then
                     vDef <- prop_get P valObj k_default ;;
                     tDef <- typeX vDef ;;
                     vType <- prop_get P valObj k_type ;;
                     same <- loose_equal P tDef vType ;;
                     Ok (negb same)
                   else Ok false) ;;
        if (rule_must k_default && negb hasDef) || badDef then Ok false
        else Ok true.

(** [#get_default_property_val(def_param, property)] for one of the
    allowed property names. *)
Definition get_default_property_val (def_param : list (Str.t * value))
  (property : Str.t) : result value :=
  match find (fun kr => Str.eqb (fst kr) property) get_default_val_by_param_property with
  | Some kr =>
      match defaultValue (snd kr) with
      | Plain v => Ok v
      | ByProperty map prop =>
          declared <- prop_get P (VObject def_param) prop ;;
          key <- property_key P declared ;;
          prop_get P (VObject map) key
      end
  | None => Throw TypeError
  end.

(** The inner loop of [#set_definition]: the properties of one
    parameter, in the order of the allowed names. *)
Fixpoint fill_properties (defParamVal : value) (properties : list Str.t)
  (acc : list (Str.t * value)) : result (list (Str.t * value)) :=
  match properties with
  | [] => Ok acc
  | property :: rest =>
      has <- hasOwn P defParamVal property ;;
      v <- (if has then
              x <- prop_get P defParamVal property ;;
              if negb (Str.eqb (typeof x) (lit "object")) then Ok x
              else structuredClone x
            else get_default_property_val acc property) ;;
      fill_properties defParamVal rest (assign property v acc)
  end.

(** The outer loop of [#set_definition]; [None] is its [return null].
    The object of a parameter is assigned to [new_definition[param]]
    before it is filled: for the name [__proto__] it does not become a
    property of [new_definition]. *)
Fixpoint set_params (entries : list (Str.t * value)) (new_definition : list (Str.t * value))
  : result (option (list (Str.t * value))) :=
  match entries with
  | [] => Ok (Some new_definition)
  | (param, raw) :: rest =>
      let defParamVal := preprocess_definition_parameter raw in
      valid <- is_valid_definition_param_format defParamVal ;;
      if negb valid then Ok None
      else
        props <- fill_properties defParamVal get_allowed_parameter_properties_names_lst [] ;;
        set_params rest (set_prop param (VObject props) new_definition)
  end.

(** [#set_definition(definition)]. *)
Definition set_definition (definition : value) : result (option value) :=
  if negb (truthy definition) || negb (Str.eqb (typeof definition) (lit "object"))
     || (length (own_entries definition) =? 0)
  then Ok None
  else
    r <- set_params (own_entries definition) [] ;;
    Ok (option_map VObject r).

(** The loop of [set_options(options)]. *)
Fixpoint set_options_loop (options : value) (defaults : list (Str.t * value))
  (newOpts : list (Str.t * value)) : result (list (Str.t * value)) :=
  match defaults with
  | [] => Ok newOpts
  | (opt, dflt) :: rest =>
      v <- (if negb (truthy options) then Ok dflt
            else
              has <- hasOwn P options opt ;;
              if has then
                given <- prop_get P options opt ;;
                tGiven <- typeX given ;;
                tDflt <- typeX dflt ;;
                if negb (strict_equal tGiven tDflt) then Throw (InvalidOption opt)
                else structuredClone given
              else Ok dflt) ;;
      set_options_loop options rest (assign opt v newOpts)
  end.

(** [set_options(options)]: the options of the instance afterwards. *)
Definition set_options (s : t) (options : value) : result t :=
  newOpts <- set_options_loop options defaultOptions [] ;;
  Ok {| _definition := _definition s; options_ := newOpts |}.

(** [new Schema(definition, options)]. *)
Definition new (definition options : value) : result t :=
  d <- set_definition definition ;;
  match d with
  | None => Throw InvalidDefinition
  | Some def => set_options {| _definition := def; options_ := [] |} options
  end.

Fixpoint all_params_valid (entries : list (Str.t * value)) : result bool :=
  match entries with
  | [] => Ok true
  | (_, spec) :: rest =>
      ok <- is_valid_definition_param_format spec ;;
      if negb ok then Ok false else all_params_valid rest
  end.

Fixpoint all_options_typed (entries : list (Str.t * value)) : result bool :=
  match entries with
  | [] => Ok true
  | (optParam, v) :: rest =>
      tv <- typeX v ;;
      d <- prop_get P (VObject defaultOptions) optParam ;;
      td <- typeX d ;;
      if negb (strict_equal tv td) then Ok false else all_options_typed rest
  end.

(** [static is_valid_schema(schemaObj)] on an instance of the class. *)
Definition is_valid_schema (schemaObj : t) : result bool :=
  schemaOpt <- options schemaObj ;;
  schemaDef <- definition schemaObj ;;
  if negb (Str.eqb (typeof schemaOpt) (lit "object")) then Ok false
  else if negb (Str.eqb (typeof schemaDef) (lit "object")) then Ok false
  else
    ks <- object_keys schemaDef ;;
    if length ks =? 0 then Ok false
    else
      okDef <- all_params_valid (own_entries schemaDef) ;;
      if negb okDef then Ok false
      else all_options_typed (own_entries schemaOpt).

(** [static copy(original)]. *)
Definition copy (original : t) : result t :=
  def <- definition original ;;
  newSchema <- new def VUndefined ;;
  opts <- options original ;;
  set_options newSchema opts.

(** [filled spec spec']: the declaration [spec'] has the three
    properties [type], [required] and [default], in this order; its
    [type] is the one of [spec], its [required] and [default] are those
    of [spec] where [spec] has them, and its [required] is [false]
    where [spec] has none. *)
Definition filled (spec spec' : value) : Prop :=
  exists fs T R D,
    spec = VObject fs /\ lookup k_type fs = Some T
    /\ spec' = VObject [(k_type, T); (k_required, R); (k_default, D)]
    /\ R = match lookup k_required fs with Some r => r | None => VBool false end
    /\ (forall d, lookup k_default fs = Some d -> D = d).

(** A definition in which every type is given as a string or as a
    function (a constructor such as [String]). *)
Definition named_types (definition : value) : Prop :=
  forall p raw T,
    In (p, raw) (own_entries definition) ->
    lookup k_type (own_entries raw) = Some T ->
    (exists t, T = VStr t) \/ (exists name, T = VFunction name).

(** *** Instances as objects

    An instance of the class, the object its [_definition] refers to and
    the object its [#options] refers to are three objects.  Here they
    are kept in a store, so that it can be said which objects two
    instances hold. *)

Record instance := { definition_at : ref; options_at : ref }.







End WithPlatform.

End Schema.

(** ** document.js *)

Module Document.

Import Str Js Obj Store.

(** [static dataMembersToStr]. *)
Definition idMark : Str.t := lit "_id".
Definition createTMark : Str.t := lit "createdAt".
Definition updateTMark : Str.t := lit "updatedAt".

(** The double quote character. *)
Definition quote : Str.t := ["034"%char].

(** A [Document] instance.  Its handler is the one of the model that
    made it, passed along with the disk; a date is its time value. *)
Record t := {
  _content : value;
  _createTime : option Z;
  _updateTime : option Z;
  _id : value;
  _schema : Schema.t;
  saved : bool
}.

Definition set_content (d : t) (c : value) : t :=
  {| _content := c; _createTime := _createTime d; _updateTime := _updateTime d;
     _id := _id d; _schema := _schema d; saved := saved d |}.

Definition set_createTime (d : t) (x : option Z) : t :=
  {| _content := _content d; _createTime := x; _updateTime := _updateTime d;
     _id := _id d; _schema := _schema d; saved := saved d |}.

Definition set_updateTime (d : t) (x : option Z) : t :=
  {| _content := _content d; _createTime := _createTime d; _updateTime := x;
     _id := _id d; _schema := _schema d; saved := saved d |}.

Definition set_id (d : t) (x : value) : t :=
  {| _content := _content d; _createTime := _createTime d; _updateTime := _updateTime d;
     _id := x; _schema := _schema d; saved := saved d |}.

Definition set_saved (d : t) (b : bool) : t :=
  {| _content := _content d; _createTime := _createTime d; _updateTime := _updateTime d;
     _id := _id d; _schema := _schema d; saved := b |}.

Section WithPlatform.

Context (P : Platform).

(** What the body of the loop of [#setup_content(content)] does for one
    parameter: the value it assigns to [newContent[param]], or the
    error it throws. *)
Definition setup_param (schemaDef : value) (param : Str.t) (content : value)
  : result value :=
  present <- prop_in P param content ;;
  spec <- prop_get P schemaDef param ;;
  if negb present then
    required <- prop_get P spec Schema.k_required ;;
    if truthy required then Throw (MissingRequired param)
    else prop_get P spec Schema.k_default
  else
    declared <- prop_get P spec Schema.k_type ;;
    v <- prop_get P content param ;;
    typ <- Schema.typeX P v ;;
    if strict_equal declared typ then Ok v
    else Throw (WrongType param).

(** The loop of [#setup_content(content)] over the parameters of the
    schema's definition; [newContent] is the object being built. *)
Fixpoint setup_loop (schemaDef : value) (params : list Str.t) (content : value)
  (newContent : list (Str.t * value)) : result (list (Str.t * value)) :=
  match params with
  | [] => Ok newContent
  | param :: rest =>
      v <- setup_param schemaDef param content ;;
      setup_loop schemaDef rest content (set_prop param v newContent)
  end.

(** [#setup_content(content)]. *)
Definition setup_content (schema : Schema.t) (content : value) : result value :=
  schemaDef <- Schema.definition schema ;;
  newContent <- setup_loop schemaDef (keys (own_entries schemaDef)) content [] ;;
  Ok (VObject newContent).

(** The two ways a declared parameter [p], declared as [spec], gets the
    value [out] in a validated content: [in] does not find it in
    [content], it is not required, and [out] is the declared default; or
    [in] finds it, with the value [out], whose type is the declared
    one. *)
Definition accepts (content : value) (p : Str.t) (spec out : value) : Prop :=
  (prop_in P p content = Ok false
   /\ exists required,
        prop_get P spec Schema.k_required = Ok required /\ truthy required = false
        /\ prop_get P spec Schema.k_default = Ok out)
  \/ (prop_in P p content = Ok true
      /\ exists declared typ,
           prop_get P spec Schema.k_type = Ok declared
           /\ prop_get P content p = Ok out
           /\ Schema.typeX P out = Ok typ /\ strict_equal declared typ = true).

(** *** Which object [#setup_content] writes to

    The content a caller hands over is an object, and so is the content
    that is built.  With the objects in a store, [content] is a
    reference and every write names the object it goes to. *)






(** [edit(newContent)] at the instant [now]: the document afterwards and
    how the call ends. *)
Definition edit (d : t) (newContent : value) (now : Z) : t * result unit :=
  match setup_content (_schema d) newContent with
  | Ok processedContent =>
      let d := set_content d processedContent in
      (set_updateTime d (Some now), Ok tt)
  | Throw error => (d, Throw error)
  end.

(** The string a value turns into inside a concatenation. *)
Definition str_of (v : value) : Str.t :=
  match v with
  | VStr s => s
  | _ => to_string P v
  end.

Definition decimal (n : Z) : Str.t := lit (NilZero.string_of_int (Z.to_int n)).

(** [#init_doc(content)], for a content the [in] operator accepts. *)
Definition init_doc (d : t) (content : value) : result t :=
  newContent <- setup_content (_schema d) content ;;
  let d := set_content d newContent in
  hasId <- prop_in P idMark content ;;
  vId <- prop_get P content idMark ;;
  let sameType := VBool (Schema.is_string vId (typeof (_id d))) in
  let d := if hasId && truthy (VStr (typeof sameType)) then set_id d vId else d in
  hasC <- prop_in P createTMark content ;;
  vC <- prop_get P content createTMark ;;
  let d := match Date_value P vC with
           | Some tc => if hasC then set_createTime d (Some tc) else d
           | None => d
           end in
  hasU <- prop_in P updateTMark content ;;
  vU <- prop_get P content updateTMark ;;
  let valid_u := match Date_value P vU with Some _ => hasU | None => false end in
  Ok (if valid_u then set_updateTime d (Date_value P vU)
      else match _createTime d, _updateTime d with
           | Some tc, None => set_updateTime d (Some tc)
           | _, _ => d
           end).

(** [#set_options()] at the instant [now]. *)
Definition set_options (d : t) (now : Z) : result t :=
  options <- Schema.options (_schema d) ;;
  timestamps <- prop_get P options Schema.k_timestamps ;;
  match timestamps, _createTime d with
  | VBool true, None => Ok (set_updateTime (set_createTime d (Some now)) (Some now))
  | _, _ => Ok d
  end.

(** [new Document(content, schema, dbHandler, idSeed)] at the instant
    [now], [random] being the twelve hexadecimal digits drawn for a new
    id. *)
Definition new (content : value) (schema : Schema.t) (idSeed : value)
  (now : Z) (random : Str.t) : result t :=
  if negb (truthy content) || negb (Str.eqb (typeof content) (lit "object"))
  then Throw InvalidContentArg
  else
    valid <- Schema.is_valid_schema P schema ;;
    if negb valid then Throw InvalidSchemaArg
    else if negb (Str.eqb (typeof idSeed) (lit "string")
                  || Str.eqb (typeof idSeed) (lit "number"))
    then Throw InvalidSeedArg
    else
      let d := {| _content := VObject []; _createTime := None; _updateTime := None;
                  _id := VStr []; _schema := schema; saved := false |} in
      d <- init_doc d content ;;
      d <- set_options d now ;;
      if Schema.is_string (_id d) []
      then
        let seed := match idSeed with VNum n => decimal n | _ => str_of idSeed end in
        Ok (set_id d (VStr (seed ++ lit "-" ++ decimal now ++ lit "-" ++ random)))
      else Ok d.

(** [x[0]]. *)
Definition first_item (x : value) : result value := prop_get P x (index_key 0).

(** [static reconstruct_doc(content, schema, dbHandler, saved)]:
    [timeCheck] is read before the document is built at [now]; [None] is
    the [null] returned for a document that cannot be rebuilt. *)
Definition reconstruct_doc (content : value) (schema : Schema.t) (wasSaved : bool)
  (timeCheck now : Z) (random : Str.t) : option t :=
  match new content schema (VNum (-1)) now random with
  | Throw _ => None
  | Ok doc =>
      match first_item (_id doc) with
      | Throw _ => None
      | Ok c =>
          if Schema.is_string c (lit "-") then None
          else if (timeCheck <=? match _createTime doc with Some tc => tc | None => 0 end)%Z
          then None
          else Some (set_saved doc (if wasSaved then true else false))
      end
  end.

(** [toString()]. *)
Definition toString (d : t) : Str.t :=
  let docStr := lit "{" ++ quote ++ idMark ++ quote ++ lit ":" ++ quote
                ++ str_of (_id d) ++ quote
                ++ lit "," ++ removelast (tl (JSON_stringify P (_content d))) in
  let docStr := match _createTime d with
                | Some tc => docStr ++ lit "," ++ quote ++ createTMark ++ quote ++ lit ":"
                             ++ quote ++ toISOString P tc ++ quote
                | None => docStr
                end in
  let docStr := match _updateTime d with
                | Some tu => docStr ++ lit "," ++ quote ++ updateTMark ++ quote ++ lit ":"
                             ++ quote ++ toISOString P tu ++ quote
                | None => docStr
                end in
  docStr ++ lit "}".

(** The pattern [save()] hands to [delete_by_match]. *)
Definition id_pattern (d : t) : Str.t :=
  idMark ++ quote ++ lit ":" ++ quote ++ str_of (_id d).

(** [save()] through the handler [h]: the document and the disk
    afterwards and how the promise ends.  The inner [save] of an update
    has no rejection handler, so its failure leaves the promise pending. *)
Definition save (d : t) (h : DBHandler.t) (disk : Fs.t)
  : t * Fs.t * promise Str.t :=
  if negb (DBHandler.is_connected h) then (d, disk, Rejected NotConnected)
  else
    let docStr := toString d in
    if saved d then
      match DBHandler.delete_by_match P h disk (id_pattern d) with
      | (disk1, Resolved _) =>
          match DBHandler.save h disk1 docStr with
          | (disk2, Resolved result) => (set_saved d true, disk2, Resolved result)
          | (disk2, _) => (d, disk2, Pending)
          end
      | (disk1, Rejected error) => (d, disk1, Rejected error)
      | (disk1, Pending) => (d, disk1, Pending)
      end
    else
      match DBHandler.save h disk docStr with
      | (disk1, Resolved result) => (set_saved d true, disk1, Resolved result)
      | (disk1, Rejected error) => (d, disk1, Rejected error)
      | (disk1, Pending) => (d, disk1, Pending)
      end.

End WithPlatform.

End Document.

(** ** model.js *)

Module Model.

Import Str Js Obj.

(** A [Model] instance: its schema and the counter [#countDocs].  The
    handler it owns is passed along with the disk.  The counter lock is
    free whenever [new_document] is entered, since every call releases it
    before it returns, so its callback runs at once.  The counter is an
    integer: it stays in the range where the arithmetic of [Number] is
    exact. *)
Record t := { schema : Schema.t; countDocs : Z }.

Section WithPlatform.

Context (P : Platform).

(** [new Model(schema, dbHandler)]. *)
Definition new (schema : Schema.t) : result t :=
  valid <- Schema.is_valid_schema P schema ;;
  if negb valid then Throw InvalidSchemaArg
  else Ok {| schema := schema; countDocs := 0 |}.

(** What a call returns to the caller: a JSON value, or a rebuilt
    document ([None] for [null]). *)
Inductive found :=
| AsJson (v : value)
| AsDocument (d : option Document.t).

(** [ids.includes(x)] for an array of strings. *)
Definition includes_id (ids : list Str.t) (x : value) : bool :=
  match x with
  | VStr s => existsb (Str.eqb s) ids
  | _ => false
  end.

(** The argument [id] of the finders: a string or an array of strings. *)
Definition as_string_list (items : list value) : option (list Str.t) :=
  fold_right (fun v acc =>
                match v, acc with
                | VStr s, Some l => Some (s :: l)
                | _, _ => None
                end) (Some []) items.

Definition valid_id (id : value) : option (list Str.t) :=
  match id with
  | VStr s => Some [s]
  | VArray items => as_string_list items
  | _ => None
  end.

(** [docArray.filter(callback)] for a callback that may throw. *)
Fixpoint filter_result (f : value -> result bool) (l : list value)
  : result (list value) :=
  match l with
  | [] => Ok []
  | x :: l' =>
      keep <- f x ;;
      rest <- filter_result f l' ;;
      Ok (if keep then x :: rest else rest)
  end.

Definition array_items (x : value) : result (list value) :=
  match x with
  | VArray items => Ok items
  | _ => Throw TypeError
  end.

(** [#include_docs_array_by_ids(docArray, ids)]. *)
Definition include_docs_array_by_ids (docArray : value) (ids : list Str.t)
  : result (list value) :=
  items <- array_items docArray ;;
  filter_result (fun doc =>
                   has <- hasOwn P doc Document.idMark ;;
                   if negb has then Ok false
                   else v <- prop_get P doc Document.idMark ;; Ok (includes_id ids v))
                items.

(** [#exclude_docs_array_by_ids(docArray, ids)]. *)
Definition exclude_docs_array_by_ids (docArray : value) (ids : list Str.t)
  : result (list value) :=
  items <- array_items docArray ;;
  filter_result (fun doc =>
                   has <- hasOwn P doc Document.idMark ;;
                   if negb has then Ok false
                   else v <- prop_get P doc Document.idMark ;; Ok (negb (includes_id ids v)))
                items.

(** Whether the [_id] of a stored record is one of [ids]. *)
Definition has_id_among (ids : list Str.t) (doc : value) : bool :=
  match prop_get P doc Document.idMark with
  | Ok v => includes_id ids v
  | Throw _ => false
  end.

(** [new_document(content)] at the instant [now]: the model afterwards
    and what the call returns or throws.  The argument [#countDocs++] is
    evaluated before the constructor runs. *)
Definition new_document (m : t) (content : value) (now : Z) (random : Str.t)
  : t * result Document.t :=
  let idSeed := countDocs m in
  let m := {| schema := schema m; countDocs := (countDocs m + 1)%Z |} in
  (m, Document.new P content (schema m) (VNum idSeed) now random).

(** A run of calls of [new_document], each with its content, instant
    and random digits: the model afterwards and, for every call, the
    value of the counter it started from with what it returned or threw. *)
Fixpoint new_documents (m : t) (calls : list (value * Z * Str.t))
  : t * list (Z * result Document.t) :=
  match calls with
  | [] => (m, [])
  | (content, now, random) :: rest =>
      let '(m', r) := new_document m content now random in
      let '(m'', rs) := new_documents m' rest in
      (m'', (countDocs m, r) :: rs)
  end.

(** [find()]. *)
Definition find (h : DBHandler.t) (disk : Fs.t) : promise value :=
  if negb (DBHandler.is_connected h) then Rejected NotConnected
  else
    match DBHandler.load h disk with
    | Resolved docStr =>
        match JSON_parse P docStr with
        | Some docArray => Resolved docArray
        | None => Rejected SyntaxError
        end
    | Rejected error => Rejected error
    | Pending => Pending
    end.

(** The documents a finder hands back. *)
Definition hand_back (m : t) (asDocument wasSaved : bool) (timeCheck now : Z)
  (random : Str.t) (docs : list value) : list found :=
  if asDocument
  then map (fun doc =>
              AsDocument (Document.reconstruct_doc P doc (schema m) wasSaved
                            timeCheck now random)) docs
  else map AsJson docs.

(** [findById(id, options)], [asDocument] being
    [options.asDocument === true]. *)
Definition findById (m : t) (h : DBHandler.t) (disk : Fs.t) (id : value)
  (asDocument : bool) (timeCheck now : Z) (random : Str.t) : promise (list found) :=
  if negb (DBHandler.is_connected h) then Rejected NotConnected
  else
    match valid_id id with
    | None => Rejected InvalidId
    | Some ids =>
        match find h disk with
        | Resolved docArray =>
            match include_docs_array_by_ids docArray ids with
            | Ok filteredDocArray =>
                Resolved (hand_back m asDocument true timeCheck now random filteredDocArray)
            | Throw err => Rejected err
            end
        | Rejected err => Rejected err
        | Pending => Pending
        end
    end.

(** [findByIdAndDelete(id, options)]: the disk afterwards and how the
    promise ends. *)
Definition findByIdAndDelete (m : t) (h : DBHandler.t) (disk : Fs.t) (id : value)
  (asDocument : bool) (timeCheck now : Z) (random : Str.t)
  : Fs.t * promise (list found) :=
  if negb (DBHandler.is_connected h) then (disk, Rejected NotConnected)
  else
    match valid_id id with
    | None => (disk, Rejected InvalidId)
    | Some ids =>
        match find h disk with
        | Resolved docArray =>
            match exclude_docs_array_by_ids docArray ids with
            | Throw err => (disk, Rejected err)
            | Ok kept =>
                let strArr := map (JSON_stringify P) kept in
                match DBHandler.overwrite h disk strArr with
                | Throw err => (disk, Rejected err)
                | Ok (disk', Resolved _) =>
                    match include_docs_array_by_ids docArray ids with
                    | Ok filteredDocArray =>
                        (disk', Resolved (hand_back m asDocument false timeCheck now
                                            random filteredDocArray))
                    | Throw _ => (disk', Pending)
                    end
                | Ok (disk', _) => (disk', Pending)
                end
            end
        | Rejected err => (disk, Rejected err)
        | Pending => (disk, Pending)
        end
    end.

(** [delete_all()] and [pop_all()]. *)
Definition delete_all (h : DBHandler.t) (disk : Fs.t) : Fs.t * promise unit :=
  if negb (DBHandler.is_connected h) then (disk, Rejected NotConnected)
  else
    match DBHandler.erase_db h disk with
    | Ok (disk', r) => (disk', r)
    | Throw err => (disk, Rejected err)
    end.

Definition pop_all (h : DBHandler.t) (disk : Fs.t) : Fs.t * promise value :=
  if negb (DBHandler.is_connected h) then (disk, Rejected NotConnected)
  else
    match find h disk with
    | Resolved docArray =>
        match DBHandler.erase_db h disk with
        | Ok (disk', Resolved _) => (disk', Resolved docArray)
        | Ok (disk', _) => (disk', Pending)
        | Throw err => (disk, Rejected err)
        end
    | Rejected err => (disk, Rejected err)
    | Pending => (disk, Pending)
    end.

End WithPlatform.

End Model.

(** ** mydb.js

    The module keeps a handler in [dbHandler], which [connect] also hands
    to the model made last: one [DBHandler] object can then be reached
    from two places.  The objects are therefore kept in a store, a
    reference being a position in it, and a variable or a private field
    holds a reference.  A call runs to its end before the next one
    starts. *)

Module MyDb.

Import Str Js Obj Store.

(** A [Model] object: its schema and counter, and the handler in its
    [#dbHandler]. *)
Record instance := { state : Model.t; handler : ref }.

(** The handlers and the models made so far, and the two variables of
    the module. *)
Record world := {
  handlers : list DBHandler.t;
  models : list instance;
  dbHandler : option ref;
  lastModel : option ref
}.

(** [let dbHandler = null; let lastModel = null]. *)
Definition loaded : world :=
  {| handlers := []; models := []; dbHandler := None; lastModel := None |}.

(** [new DBHandler()]. *)
Definition fresh_handler : DBHandler.t := {| DBHandler.dbFilePath := None |}.

Definition handler_at (w : world) (r : ref) : DBHandler.t :=
  nth r (handlers w) fresh_handler.

Definition set_handler (w : world) (r : ref) (h : DBHandler.t) : world :=
  {| handlers := put (handlers w) r h; models := models w;
     dbHandler := dbHandler w; lastModel := lastModel w |}.

Definition set_dbHandler (w : world) (r : option ref) : world :=
  {| handlers := handlers w; models := models w;
     dbHandler := r; lastModel := lastModel w |}.

(** [model.dbHandler = handler] (the setter of [Model]) for a handler of
    the store. *)
Definition set_model_handler (w : world) (m r : ref) : world :=
  match nth_error (models w) m with
  | Some inst =>
      {| handlers := handlers w;
         models := put (models w) m {| state := state inst; handler := r |};
         dbHandler := dbHandler w; lastModel := lastModel w |}
  | None => w
  end.

(** [model.dbFilePath] and [model.is_connected()]. *)
Definition dbFilePath_of (w : world) (m : ref) : option Str.t :=
  match nth_error (models w) m with
  | Some inst => DBHandler.dbFilePath (handler_at w (handler inst))
  | None => None
  end.

Definition is_connected (w : world) (m : ref) : bool :=
  match nth_error (models w) m with
  | Some inst => DBHandler.is_connected (handler_at w (handler inst))
  | None => false
  end.

(** What holds of the store after any sequence of calls: every
    reference leads to an object, and no two models hold the same
    handler. *)
Definition well_formed (w : world) : Prop :=
  (forall inst, In inst (models w) -> handler inst < length (handlers w))
  /\ NoDup (map handler (models w))
  /\ (forall r, dbHandler w = Some r -> r < length (handlers w))
  /\ (forall m, lastModel w = Some m -> m < length (models w)).

Section WithPlatform.

Context (P : Platform).

(** The schemas [model] makes a model from: those that are valid and
    of which [Schema.copy] returns a valid copy. *)
Definition accepted (schema : Schema.t) : Prop :=
  Schema.is_valid_schema P schema = Ok true
  /\ exists schemaCopy,
       Schema.copy P schema = Ok schemaCopy
       /\ Schema.is_valid_schema P schemaCopy = Ok true.

(** [model(nameDB, schema)] on an instance of [Schema]: the new model
    gets a copy of the schema and a handler of its own, a copy of
    [dbHandler] when there is one.  An object nothing refers to is not
    kept. *)
Definition model (w : world) (schema : Schema.t) : world * result ref :=
  match Schema.is_valid_schema P schema with
  | Throw e => (w, Throw e)
  | Ok valid =>
      if negb valid then (w, Throw InvalidSchemaArg)
      else
        match Schema.copy P schema with
        | Throw e => (w, Throw e)
        | Ok schemaCopy =>
            let h := match dbHandler w with
                     | Some r => DBHandler.copy (handler_at w r)
                     | None => fresh_handler
                     end in
            match Model.new P schemaCopy with
            | Throw e => (w, Throw e)
            | Ok newModel =>
                ({| handlers := handlers w ++ [h];
                    models := models w
                              ++ [{| state := newModel; handler := length (handlers w) |}];
                    dbHandler := dbHandler w;
                    lastModel := Some (length (models w)) |},
                 Ok (length (models w)))
            end
        end
  end.

(** [model.disconnect()]. *)
Definition disconnect_model (w : world) (m : ref) : world :=
  match nth_error (models w) m with
  | Some inst =>
      if DBHandler.is_connected (handler_at w (handler inst))
      then set_handler w (handler inst)
             (DBHandler.disconnect (handler_at w (handler inst)))
      else w
  | None => w
  end.

(** [disconnect(model)]: [Some m] for a [Model] object, [None] for a
    call without one. *)
Definition disconnect (w : world) (model : option ref) : world :=
  match model with
  | Some m => disconnect_model w m
  | None =>
      let w := set_dbHandler w None in
      match lastModel w with
      | Some m => disconnect_model w m
      | None => w
      end
  end.

(** [connect(dbURI, options, model)]: what is not a [Model] object of
    the store counts as no model. *)
Definition connect (w : world) (disk : Fs.t) (dbURI : value) (model : option ref)
  : world * Fs.t * promise unit :=
  match match model with
        | Some m => nth_error (models w) m
        | None => None
        end with
  | None =>
      let r := length (handlers w) in
      let '(h, disk', outcome) :=
        DBHandler.connect_dbFilePath P fresh_handler disk dbURI in
      let w := {| handlers := handlers w ++ [h]; models := models w;
                  dbHandler := Some r; lastModel := lastModel w |} in
      match outcome with
      | Resolved _ =>
          (match lastModel w with
           | Some m => set_model_handler w m r
           | None => w
           end, disk', Resolved tt)
      | Rejected err => (set_dbHandler w None, disk', Rejected err)
      | Pending => (w, disk', Pending)
      end
  | Some inst =>
      let '(h, disk', outcome) :=
        DBHandler.connect_dbFilePath P (handler_at w (handler inst)) disk dbURI in
      (set_handler w (handler inst) h, disk', outcome)
  end.

(** A call of one of the three functions of the module. *)
Inductive call :=
| CallModel (schema : Schema.t)
| CallConnect (dbURI : value) (model : option ref)
| CallDisconnect (model : option ref).

Definition step (st : world * Fs.t) (c : call) : world * Fs.t :=
  match c with
  | CallModel schema => (fst (model (fst st) schema), snd st)
  | CallConnect dbURI m =>
      let '(w, disk, _) := connect (fst st) (snd st) dbURI m in (w, disk)
  | CallDisconnect m => (disconnect (fst st) m, snd st)
  end.

(** The module after a sequence of calls, from its load on. *)
Definition run (disk : Fs.t) (calls : list call) : world * Fs.t :=
  fold_left step calls (loaded, disk).

End WithPlatform.

End MyDb.

(** ** models/story.js and controllers/storyController.js *)

Module Story.

Import Str Js Obj.

Definition k_title : Str.t := lit "title".
Definition k_snippet : Str.t := lit "snippet".
Definition k_body : Str.t := lit "body".

(** The two arguments of [new Schema(...)] in models/story.js; [String]
    is the constructor function. *)
Definition storyDefinition : value :=
  VObject
    [ (k_title, VObject [(Schema.k_type, VFunction (lit "String"));
                         (Schema.k_required, VBool true)]);
      (k_snippet, VObject [(Schema.k_type, VFunction (lit "String"));
                           (Schema.k_required, VBool true)]);
      (k_body, VObject [(Schema.k_type, VFunction (lit "String"));
                        (Schema.k_required, VBool true)]) ].

Definition storyOptions : value := VObject [(Schema.k_timestamps, VBool true)].

(** What a handler of the controller does with the response: one of the
    calls on [res], an error written to the console with no response
    sent, an exception leaving the handler, or nothing at all. *)
Inductive response :=
| Redirect (url : Str.t)
| NotFound
| Logged (e : error)
| Thrown (e : error)
| Unanswered.

Definition stories_url : Str.t := lit "/stories".

(** The [content] of [story_post]: [Object.keys(formData)] without the
    names that start with an underscore, reduced into a new object. *)
Definition form_content (formData : list (Str.t * value)) : list (Str.t * value) :=
  let allowed := filter (fun key => negb (starts_with (lit "_") key)) (keys formData) in
  fold_left (fun obj key =>
               assign key (match lookup key formData with
                           | Some v => v
                           | None => VUndefined
                           end) obj)
            allowed [].

Section WithPlatform.

Context (P : Platform).

(** [const storySchema = new Schema({...}, { timestamps: true })]. *)
Definition storySchema : result Schema.t := Schema.new P storyDefinition storyOptions.

(** [story_create_post(content, res)] on the model [Story], whose
    handler is [h]. *)
Definition story_create_post (Story : Model.t) (h : DBHandler.t) (disk : Fs.t)
  (content : value) (now : Z) (random : Str.t) : Model.t * Fs.t * response :=
  match Model.new_document P Story content now random with
  | (Story', Throw e) => (Story', disk, Thrown e)
  | (Story', Ok story) =>
      match Document.save P story h disk with
      | (_, disk', Resolved _) => (Story', disk', Redirect stories_url)
      | (_, disk', Rejected err) => (Story', disk', Logged err)
      | (_, disk', Pending) => (Story', disk', Unanswered)
      end
  end.

(** [story_edit_post(newContent, id, res)]: the document is rebuilt at
    the instant [now] ([timeCheck] read just before), edited at
    [editTime]. *)
Definition story_edit_post (Story : Model.t) (h : DBHandler.t) (disk : Fs.t)
  (newContent id : value) (timeCheck now : Z) (random : Str.t) (editTime : Z)
  : Fs.t * response :=
  match Model.findById P Story h disk id true timeCheck now random with
  | Rejected err => (disk, Logged err)
  | Pending => (disk, Unanswered)
  | Resolved [] => (disk, NotFound)
  | Resolved (Model.AsJson _ :: _) => (disk, Logged TypeError)
  | Resolved (Model.AsDocument None :: _) => (disk, Logged TypeError)
  | Resolved (Model.AsDocument (Some story) :: _) =>
      match Document.edit P story newContent editTime with
      | (_, Throw err) => (disk, Logged err)
      | (story', Ok _) =>
          match Document.save P story' h disk with
          | (_, disk', Resolved _) => (disk', Redirect stories_url)
          | (_, disk', _) => (disk', Unanswered)
          end
      end
  end.

(** [story_post(req, res)], with [formData] for [req.body]. *)
Definition story_post (Story : Model.t) (h : DBHandler.t) (disk : Fs.t)
  (formData : list (Str.t * value)) (timeCheck now : Z) (random : Str.t)
  (editTime : Z) : Model.t * Fs.t * response :=
  let id := match lookup Document.idMark formData with
            | Some v => v
            | None => VUndefined
            end in
  let content := VObject (form_content formData) in
  match lookup (lit "_method") formData with
  | Some (VStr method) =>
      if Str.eqb method (lit "POST")
      then story_create_post Story h disk content now random
      else if Str.eqb method (lit "PUT")
      then let '(disk', r) :=
             story_edit_post Story h disk content id timeCheck now random editTime in
           (Story, disk', r)
      else (Story, disk, Unanswered)
  | _ => (Story, disk, Unanswered)
  end.

End WithPlatform.

End Story.

(** ** A platform and a schema to run the embedding on

    A stand-in for the runtime, used where a statement is tried on
    concrete data: a JSON codec (strings with the escapes of the quote,
    the backslash, CR and LF; integers; a property that is undefined or
    a function is left out), the extension after the last dot of the last path
    component, a time stamp written as its number of milliseconds, and a
    read stream that cuts a file every 65536 characters. *)

Module Reference.

Import Str Js Obj.

Definition backslash : ascii := "\"%char.
Definition dquote : ascii := "034"%char.

Definition decimal (n : Z) : Str.t := lit (NilZero.string_of_int (Z.to_int n)).

Fixpoint escape (s : Str.t) : Str.t :=
  match s with
  | [] => []
  | c :: s' =>
      if Ascii.eqb c dquote then backslash :: dquote :: escape s'
      else if Ascii.eqb c backslash then backslash :: backslash :: escape s'
      else if Ascii.eqb c DBHandler.CR then backslash :: "r"%char :: escape s'
      else if Ascii.eqb c DBHandler.LF then backslash :: "n"%char :: escape s'
      else c :: escape s'
  end.

Definition quoted (s : Str.t) : Str.t := dquote :: escape s ++ [dquote].

Fixpoint stringify (v : value) : Str.t :=
  match v with
  | VBool true => lit "true"
  | VBool false => lit "false"
  | VNum n | VBoxNum n => decimal n
  | VStr s | VBoxStr s => quoted s
  | VBoxBool true => lit "true"
  | VBoxBool false => lit "false"
  | VDate (Some t) => quoted (lit "T" ++ decimal t)
  | VObject fs =>
      lit "{"
      ++ join (lit ",")
           ((fix members (l : list (Str.t * value)) : list Str.t :=
               match l with
               | [] => []
               | (_, VUndefined) :: l' | (_, VFunction _) :: l' => members l'
               | (k, x) :: l' => (quoted k ++ lit ":" ++ stringify x) :: members l'
               end) fs)
      ++ lit "}"
  | VArray items =>
      lit "["
      ++ join (lit ",")
           ((fix elements (l : list value) : list Str.t :=
               match l with
               | [] => []
               | x :: l' => stringify x :: elements l'
               end) items)
      ++ lit "]"
  | _ => lit "null"
  end.

Definition is_space (c : ascii) : bool :=
  Ascii.eqb c " "%char || Ascii.eqb c DBHandler.CR || Ascii.eqb c DBHandler.LF
  || Ascii.eqb c "009"%char.

Fixpoint skip_space (s : Str.t) : Str.t :=
  match s with
  | c :: s' => if is_space c then skip_space s' else s
  | [] => []
  end.

(** The characters of a string literal after its opening quote. *)
Fixpoint read_chars (s acc : Str.t) : option (Str.t * Str.t) :=
  match s with
  | [] => None
  | c :: s' =>
      if Ascii.eqb c dquote then Some (rev acc, s')
      else if Ascii.eqb c backslash then
        match s' with
        | e :: s'' =>
            if Ascii.eqb e dquote then read_chars s'' (dquote :: acc)
            else if Ascii.eqb e backslash then read_chars s'' (backslash :: acc)
            else if Ascii.eqb e "r"%char then read_chars s'' (DBHandler.CR :: acc)
            else if Ascii.eqb e "n"%char then read_chars s'' (DBHandler.LF :: acc)
            else None
        | [] => None
        end
      else if (nat_of_ascii c <? 32)%nat then None
      else read_chars s' (c :: acc)
  end.

Definition is_digit (c : ascii) : bool :=
  (48 <=? nat_of_ascii c)%nat && (nat_of_ascii c <=? 57)%nat.

Fixpoint read_digits (s : Str.t) (acc : Z) : Z * Str.t :=
  match s with
  | c :: s' =>
      if is_digit c then read_digits s' (10 * acc + Z.of_nat (nat_of_ascii c - 48))%Z
      else (acc, s)
  | [] => (acc, [])
  end.

Definition read_number (s : Str.t) : option (Z * Str.t) :=
  match s with
  | c :: s' =>
      if Ascii.eqb c "-"%char then
        match s' with
        | d :: _ => if is_digit d
                    then let '(n, r) := read_digits s' 0%Z in Some ((- n)%Z, r)
                    else None
        | [] => None
        end
      else if is_digit c then Some (read_digits s 0%Z)
      else None
  | [] => None
  end.

Fixpoint read_value (fuel : nat) (s : Str.t) : option (value * Str.t) :=
  match fuel with
  | O => None
  | S fuel =>
      let s := skip_space s in
      if starts_with (lit "null") s then Some (VNull, skipn 4 s)
      else if starts_with (lit "true") s then Some (VBool true, skipn 4 s)
      else if starts_with (lit "false") s then Some (VBool false, skipn 5 s)
      else
        match s with
        | [] => None
        | c :: r =>
            if Ascii.eqb c dquote then
              match read_chars r [] with
              | Some (str, r') => Some (VStr str, r')
              | None => None
              end
            else if Ascii.eqb c "["%char then
              match skip_space r with
              | c' :: r' =>
                  if Ascii.eqb c' "]"%char then Some (VArray [], r')
                  else read_elements fuel r []
              | [] => None
              end
            else if Ascii.eqb c "{"%char then
              match skip_space r with
              | c' :: r' =>
                  if Ascii.eqb c' "}"%char then Some (VObject [], r')
                  else read_members fuel r []
              | [] => None
              end
            else
              match read_number s with
              | Some (n, r') => Some (VNum n, r')
              | None => None
              end
        end
  end
with read_elements (fuel : nat) (s : Str.t) (acc : list value) : option (value * Str.t) :=
  match fuel with
  | O => None
  | S fuel =>
      match read_value fuel s with
      | Some (v, r) =>
          match skip_space r with
          | c :: r' =>
              if Ascii.eqb c ","%char then read_elements fuel r' (v :: acc)
              else if Ascii.eqb c "]"%char then Some (VArray (rev (v :: acc)), r')
              else None
          | [] => None
          end
      | None => None
      end
  end
with read_members (fuel : nat) (s : Str.t) (acc : list (Str.t * value))
  : option (value * Str.t) :=
  match fuel with
  | O => None
  | S fuel =>
      match skip_space s with
      | q :: r =>
          if Ascii.eqb q dquote then
            match read_chars r [] with
            | Some (k, r1) =>
                match skip_space r1 with
                | colon :: r2 =>
                    if Ascii.eqb colon ":"%char then
                      match read_value fuel r2 with
                      | Some (v, r3) =>
                          match skip_space r3 with
                          | c :: r4 =>
                              if Ascii.eqb c ","%char
                              then read_members fuel r4 (assign k v acc)
                              else if Ascii.eqb c "}"%char
                              then Some (VObject (assign k v acc), r4)
                              else None
                          | [] => None
                          end
                      | None => None
                      end
                    else None
                | [] => None
                end
            | None => None
            end
          else None
      | [] => None
      end
  end.

Definition parse (s : Str.t) : option value :=
  match read_value (S (length s)) s with
  | Some (v, r) => match skip_space r with [] => Some v | _ :: _ => None end
  | None => None
  end.

(** The extension of a path, read from its end. *)
Fixpoint ext_scan (rev_path acc : Str.t) : Str.t :=
  match rev_path with
  | [] => []
  | c :: rest =>
      if Ascii.eqb c "/"%char then []
      else if Ascii.eqb c "."%char then
        match rest with
        | [] => []
        | c' :: _ => if Ascii.eqb c' "/"%char then [] else c :: acc
        end
      else ext_scan rest (c :: acc)
  end.

Definition ext_of (path : Str.t) : Str.t := ext_scan (rev path) [].

Definition date_value (v : value) : option Z :=
  match v with
  | VNum n => Some n
  | VDate t => t
  | VStr (c :: s) =>
      if Ascii.eqb c "T"%char then
        match read_number s with
        | Some (n, []) => Some n
        | _ => None
        end
      else None
  | _ => None
  end.

Definition string_of (v : value) : Str.t :=
  match v with
  | VUndefined => lit "undefined"
  | VNull => lit "null"
  | VStr s | VBoxStr s => s
  | VNum n | VBoxNum n => decimal n
  | VBool true | VBoxBool true => lit "true"
  | VBool false | VBoxBool false => lit "false"
  | _ => lit "[object Object]"
  end.

(** [String(v)]: an array is the join of its items, [null] and
    [undefined] counting as empty. *)
Fixpoint text_of (v : value) : Str.t :=
  match v with
  | VArray items =>
      (fix go (l : list value) : Str.t :=
         match l with
         | [] => []
         | x :: l' =>
             let t := match x with
                      | VNull | VUndefined => []
                      | _ => text_of x
                      end in
             match l' with
             | [] => t
             | _ :: _ => t ++ lit "," ++ go l'
             end
         end) items
  | VDate (Some t) => lit "T" ++ decimal t
  | VDate None => lit "Invalid Date"
  | VFunction n => lit "function " ++ n ++ lit "() { [native code] }"
  | _ => string_of v
  end.

(** [a == b] where it is not [===]: [null] and [undefined] are equal,
    an object is compared with a string through its text. *)
Definition loosely_equal (a b : value) : bool :=
  match a, b with
  | (VNull | VUndefined), (VNull | VUndefined) => true
  | VStr s, _ => if is_primitive b then strict_equal a b else Str.eqb s (text_of b)
  | _, VStr s => if is_primitive a then strict_equal a b else Str.eqb (text_of a) s
  | _, _ => strict_equal a b
  end.

(** Some methods of the built-in classes. *)
Definition methods_of (cls : Str.t) : list (Str.t * value) :=
  map (fun n => (lit n, VFunction (lit n)))
    (if Str.eqb cls (lit "Array")
     then ["push"; "pop"; "map"; "filter"; "join"; "slice"; "indexOf"; "toString"]%string
     else if Str.eqb cls (lit "String")
     then ["charAt"; "indexOf"; "slice"; "trim"; "toString"; "valueOf"]%string
     else if Str.eqb cls (lit "Date")
     then ["getTime"; "toISOString"; "toJSON"; "toString"; "valueOf"]%string
     else if Str.eqb cls (lit "Function")
     then ["apply"; "bind"; "call"; "toString"]%string
     else ["toString"; "valueOf"]%string).

Fixpoint chunks_of (fuel size : nat) (s : Str.t) : list Str.t :=
  match fuel, s with
  | _, [] => []
  | O, _ => [s]
  | S fuel, _ => firstn size s :: chunks_of fuel size (skipn size s)
  end.

Definition platform : Platform :=
  {| extname := ext_of;
     JSON_parse := parse;
     JSON_stringify := stringify;
     Date_value := date_value;
     toISOString := fun t => lit "T" ++ decimal t;
     to_string := string_of;
     read_chunks := fun s => chunks_of (length s) (256 * 256) s;
     to_property_key := fun v => Ok (text_of v);
     loose_eq := fun a b => Ok (loosely_equal a b);
     function_props := fun _ => [(length_key, VNum 0)];
     class_prototype := methods_of |}.

(** The schema of the scenario of the specification: a required string
    [title], time stamps on; and the definition it is built from. *)
Definition k_title : Str.t := lit "title".

Definition story_definition : value :=
  VObject [(k_title, VObject [(Schema.k_type, VFunction (lit "String"));
                              (Schema.k_required, VBool true)])].

Definition story_options : value := VObject [(Schema.k_timestamps, VBool true)].

Definition story_schema : Schema.t :=
  {| Schema._definition :=
       VObject [(k_title, VObject [(Schema.k_type, VStr (lit "string"));
                                   (Schema.k_required, VBool true);
                                   (Schema.k_default, VStr [])])];
     Schema.options_ := [(Schema.k_timestamps, VBool true)] |}.






(** The record of the scenario once created: seed 0, at the instant 1000. *)
Definition story_doc : Document.t :=
  {| Document._content := VObject [(k_title, VStr (lit "A"))];
     Document._createTime := Some 1000%Z;
     Document._updateTime := Some 1000%Z;
     Document._id := VStr (lit "0-1000-abcdef012345");
     Document._schema := story_schema;
     Document.saved := false |}.

Definition db_path : Str.t := lit "stories.json".

Definition connected : DBHandler.t := {| DBHandler.dbFilePath := Some db_path |}.

(** The same record once saved, a second record, and a file that holds
    the texts of both. *)
Definition saved_doc : Document.t := Document.set_saved story_doc true.

Definition other_record : value :=
  VObject [(Document.idMark, VStr (lit "1-1000-ffffffffffff"));
           (k_title, VStr (lit "Z"))].

Definition two_records : Str.t :=
  DBHandler.overwrite_file [Document.toString platform story_doc; stringify other_record].

(** A record without an [_id], and a file that holds it. *)
Definition idless_record : value := VObject [(k_title, VStr (lit "x"))].

Definition idless_file : Str.t := DBHandler.overwrite_file [stringify idless_record].

Definition story_model : Model.t :=
  {| Model.schema := story_schema; Model.countDocs := 0 |}.

(** A disk whose only node is the database file. *)
Definition disk_with (mode : Z) (file : Str.t) : Fs.t :=
  fun p => if Str.eqb p db_path then Fs.Node true mode file else Fs.Missing true.

End Reference.

(** * Properties *)

(** ** Texts *)

Module StrFacts.

Import Str.

Lemma eqb_eq (a b : Str.t) : Str.eqb a b = true <-> a = b.
Proof.
  revert b. induction a as [|x a IH]; intros [|y b]; simpl; split; intros H;
    try reflexivity; try discriminate.
  - apply andb_true_iff in H. destruct H as [Hxy Hab].
    apply Ascii.eqb_eq in Hxy. apply IH in Hab. congruence.
  - injection H as -> ->. rewrite Ascii.eqb_refl. apply IH. reflexivity.
Qed.

Lemma eqb_refl (a : Str.t) : Str.eqb a a = true.
Proof. apply eqb_eq. reflexivity. Qed.

Lemma eqb_neq (a b : Str.t) : Str.eqb a b = false <-> a <> b.
Proof.
  split.
  - intros H Hab. apply eqb_eq in Hab. congruence.
  - intros H. destruct (Str.eqb a b) eqn:E; [|reflexivity].
    apply eqb_eq in E. contradiction.
Qed.

Lemma starts_with_app (p s : Str.t) : starts_with p (p ++ s) = true.
Proof.
  induction p as [|a p IH]; simpl; [reflexivity|].
  rewrite Ascii.eqb_refl. exact IH.
Qed.

Lemma starts_with_inv (p s : Str.t) :
  starts_with p s = true -> exists r, s = p ++ r.
Proof.
  revert s. induction p as [|a p IH]; intros s H.
  - exists s. reflexivity.
  - destruct s as [|b s]; simpl in H; [discriminate|].
    apply andb_true_iff in H. destruct H as [Hab Hps].
    apply Ascii.eqb_eq in Hab. subst b.
    destruct (IH _ Hps) as [r ->]. exists r. reflexivity.
Qed.

Lemma starts_with_cons (a : ascii) (p : Str.t) (b : ascii) (s : Str.t) :
  starts_with (a :: p) (b :: s) = Ascii.eqb a b && starts_with p s.
Proof. reflexivity. Qed.

Lemma includes_cons (p : Str.t) (c : ascii) (s : Str.t) :
  includes p (c :: s) = starts_with p (c :: s) || includes p s.
Proof. reflexivity. Qed.

Lemma includes_tail (p : Str.t) (c : ascii) (s : Str.t) :
  includes p (c :: s) = false -> includes p s = false.
Proof.
  rewrite includes_cons. intros H. apply orb_false_iff in H. tauto.
Qed.

Lemma includes_head (p : Str.t) (s : Str.t) :
  includes p s = false -> starts_with p s = false.
Proof.
  destruct s; simpl; intros H; apply orb_false_iff in H; tauto.
Qed.

Lemma includes_app_r (p a s : Str.t) :
  includes p s = true -> includes p (a ++ s) = true.
Proof.
  intros H. induction a as [|c a IH]; [exact H|].
  change ((c :: a) ++ s) with (c :: (a ++ s)).
  rewrite includes_cons, IH. apply orb_true_r.
Qed.

Lemma starts_with_app_l (p s r : Str.t) :
  starts_with p s = true -> starts_with p (s ++ r) = true.
Proof.
  intros H. destruct (starts_with_inv _ _ H) as [q ->].
  rewrite <- app_assoc. apply starts_with_app.
Qed.

Lemma includes_app_l (p s r : Str.t) :
  includes p s = true -> includes p (s ++ r) = true.
Proof.
  induction s as [|c s IH]; intros H.
  - simpl in H. rewrite orb_false_r in H.
    destruct p; [destruct r; reflexivity | discriminate].
  - rewrite includes_cons in H. apply orb_true_iff in H.
    change ((c :: s) ++ r) with (c :: (s ++ r)). rewrite includes_cons.
    destruct H as [H|H].
    + change (c :: s ++ r) with ((c :: s) ++ r).
      rewrite (starts_with_app_l _ _ r H). reflexivity.
    + rewrite (IH H). apply orb_true_r.
Qed.

(** Passing the characters a match has consumed. *)
Lemma replace_go_skip (pat rep p s : Str.t) :
  replace_go pat rep (length p) (p ++ s) = replace_go pat rep 0 s.
Proof.
  induction p as [|c p IH]; simpl; [reflexivity | exact IH].
Qed.

Lemma replaceAll_nil (pat rep : Str.t) : pat <> [] -> replaceAll pat rep [] = [].
Proof. destruct pat; [congruence | reflexivity]. Qed.

Lemma replaceAll_match (pat rep s : Str.t) :
  pat <> [] -> replaceAll pat rep (pat ++ s) = rep ++ replaceAll pat rep s.
Proof.
  destruct pat as [|a pat]; [congruence|]. intros _.
  unfold replaceAll. change ((a :: pat) ++ s) with (a :: (pat ++ s)).
  cbn [replace_go].
  change (a :: pat ++ s) with ((a :: pat) ++ s). rewrite starts_with_app.
  replace (length (a :: pat) - 1) with (length pat) by (simpl; lia).
  rewrite replace_go_skip. reflexivity.
Qed.

Lemma replaceAll_step (pat rep : Str.t) (c : ascii) (s : Str.t) :
  pat <> [] -> starts_with pat (c :: s) = false ->
  replaceAll pat rep (c :: s) = c :: replaceAll pat rep s.
Proof.
  destruct pat as [|a pat]; [congruence|]. intros _ H.
  unfold replaceAll. cbn [replace_go]. rewrite H. reflexivity.
Qed.

(** Where the pattern does not occur, nothing is replaced. *)
Lemma replaceAll_absent (pat rep s : Str.t) :
  pat <> [] -> includes pat s = false -> replaceAll pat rep s = s.
Proof.
  intros Hp. induction s as [|c s IH]; intros H.
  - apply replaceAll_nil. exact Hp.
  - rewrite replaceAll_step; [|exact Hp|apply includes_head; exact H].
    rewrite IH; [reflexivity|]. apply includes_tail with c. exact H.
Qed.

Lemma join_snoc (sep : Str.t) (l : list Str.t) (x : Str.t) :
  l <> [] -> join sep (l ++ [x]) = join sep l ++ sep ++ x.
Proof.
  induction l as [|y l IH]; [congruence|]. intros _.
  destruct l as [|z l].
  - reflexivity.
  - change (join sep ((y :: z :: l) ++ [x]))
      with (y ++ sep ++ join sep ((z :: l) ++ [x])).
    rewrite IH by discriminate.
    change (join sep (y :: z :: l)) with (y ++ sep ++ join sep (z :: l)).
    rewrite <- !app_assoc. reflexivity.
Qed.

End StrFacts.

(** ** The encoding of a record and the layout of the file *)

Module DBHandlerFacts.

Import Str StrFacts DBHandler.

Lemma newLine_nonempty : newLine <> [].
Proof. discriminate. Qed.

Lemma token_nonempty : newLine_encoded <> [].
Proof. discriminate. Qed.

Lemma starts_newLine_inv (c : ascii) (s : Str.t) :
  starts_with newLine (c :: s) = true -> c = CR /\ exists s', s = LF :: s'.
Proof.
  intros H. destruct (starts_with_inv _ _ H) as [r Hr].
  injection Hr as -> ->. split; [reflexivity | eauto].
Qed.

(** A text is read the way the encoder scans it: a CR LF pair, or one
    character that starts no pair. *)
Lemma crlf_ind (Q : Str.t -> Prop) :
  Q [] ->
  (forall s, Q s -> Q (CR :: LF :: s)) ->
  (forall c s, starts_with newLine (c :: s) = false -> Q s -> Q (c :: s)) ->
  forall s, Q s.
Proof.
  intros Hnil Hpair Hone s.
  assert (H : forall n s, length s <= n -> Q s).
  { induction n as [|n IH]; intros s0 Hlen.
    - destruct s0; [exact Hnil | simpl in Hlen; lia].
    - destruct s0 as [|c s0]; [exact Hnil|].
      destruct (starts_with newLine (c :: s0)) eqn:E.
      + destruct (starts_newLine_inv _ _ E) as [-> [s' ->]].
        apply Hpair. apply IH. simpl in Hlen. lia.
      + apply Hone; [exact E|]. apply IH. simpl in Hlen. lia. }
  apply (H (length s)). lia.
Qed.

Lemma encode_pair (s : Str.t) :
  encode_str (CR :: LF :: s) = newLine_encoded ++ encode_str s.
Proof.
  unfold encode_str. apply (replaceAll_match newLine newLine_encoded s newLine_nonempty).
Qed.

Lemma encode_one (c : ascii) (s : Str.t) :
  starts_with newLine (c :: s) = false -> encode_str (c :: s) = c :: encode_str s.
Proof.
  intros H. unfold encode_str. apply replaceAll_step; [exact newLine_nonempty | exact H].
Qed.

Lemma encode_nil : encode_str [] = [].
Proof. reflexivity. Qed.

(** A word without the character the token opens with is found at the
    head of an encoded text only if it stands at the head of the text. *)
Lemma encode_head_reflect (w : Str.t) :
  Forall (fun ch => ch <> "<"%char) w ->
  forall s, starts_with w (encode_str s) = true -> starts_with w s = true.
Proof.
  induction 1 as [|a w Ha Hw IH]; intros s; [reflexivity|].
  destruct s as [|c s]; [rewrite encode_nil; exact (fun H => H)|].
  destruct (starts_with newLine (c :: s)) eqn:E.
  - destruct (starts_newLine_inv _ _ E) as [-> [s' ->]].
    rewrite encode_pair. cbn [newLine_encoded lit list_ascii_of_string app].
    rewrite starts_with_cons. intros H. apply andb_true_iff in H.
    destruct H as [H _]. apply Ascii.eqb_eq in H. congruence.
  - rewrite (encode_one _ _ E). rewrite !starts_with_cons.
    intros H. apply andb_true_iff in H. destruct H as [H1 H2].
    rewrite H1. apply IH. exact H2.
Qed.

Lemma includes_newLine_skip (c : ascii) (s : Str.t) :
  c <> CR -> includes newLine (c :: s) = includes newLine s.
Proof.
  intros Hc. rewrite includes_cons.
  unfold newLine at 1. rewrite starts_with_cons.
  destruct (Ascii.eqb CR c) eqn:E; [apply Ascii.eqb_eq in E; congruence|].
  reflexivity.
Qed.

(** An encoded text holds no CR LF pair. *)
Lemma encode_no_newLine (s : Str.t) : includes newLine (encode_str s) = false.
Proof.
  induction s as [| s IH | c s E IH] using crlf_ind.
  - reflexivity.
  - rewrite encode_pair.
    cbn [newLine_encoded lit list_ascii_of_string app].
    repeat (rewrite includes_newLine_skip by discriminate). exact IH.
  - rewrite (encode_one _ _ E). rewrite includes_cons, IH, orb_false_r.
    destruct (starts_with newLine (c :: encode_str s)) eqn:F; [|reflexivity].
    destruct (starts_with_inv _ _ F) as [r Hr]. injection Hr as -> Hr.
    assert (G : starts_with [LF] (encode_str s) = true).
    { rewrite Hr. reflexivity. }
    apply encode_head_reflect in G; [|repeat constructor; discriminate].
    destruct (starts_with_inv _ _ G) as [r' ->].
    discriminate E.
Qed.

(** Decoding undoes encoding on a text that does not hold the token. *)
Lemma decode_encode (s : Str.t) :
  includes newLine_encoded s = false -> decode_str (encode_str s) = s.
Proof.
  intros H. unfold decode_str.
  rewrite (replaceAll_absent SEP [] (encode_str s) newLine_nonempty (encode_no_newLine s)).
  revert H. induction s as [| s IH | c s E IH] using crlf_ind; intros H.
  - reflexivity.
  - rewrite encode_pair, (replaceAll_match _ _ _ token_nonempty).
    rewrite IH; [reflexivity|].
    apply includes_tail with LF. apply includes_tail with CR. exact H.
  - rewrite (encode_one _ _ E).
    rewrite replaceAll_step.
    + rewrite IH; [reflexivity|]. apply includes_tail with c. exact H.
    + exact token_nonempty.
    + destruct (starts_with newLine_encoded (c :: encode_str s)) eqn:F; [|reflexivity].
      exfalso.
      cbn [newLine_encoded lit list_ascii_of_string] in F.
      rewrite starts_with_cons in F. apply andb_true_iff in F. destruct F as [F1 F2].
      apply encode_head_reflect in F2; [|repeat constructor; discriminate].
      apply includes_head in H.
      cbn [newLine_encoded lit list_ascii_of_string] in H.
      rewrite starts_with_cons, F1, F2 in H. discriminate H.
Qed.

(** *** Appending to the file *)

Lemma write_at_tail (a b data : Str.t) :
  length b <= length data ->
  write_at (a ++ b) (length (a ++ b) - length b) data = a ++ data.
Proof.
  intros Hlen. unfold write_at.
  replace (length (a ++ b) - length b) with (length a)
    by (rewrite length_app; lia).
  rewrite firstn_app, firstn_all, Nat.sub_diag, firstn_0, app_nil_r.
  rewrite skipn_all2; [rewrite app_nil_r; reflexivity|]. rewrite length_app. lia.
Qed.

Lemma prepare_empty (t : Str.t) :
  prepare_data_and_truncate 0 t = (lit "[" ++ SEP ++ encode_str t ++ SEP ++ lit "]", 0).
Proof. reflexivity. Qed.

Lemma prepare_brackets (t : Str.t) :
  prepare_data_and_truncate 2 t = (SEP ++ encode_str t ++ SEP ++ lit "]", 1).
Proof. reflexivity. Qed.

Lemma prepare_holds_records (size : nat) (t : Str.t) :
  4 < size ->
  prepare_data_and_truncate size t
  = (lit "," ++ SEP ++ encode_str t ++ SEP ++ lit "]", 3).
Proof.
  intros H. unfold prepare_data_and_truncate.
  destruct (Nat.eqb_spec size 0); [lia|].
  destruct (Nat.eqb_spec size 2); [lia|].
  destruct (Nat.leb_spec size (2 + length SEP)); [simpl in *; lia|].
  reflexivity.
Qed.

Lemma layout_length (rs : list Str.t) : 4 < length (layout rs).
Proof.
  unfold layout. rewrite !length_app. simpl. lia.
Qed.

Lemma layout_split (rs : list Str.t) :
  layout rs = (lit "[" ++ SEP ++ join (lit "," ++ SEP) rs) ++ (SEP ++ lit "]").
Proof. unfold layout. rewrite <- !app_assoc. reflexivity. Qed.

Lemma save_file_empty (t : Str.t) : save_file [] t = layout [encode_str t].
Proof. unfold save_file, write_at. simpl. rewrite app_nil_r. reflexivity. Qed.

Lemma save_file_brackets (t : Str.t) :
  save_file (lit "[]") t = layout [encode_str t].
Proof.
  unfold save_file. cbn [lit list_ascii_of_string length].
  rewrite prepare_brackets. unfold write_at. cbn [length Nat.sub firstn].
  rewrite skipn_all2; [rewrite app_nil_r; reflexivity|].
  rewrite !length_app. simpl. lia.
Qed.

Lemma save_file_layout (rs : list Str.t) (t : Str.t) :
  rs <> [] -> save_file (layout rs) t = layout (rs ++ [encode_str t]).
Proof.
  intros Hrs. unfold save_file.
  rewrite (prepare_holds_records _ t (layout_length rs)).
  rewrite layout_split at 1 2.
  change 3 with (length (SEP ++ lit "]")).
  rewrite write_at_tail by (rewrite !length_app; simpl; lia).
  unfold layout. rewrite (join_snoc _ rs _ Hrs).
  rewrite <- !app_assoc. reflexivity.
Qed.

Lemma save_all_layout (rs ts : list Str.t) :
  rs <> [] -> save_all (layout rs) ts = layout (rs ++ map encode_str ts).
Proof.
  revert rs. induction ts as [|t ts IH]; intros rs Hrs.
  - simpl. rewrite app_nil_r. reflexivity.
  - unfold save_all. cbn [fold_left map]. rewrite (save_file_layout rs t Hrs).
    fold (save_all (layout (rs ++ [encode_str t])) ts).
    rewrite IH by (destruct rs; discriminate).
    rewrite <- app_assoc. reflexivity.
Qed.

Lemma save_file_bracket_line (t : Str.t) :
  save_file (lit "[" ++ SEP ++ lit "]") t = layout [encode_str t].
Proof.
  unfold save_file, write_at. cbn -[encode_str].
  rewrite skipn_all2; [rewrite app_nil_r; reflexivity|].
  rewrite !length_app. simpl. lia.
Qed.

Lemma layout_tail (rs : list Str.t) :
  layout rs
  = firstn (length (layout rs) - length (SEP ++ lit "]")) (layout rs) ++ SEP ++ lit "]".
Proof.
  rewrite layout_split at 3. rewrite layout_split at 1 2.
  rewrite length_app, Nat.add_sub, firstn_app, firstn_all, Nat.sub_diag.
  rewrite firstn_0, app_nil_r. reflexivity.
Qed.

(** What [#prepare_doc_arr_to_str] gives: nothing, or the layout of the
    encoded texts. *)
Lemma prepare_kept (strArray : list Str.t) :
  prepare_doc_arr_to_str strArray = []
  \/ prepare_doc_arr_to_str strArray = layout (map encode_str strArray)
     /\ strArray <> [].
Proof.
  unfold prepare_doc_arr_to_str, layout, encode_str.
  destruct (join _ _) as [|c j] eqn:E; [left; reflexivity|].
  right. split; [reflexivity|]. intros ->. discriminate E.
Qed.

Lemma save_after_prepare (strArray : list Str.t) (t : Str.t) :
  save_file (prepare_doc_arr_to_str strArray) t = layout [encode_str t]
  \/ save_file (prepare_doc_arr_to_str strArray) t
     = layout (map encode_str strArray ++ [encode_str t]).
Proof.
  destruct (prepare_kept strArray) as [H|[H Hne]]; rewrite H.
  - left. apply save_file_empty.
  - right. apply save_file_layout. destruct strArray; [congruence | discriminate].
Qed.

(** C2.  Saving keeps the file in the documented layout.  The text
    written for a record is its encoding, which is the record itself when
    it holds no CR LF pair.  Saving to an empty file, to a file that
    holds the two brackets only, or to one that holds the brackets
    around a separator, gives the layout of the one record; saving to a
    file that holds records cuts off exactly the trailing separator and
    bracket (three characters) and appends a comma, the separator, the
    record, the separator and the bracket, which is the layout of the
    longer sequence; hence any run of saves that starts from an empty
    file, or from a file in the layout, ends in the layout of all the
    records in the order they were saved.  The other writes, [overwrite],
    [delete_by_match] and [erase_db], leave an empty file or a file in
    the layout. *)
Theorem save_keeps_layout (rs : list Str.t) (t : Str.t) (ts : list Str.t) :
  rs <> [] ->
  save_file [] t = lit "[" ++ SEP ++ encode_str t ++ SEP ++ lit "]"
  /\ save_file (lit "[]") t = lit "[" ++ SEP ++ encode_str t ++ SEP ++ lit "]"
  /\ save_file (lit "[" ++ SEP ++ lit "]") t
     = lit "[" ++ SEP ++ encode_str t ++ SEP ++ lit "]"
  /\ snd (prepare_data_and_truncate (length (layout rs)) t) = length (SEP ++ lit "]")
  /\ save_file (layout rs) t
     = firstn (length (layout rs) - length (SEP ++ lit "]")) (layout rs)
       ++ lit "," ++ SEP ++ encode_str t ++ SEP ++ lit "]"
  /\ layout rs
     = firstn (length (layout rs) - length (SEP ++ lit "]")) (layout rs)
       ++ SEP ++ lit "]"
  /\ save_file (layout rs) t = layout (rs ++ [encode_str t])
  /\ save_all [] (t :: ts) = layout (map encode_str (t :: ts))
  /\ save_all (layout rs) ts = layout (rs ++ map encode_str ts)
  /\ SEP = [CR; LF]
  /\ (includes newLine t = false -> encode_str t = t)
  /\ (overwrite_file ts = [] \/ overwrite_file ts = layout (map encode_str ts))
  /\ (forall pattern chunks,
        delete_by_match_file pattern chunks = []
        \/ exists kept, delete_by_match_file pattern chunks = layout kept)
  /\ erase_file = [].
Proof.
  intros Hrs.
  assert (Hsave : save_file (layout rs) t = layout (rs ++ [encode_str t]))
    by (apply save_file_layout; exact Hrs).
  repeat split.
  - apply save_file_empty.
  - apply save_file_brackets.
  - apply save_file_bracket_line.
  - rewrite (prepare_holds_records _ t (layout_length rs)). reflexivity.
  - unfold save_file.
    rewrite (prepare_holds_records _ t (layout_length rs)).
    unfold write_at. change 3 with (length (SEP ++ lit "]")).
    rewrite skipn_all2; [rewrite app_nil_r; reflexivity|].
    rewrite !length_app. simpl. lia.
  - apply layout_tail.
  - exact Hsave.
  - unfold save_all. cbn [fold_left]. rewrite save_file_empty.
    apply (save_all_layout [encode_str t] ts). discriminate.
  - apply save_all_layout. exact Hrs.
  - intros H. apply replaceAll_absent; [exact newLine_nonempty | exact H].
  - unfold overwrite_file, write_fresh.
    destruct (prepare_kept ts) as [H|[H _]]; [left | right]; exact H.
  - intros pattern chunks. unfold delete_by_match_file, write_fresh.
    destruct (prepare_kept
                (kept_lines (replaceAll newLine newLine_encoded pattern) chunks))
      as [H|[H _]]; [left; exact H | right; eexists; exact H].
Qed.

Lemma save_keeps_layout_witness :
  save_file (layout [lit "{}"]) (lit "{}") = layout ([lit "{}"] ++ [encode_str (lit "{}")]).
Proof.
  assert (H : [lit "{}"] <> []) by discriminate.
  exact (proj1 (proj2 (proj2 (proj2 (proj2 (proj2 (proj2
           (save_keeps_layout [lit "{}"] (lit "{}") [] H)))))))).
Defined.

(** C5, as stated, fails on a record that holds the token itself: it
    comes back as a CR LF pair. *)
Lemma token_not_restored :
  ~ (forall t : Str.t, decode_str (encode_str t) = t).
Proof.
  intros H. specialize (H newLine_encoded). vm_compute in H. discriminate H.
Qed.

(** C5, amended.  For every record text that does not hold the token
    [<|NEW-LINE|>], encoding it for storage and decoding what was stored
    gives the text back, CR LF pairs inside it included; and the encoded
    text holds no CR LF pair. *)
Theorem decode_encode_roundtrip (t : Str.t) :
  includes newLine_encoded t = false ->
  decode_str (encode_str t) = t /\ includes newLine (encode_str t) = false.
Proof.
  intros H. split; [apply decode_encode; exact H | apply encode_no_newLine].
Qed.

Lemma decode_encode_roundtrip_witness :
  decode_str (encode_str (lit "a" ++ newLine ++ lit "b")) = lit "a" ++ newLine ++ lit "b"
  /\ includes newLine (encode_str (lit "a" ++ newLine ++ lit "b")) = false.
Proof.
  apply (decode_encode_roundtrip (lit "a" ++ newLine ++ lit "b")). reflexivity.
Defined.

End DBHandlerFacts.

(** ** Objects *)

Module JsFacts.

Import Str StrFacts Js Obj.

Lemma lookup_cons (k k' : Str.t) (v : value) (fs : list (Str.t * value)) :
  lookup k ((k', v) :: fs) = if Str.eqb k' k then Some v else lookup k fs.
Proof.
  unfold lookup. simpl. destruct (Str.eqb k' k); reflexivity.
Qed.

Lemma lookup_nil (k : Str.t) : lookup k [] = None.
Proof. reflexivity. Qed.

Lemma lookup_assign_eq (k : Str.t) (v : value) (fs : list (Str.t * value)) :
  lookup k (assign k v fs) = Some v.
Proof.
  induction fs as [|[k' v'] fs IH]; simpl.
  - rewrite lookup_cons, eqb_refl. reflexivity.
  - destruct (Str.eqb k' k) eqn:E.
    + rewrite lookup_cons, eqb_refl. reflexivity.
    + rewrite lookup_cons, E. exact IH.
Qed.

Lemma lookup_assign_ne (k k' : Str.t) (v : value) (fs : list (Str.t * value)) :
  k <> k' -> lookup k' (assign k v fs) = lookup k' fs.
Proof.
  intros Hne. induction fs as [|[k0 v0] fs IH]; simpl.
  - rewrite lookup_cons. apply eqb_neq in Hne. rewrite Hne. reflexivity.
  - destruct (Str.eqb k0 k) eqn:E.
    + apply eqb_eq in E. subst k0. rewrite !lookup_cons.
      apply eqb_neq in Hne. rewrite Hne. reflexivity.
    + rewrite !lookup_cons. destruct (Str.eqb k0 k'); [reflexivity | exact IH].
Qed.

Lemma keys_assign_new (k : Str.t) (v : value) (fs : list (Str.t * value)) :
  ~ In k (keys fs) -> keys (assign k v fs) = keys fs ++ [k].
Proof.
  induction fs as [|[k' v'] fs IH]; simpl; intros H; [reflexivity|].
  destruct (Str.eqb k' k) eqn:E.
  - apply eqb_eq in E. tauto.
  - simpl. rewrite IH by tauto. reflexivity.
Qed.

Lemma lookup_none (k : Str.t) (fs : list (Str.t * value)) :
  ~ In k (keys fs) -> lookup k fs = None.
Proof.
  induction fs as [|[k' v'] fs IH]; simpl; intros H; [reflexivity|].
  rewrite lookup_cons. destruct (Str.eqb k' k) eqn:E.
  - apply eqb_eq in E. tauto.
  - apply IH. tauto.
Qed.

Lemma lookup_in (k : Str.t) (v : value) (fs : list (Str.t * value)) :
  NoDup (keys fs) -> In (k, v) fs -> lookup k fs = Some v.
Proof.
  induction fs as [|[k' v'] fs IH]; simpl; intros Hnd Hin; [contradiction|].
  inversion Hnd as [|? ? Hk Hnd']; subst.
  rewrite lookup_cons. destruct Hin as [Heq|Hin].
  - injection Heq as -> ->. rewrite eqb_refl. reflexivity.
  - destruct (Str.eqb k' k) eqn:E.
    + apply eqb_eq in E. subst k'. exfalso. apply Hk.
      change k with (fst (k, v)). apply in_map. exact Hin.
    + apply IH; assumption.
Qed.

Lemma lookup_in_keys (k : Str.t) (v : value) (fs : list (Str.t * value)) :
  lookup k fs = Some v -> In k (keys fs).
Proof.
  induction fs as [|[k' v'] fs IH]; [discriminate|].
  rewrite lookup_cons. destruct (Str.eqb k' k) eqn:E.
  - intros _. apply eqb_eq in E. left. exact E.
  - intros H. right. exact (IH H).
Qed.

Lemma lookup_app_l (k : Str.t) (v : value) (fs gs : list (Str.t * value)) :
  lookup k fs = Some v -> lookup k (fs ++ gs) = Some v.
Proof.
  induction fs as [|[k' v'] fs IH]; simpl; [discriminate|].
  rewrite !lookup_cons. destruct (Str.eqb k' k); [exact (fun H => H) | exact IH].
Qed.

(** A property listed among the enumerable ones is the one a read finds. *)
Lemma prop_get_entry (P : Platform) (x : value) (k : Str.t) (v : value) :
  NoDup (keys (own_entries x)) -> In (k, v) (own_entries x) -> prop_get P x k = Ok v.
Proof.
  intros Hnd Hin. pose proof (lookup_in k v _ Hnd Hin) as Hl.
  destruct x; simpl in Hin; try contradiction;
    unfold prop_get, find_prop, own_props;
    try (rewrite (lookup_app_l _ _ _ _ Hl); reflexivity).
  rewrite Hl. reflexivity.
Qed.

(** A property of an object's own is what a read, [in] and
    [Object.hasOwn] find. *)
Lemma prop_get_own (P : Platform) (fs : list (Str.t * value)) (k : Str.t) (v : value) :
  lookup k fs = Some v -> prop_get P (VObject fs) k = Ok v.
Proof.
  intros H. unfold prop_get, find_prop, own_props. simpl. rewrite H. reflexivity.
Qed.

Lemma prop_in_own (P : Platform) (fs : list (Str.t * value)) (k : Str.t) (v : value) :
  lookup k fs = Some v -> prop_in P k (VObject fs) = Ok true.
Proof.
  intros H. unfold prop_in, find_prop, own_props. simpl. rewrite H. reflexivity.
Qed.

Lemma hasOwn_object (P : Platform) (fs : list (Str.t * value)) (k : Str.t) :
  hasOwn P (VObject fs) k
  = Ok (match lookup k fs with Some _ => true | None => false end).
Proof. reflexivity. Qed.

(** An assignment under the name [__proto__] adds no property to an
    object that has none of that name; under another name it is the
    definition of a property. *)
Lemma set_prop_proto (v : value) (fs : list (Str.t * value)) :
  ~ In proto_key (keys fs) -> set_prop proto_key v fs = fs.
Proof.
  intros H. unfold set_prop. rewrite eqb_refl, (lookup_none _ _ H). reflexivity.
Qed.

Lemma set_prop_other (k : Str.t) (v : value) (fs : list (Str.t * value)) :
  k <> proto_key -> set_prop k v fs = assign k v fs.
Proof.
  intros H. unfold set_prop. apply eqb_neq in H. rewrite H. reflexivity.
Qed.

Lemma bind_ok {A B} (r : result A) (k : A -> result B) (b : B) :
  bind r k = Ok b -> exists a, r = Ok a /\ k a = Ok b.
Proof.
  destruct r as [a|e]; simpl; [eauto | discriminate].
Qed.

Lemma bind_throw {A B} (r : result A) (k : A -> result B) (e : error) :
  r = Throw e -> bind r k = Throw e.
Proof. intros ->. reflexivity. Qed.

Lemma result_cases {A} (r : result A) : (exists a, r = Ok a) \/ (exists e, r = Throw e).
Proof. destruct r; eauto. Qed.

End JsFacts.

(** ** Objects held by reference *)

Module StoreFacts.

Import Store.

Lemma put_length {A} (l : list A) (i : nat) (x : A) : length (put l i x) = length l.
Proof.
  revert i. induction l as [|y l IH]; intros [|i]; simpl; try reflexivity.
  rewrite IH. reflexivity.
Qed.

Lemma nth_put_same {A} (l : list A) (i : nat) (x d : A) :
  i < length l -> nth i (put l i x) d = x.
Proof.
  revert i. induction l as [|y l IH]; intros [|i] H; simpl in *; try lia; try reflexivity.
  apply IH. lia.
Qed.

Lemma nth_put_other {A} (l : list A) (i j : nat) (x d : A) :
  i <> j -> nth j (put l i x) d = nth j l d.
Proof.
  revert i j. induction l as [|y l IH]; intros [|i] [|j] H; simpl; try reflexivity;
    try congruence.
  apply IH. congruence.
Qed.

Lemma nth_error_put_same {A} (l : list A) (i : nat) (x : A) :
  i < length l -> nth_error (put l i x) i = Some x.
Proof.
  revert i. induction l as [|y l IH]; intros [|i] H; simpl in *; try lia; try reflexivity.
  apply IH. lia.
Qed.

Lemma nth_error_put_other {A} (l : list A) (i j : nat) (x : A) :
  i <> j -> nth_error (put l i x) j = nth_error l j.
Proof.
  revert i j. induction l as [|y l IH]; intros [|i] [|j] H; simpl; try reflexivity;
    try congruence.
  apply IH. congruence.
Qed.

Lemma in_put {A} (l : list A) (i : nat) (x y : A) :
  In y (put l i x) -> y = x \/ In y l.
Proof.
  revert i. induction l as [|z l IH]; intros [|i]; simpl; try tauto.
  - intros [H|H]; auto.
  - intros [H|H]; auto. destruct (IH _ H); auto.
Qed.

Lemma map_put {A B} (f : A -> B) (l : list A) (i : nat) (x : A) :
  map f (put l i x) = put (map f l) i (f x).
Proof.
  revert i. induction l as [|z l IH]; intros [|i]; simpl; try reflexivity.
  rewrite IH. reflexivity.
Qed.

Lemma NoDup_put_fresh {A} (l : list A) (i : nat) (x : A) :
  NoDup l -> ~ In x l -> NoDup (put l i x).
Proof.
  revert i. induction l as [|z l IH]; intros [|i] Hnd Hx; simpl; try constructor.
  - inversion Hnd; subst. intros H. apply Hx. right. exact H.
  - inversion Hnd; assumption.
  - inversion Hnd; subst. intros H. apply in_put in H. destruct H as [->|H].
    + apply Hx. left. reflexivity.
    + contradiction.
  - inversion Hnd; subst. apply IH; [assumption|]. intros H. apply Hx. right. exact H.
Qed.


End StoreFacts.

(** ** Validation of a content against a schema *)

Module DocumentFacts.

Import Str StrFacts Js Obj Store JsFacts StoreFacts Document.

Section Validation.

Context (P : Platform).

(** The body of the loop gives a value in the two accepted situations,
    and in these only. *)
Lemma setup_param_accepts (schemaDef content : value) (p : Str.t) (spec out : value) :
  prop_get P schemaDef p = Ok spec ->
  setup_param P schemaDef p content = Ok out <-> accepts P content p spec out.
Proof.
  intros Hspec. unfold setup_param, accepts. split.
  - intros Hrun. apply bind_ok in Hrun. destruct Hrun as [present [Hin Hrun]].
    rewrite Hspec in Hrun. cbn [bind] in Hrun.
    destruct present; cbn [negb] in Hrun.
    + apply bind_ok in Hrun. destruct Hrun as [declared [Hd Hrun]].
      apply bind_ok in Hrun. destruct Hrun as [v [Hv Hrun]].
      apply bind_ok in Hrun. destruct Hrun as [typ [Ht Hrun]].
      destruct (strict_equal declared typ) eqn:Hm; [|discriminate].
      injection Hrun as <-.
      right. split; [exact Hin|]. exists declared, typ. tauto.
    + apply bind_ok in Hrun. destruct Hrun as [required [Hr Hrun]].
      destruct (truthy required) eqn:Hreq; [discriminate|].
      left. split; [exact Hin|]. exists required. tauto.
  - intros [[Hin [required [Hr [Hreq Hd]]]]
           | [Hin [declared [typ [Hd [Hv [Ht Hm]]]]]]].
    + rewrite Hin, Hspec. cbn [bind negb]. rewrite Hr. cbn [bind]. rewrite Hreq.
      exact Hd.
    + rewrite Hin, Hspec. cbn [bind negb]. rewrite Hd, Hv. cbn [bind].
      rewrite Ht. cbn [bind]. rewrite Hm. reflexivity.
Qed.

Lemma setup_loop_sound (schemaDef content : value) (params : list Str.t) :
  forall acc res,
    NoDup (keys acc ++ params) -> ~ In proto_key (keys acc) ->
    setup_loop P schemaDef params content acc = Ok res ->
    keys res = keys acc ++ filter (fun k => negb (Str.eqb k proto_key)) params
    /\ (forall k, ~ In k params -> lookup k res = lookup k acc)
    /\ (forall p, In p params ->
          exists out,
            setup_param P schemaDef p content = Ok out
            /\ (p <> proto_key -> lookup p res = Some out)).
Proof.
  induction params as [|param rest IH]; intros acc res Hnd Hproto Hrun.
  - simpl in Hrun. injection Hrun as <-. simpl. rewrite app_nil_r.
    split; [reflexivity|]. split; [reflexivity | intros p []].
  - cbn [setup_loop] in Hrun.
    apply bind_ok in Hrun. destruct Hrun as [out [Hout Hrun]].
    assert (Hfresh : ~ In param (keys acc)).
    { intros Hk. apply NoDup_remove_2 in Hnd. apply Hnd.
      apply in_or_app. left. exact Hk. }
    assert (Hrest : ~ In param rest).
    { intros Hk. apply NoDup_remove_2 in Hnd. apply Hnd.
      apply in_or_app. right. exact Hk. }
    cbn [filter]. destruct (Str.eqb param proto_key) eqn:E; cbn [negb].
    + apply eqb_eq in E. subst param.
      rewrite (set_prop_proto _ _ Hproto) in Hrun.
      destruct (IH _ _ (NoDup_remove_1 _ _ _ Hnd) Hproto Hrun)
        as [Hkeys [Hother Hfields]].
      split; [exact Hkeys|]. split.
      * intros k Hk. apply Hother. intros Hk'. apply Hk. right. exact Hk'.
      * intros p [<-|Hp].
        -- exists out. split; [exact Hout | intros Hne; congruence].
        -- apply Hfields. exact Hp.
    + apply eqb_neq in E. rewrite (set_prop_other _ _ _ E) in Hrun.
      assert (Hnd' : NoDup (keys (assign param out acc) ++ rest)).
      { rewrite keys_assign_new by exact Hfresh.
        rewrite <- app_assoc. exact Hnd. }
      assert (Hproto' : ~ In proto_key (keys (assign param out acc))).
      { rewrite keys_assign_new by exact Hfresh. intros Hk.
        apply in_app_or in Hk. destruct Hk as [Hk|[Hk|[]]]; [tauto | congruence]. }
      destruct (IH _ _ Hnd' Hproto' Hrun) as [Hkeys [Hother Hfields]].
      split; [|split].
      * rewrite Hkeys, keys_assign_new by exact Hfresh.
        rewrite <- app_assoc. reflexivity.
      * intros k Hk. rewrite Hother by (intros Hk'; apply Hk; right; exact Hk').
        apply lookup_assign_ne. intros ->. apply Hk. left. reflexivity.
      * intros p [<-|Hp].
        -- exists out. split; [exact Hout|]. intros _.
           rewrite (Hother _ Hrest). apply lookup_assign_eq.
        -- apply Hfields. exact Hp.
Qed.



Lemma setup_content_ok (schema : Schema.t) (schemaDef content res : value) :
  Schema.definition schema = Ok schemaDef ->
  NoDup (keys (own_entries schemaDef)) ->
  setup_content P schema content = Ok res ->
  exists fields,
    res = VObject fields
    /\ keys fields
       = filter (fun k => negb (Str.eqb k proto_key)) (keys (own_entries schemaDef))
    /\ forall p spec, In (p, spec) (own_entries schemaDef) ->
         exists out, accepts P content p spec out
                     /\ (p <> proto_key -> lookup p fields = Some out).
Proof.
  intros Hdef Hnd Hrun. unfold setup_content in Hrun. rewrite Hdef in Hrun.
  cbn [bind] in Hrun. apply bind_ok in Hrun. destruct Hrun as [fields [Hloop Hres]].
  injection Hres as <-. exists fields. split; [reflexivity|].
  destruct (setup_loop_sound schemaDef content _ [] fields Hnd (fun H => H) Hloop)
    as [Hkeys [_ Hfields]].
  split; [exact Hkeys|].
  intros p spec Hin.
  assert (Hp : In p (keys (own_entries schemaDef))).
  { change p with (fst (p, spec)). apply in_map. exact Hin. }
  destruct (Hfields p Hp) as [out [Hout Hl]].
  exists out. split; [|exact Hl].
  apply (setup_param_accepts schemaDef); [|exact Hout].
  apply prop_get_entry; assumption.
Qed.







End Validation.



(** C4.  [edit] is all or nothing: when the new content validates, the
    content of the record is the validated content and [updatedAt] is the
    instant of the call, the id, [createdAt], schema and persisted flag
    staying as they were; when validation throws, [edit] throws the same
    error and the record is the one it was, content, [createdAt] and
    [updatedAt] included. *)
Theorem edit_all_or_nothing (P : Platform) (d : Document.t) (newContent : value) (now : Z) :
  (forall c, setup_content P (_schema d) newContent = Ok c ->
     edit P d newContent now
     = ({| _content := c; _createTime := _createTime d; _updateTime := Some now;
           _id := _id d; _schema := _schema d; saved := saved d |}, Ok tt))
  /\ (forall e, setup_content P (_schema d) newContent = Throw e ->
        edit P d newContent now = (d, Throw e)
        /\ _content (fst (edit P d newContent now)) = _content d
        /\ _createTime (fst (edit P d newContent now)) = _createTime d
        /\ _updateTime (fst (edit P d newContent now)) = _updateTime d).
Proof.
  split.
  - intros c H. unfold edit. rewrite H. reflexivity.
  - intros e H. unfold edit. rewrite H. repeat split.
Qed.

Lemma edit_all_or_nothing_witness :
  edit Reference.platform Reference.story_doc (VObject [(Reference.k_title, VNum 1)]) 2000
  = (Reference.story_doc, Throw (WrongType Reference.k_title))
  /\ _updateTime
       (fst (edit Reference.platform Reference.story_doc (VObject [(Reference.k_title, VStr (lit "B"))]) 2000))
     = Some 2000%Z.
Proof.
  split.
  - apply (proj2 (edit_all_or_nothing Reference.platform Reference.story_doc
                    (VObject [(Reference.k_title, VNum 1)]) 2000)).
    reflexivity.
  - rewrite (proj1 (edit_all_or_nothing Reference.platform Reference.story_doc
                      (VObject [(Reference.k_title, VStr (lit "B"))]) 2000)
               (VObject [(Reference.k_title, VStr (lit "B"))]) eq_refl).
    reflexivity.
Defined.

(** *** The id of a new document *)

Section Constructor.

Context (P : Platform).

Lemma init_doc_id (d d' : Document.t) (content v : value) :
  init_doc P d content = Ok d' ->
  prop_in P idMark content = Ok true -> prop_get P content idMark = Ok v ->
  _id d' = v.
Proof.
  intros Hrun Hin Hget. unfold init_doc in Hrun.
  apply bind_ok in Hrun. destruct Hrun as [newContent [_ Hrun]].
  rewrite Hin, Hget in Hrun. cbn [bind] in Hrun.
  apply bind_ok in Hrun. destruct Hrun as [hasC [_ Hrun]].
  apply bind_ok in Hrun. destruct Hrun as [vC [_ Hrun]].
  apply bind_ok in Hrun. destruct Hrun as [hasU [_ Hrun]].
  apply bind_ok in Hrun. destruct Hrun as [vU [_ Hrun]].
  injection Hrun as <-.
  change (truthy (VStr (typeof (VBool (Schema.is_string v (typeof (_id (set_content d newContent))))))))
    with true.
  cbn [andb].
  destruct (Date_value P vC) as [tc|]; destruct hasC;
    destruct (Date_value P vU) as [tu|]; destruct hasU;
    cbn; try reflexivity;
    destruct (_updateTime d); destruct (_createTime d); reflexivity.
Qed.

Lemma set_options_id (d d' : Document.t) (now : Z) :
  Document.set_options P d now = Ok d' -> _id d' = _id d.
Proof.
  unfold Document.set_options. intros Hrun.
  apply bind_ok in Hrun. destruct Hrun as [options [_ Hrun]].
  apply bind_ok in Hrun. destruct Hrun as [timestamps [_ Hrun]].
  destruct timestamps as [| |[|]| | | | | | | | |]; destruct (_createTime d);
    injection Hrun as <-; reflexivity.
Qed.

(** C10, amended.  When the constructor returns for a content that has
    an [_id] property whose value is not the empty string, the id of the
    record is that value, whatever its type: the type test guarding the
    adoption compares a boolean's type name and always passes, and no
    new id is made. *)
Theorem new_adopts_id (content : value) (schema : Schema.t) (idSeed : value)
  (now : Z) (random : Str.t) (d : Document.t) (v : value) :
  Document.new P content schema idSeed now random = Ok d ->
  prop_in P idMark content = Ok true ->
  prop_get P content idMark = Ok v ->
  v <> VStr [] ->
  _id d = v.
Proof.
  intros Hrun Hin Hget Hne. unfold Document.new in Hrun.
  destruct (negb (truthy content) || negb (Str.eqb (typeof content) (lit "object")));
    [discriminate|].
  apply bind_ok in Hrun. destruct Hrun as [valid [_ Hrun]].
  destruct (negb valid); [discriminate|].
  destruct (negb (Str.eqb (typeof idSeed) (lit "string")
                  || Str.eqb (typeof idSeed) (lit "number"))); [discriminate|].
  apply bind_ok in Hrun. destruct Hrun as [d1 [Hinit Hrun]].
  apply bind_ok in Hrun. destruct Hrun as [d2 [Hopt Hrun]].
  pose proof (init_doc_id _ _ _ _ Hinit Hin Hget) as H1.
  pose proof (set_options_id _ _ _ Hopt) as H2.
  assert (Hid : _id d2 = v) by congruence.
  rewrite Hid in Hrun.
  assert (Hs : Schema.is_string v [] = false).
  { destruct v; try reflexivity. simpl. apply eqb_neq. congruence. }
  rewrite Hs in Hrun. injection Hrun as <-. exact Hid.
Qed.

End Constructor.

(** C10, as stated, fails on a content whose [_id] is the empty string:
    the constructor makes a new id. *)
Lemma empty_id_not_adopted :
  ~ (forall (P : Platform) (content : value) (schema : Schema.t) (idSeed : value)
            (now : Z) (random : Str.t) (d : Document.t) (v : value),
        Document.new P content schema idSeed now random = Ok d ->
        prop_in P idMark content = Ok true ->
        prop_get P content idMark = Ok v ->
        _id d = v).
Proof.
  intros H.
  specialize (H Reference.platform
                (VObject [(Reference.k_title, VStr (lit "A")); (idMark, VStr [])])
                Reference.story_schema (VNum 5) 1000%Z (lit "abcdef012345")
                (set_id Reference.story_doc (VStr (lit "5-1000-abcdef012345")))
                (VStr []) eq_refl eq_refl eq_refl).
  discriminate H.
Qed.

Lemma new_adopts_id_witness :
  _id (set_id Reference.story_doc (VNum 7)) = VNum 7.
Proof.
  apply (new_adopts_id Reference.platform
           (VObject [(Reference.k_title, VStr (lit "A")); (idMark, VNum 7)])
           Reference.story_schema (VNum 5) 1000%Z (lit "abcdef012345")).
  - reflexivity.
  - reflexivity.
  - reflexivity.
  - discriminate.
Defined.

End DocumentFacts.

(** ** The counter of a model *)

Module ModelFacts.

Import Str StrFacts Js JsFacts Model.

Section Counter.

Context (P : Platform).

Lemma new_documents_cons (m : Model.t) (content : value) (now : Z) (random : Str.t)
  (rest : list (value * Z * Str.t)) :
  new_documents P m ((content, now, random) :: rest)
  = (fst (new_documents P (fst (new_document P m content now random)) rest),
     (countDocs m, snd (new_document P m content now random))
       :: snd (new_documents P (fst (new_document P m content now random)) rest)).
Proof.
  cbn [new_documents]. destruct (new_document P m content now random) as [m' r].
  cbn [fst snd]. destruct (new_documents P m' rest) as [m'' rs]. reflexivity.
Qed.

Lemma new_documents_seeds (calls : list (value * Z * Str.t)) :
  forall m,
    map fst (snd (new_documents P m calls))
    = map (fun i => (countDocs m + Z.of_nat i)%Z) (seq 0 (length calls))
    /\ countDocs (fst (new_documents P m calls))
       = (countDocs m + Z.of_nat (length calls))%Z
    /\ schema (fst (new_documents P m calls)) = schema m.
Proof.
  induction calls as [|[[content now] random] rest IH]; intros m.
  - cbn [new_documents fst snd map length seq]. split; [reflexivity|].
    split; [|reflexivity]. change (Z.of_nat 0) with 0%Z.
    symmetry. apply Z.add_0_r.
  - rewrite new_documents_cons. cbn [fst snd map length seq].
    destruct (IH (fst (new_document P m content now random)))
      as [Hseeds [Hcount Hschema]].
    unfold new_document in Hseeds, Hcount, Hschema. cbn [fst countDocs schema] in *.
    unfold new_document. cbn [fst snd].
    split; [|split].
    + change (Z.of_nat 0) with 0%Z. rewrite Z.add_0_r. apply f_equal.
      rewrite Hseeds, <- seq_shift, map_map.
      apply map_ext. intros i. lia.
    + rewrite Hcount. lia.
    + exact Hschema.
Qed.

(** C7.  A call of [new_document] leaves the counter one above what it
    was, whether the constructor returns a record or throws, and the seed
    the constructor gets is the value the counter had when the call
    started; so in any run of calls on a model (calls run one after the
    other: a call never yields before it returns) the seeds are pairwise
    different, the [i]-th being the initial counter plus [i]. *)
Theorem new_document_counts (m : Model.t) (content : value) (now : Z) (random : Str.t)
  (calls : list (value * Z * Str.t)) :
  countDocs (fst (new_document P m content now random)) = (countDocs m + 1)%Z
  /\ snd (new_document P m content now random)
     = Document.new P content (schema m) (VNum (countDocs m)) now random
  /\ (forall d, snd (new_document P m content now random) = Ok d ->
        countDocs (fst (new_document P m content now random)) = (countDocs m + 1)%Z)
  /\ (forall e, snd (new_document P m content now random) = Throw e ->
        countDocs (fst (new_document P m content now random)) = (countDocs m + 1)%Z)
  /\ NoDup (map fst (snd (new_documents P m calls)))
  /\ map fst (snd (new_documents P m calls))
     = map (fun i => (countDocs m + Z.of_nat i)%Z) (seq 0 (length calls)).
Proof.
  destruct (new_documents_seeds calls m) as [Hseeds _].
  split; [reflexivity|]. split; [reflexivity|].
  split; [intros d _; reflexivity|]. split; [intros e _; reflexivity|].
  split; [|exact Hseeds].
  rewrite Hseeds. apply Injective_map_NoDup; [|apply seq_NoDup].
  intros i j Hij. lia.
Qed.

End Counter.

Lemma new_document_counts_witness :
  countDocs (fst (new_document Reference.platform
                    {| schema := Reference.story_schema; countDocs := 0 |}
                    (VObject []) 1000 (lit "abcdef012345"))) = 1%Z
  /\ snd (new_document Reference.platform
            {| schema := Reference.story_schema; countDocs := 0 |}
            (VObject []) 1000 (lit "abcdef012345"))
     = Throw (MissingRequired Reference.k_title).
Proof.
  split.
  - apply (proj1 (proj2 (proj2 (proj2
      (new_document_counts Reference.platform
         {| schema := Reference.story_schema; countDocs := 0 |}
         (VObject []) 1000 (lit "abcdef012345") [])))) (MissingRequired Reference.k_title)).
    reflexivity.
  - reflexivity.
Defined.

End ModelFacts.

(** ** Connecting a handler *)

Module ConnectFacts.

Import Str StrFacts Js DBHandler.

Section Connect.

Context (P : Platform).

Lemma permission_test_never_fires (mode : Z) :
  negb (Z.land mode Fs.F_OK =? 0)%Z && negb (Z.land mode Fs.W_OK =? 0)%Z
  && negb (Z.land mode Fs.R_OK =? 0)%Z = false.
Proof.
  unfold Fs.F_OK. rewrite Z.land_0_r. reflexivity.
Qed.

(** A path whose extension is not [.json] is refused and the handler is
    left disconnected, the disk untouched. *)
Lemma connect_refuses_other_extensions (h : DBHandler.t) (disk : Fs.t) (p : Str.t) :
  extname P p <> dbFileExt ->
  connect_dbFilePath P h disk (VStr p)
  = ({| dbFilePath := None |}, disk, Rejected InvalidFileType).
Proof.
  intros Hext. unfold connect_dbFilePath, check_db_file.
  apply eqb_neq in Hext. rewrite Hext. rewrite orb_true_r. reflexivity.
Qed.

(** A missing file is created empty, readable and writable, and the
    handler is connected to it. *)
Lemma connect_creates_missing (h : DBHandler.t) (disk : Fs.t) (p : Str.t) :
  p <> [] -> extname P p = dbFileExt -> disk p = Fs.Missing true ->
  connect_dbFilePath P h disk (VStr p)
  = ({| dbFilePath := Some p |},
     Fs.update disk p (Fs.Node true (Z.lor Fs.S_IFREG Fs.mode_rw) []),
     Resolved tt).
Proof.
  intros Hp Hext Hdisk. unfold connect_dbFilePath, check_db_file.
  cbn [truthy]. apply eqb_neq in Hp. rewrite Hp, Hext, eqb_refl, Hdisk. reflexivity.
Qed.

(** What is there but is no regular file, or cannot be reached, is
    refused with its own cause. *)
Lemma connect_refuses_non_files (h : DBHandler.t) (disk : Fs.t) (p : Str.t)
  (mode : Z) (content : Str.t) :
  p <> [] -> extname P p = dbFileExt ->
  (disk p = Fs.Node false mode content ->
   connect_dbFilePath P h disk (VStr p) = ({| dbFilePath := None |}, disk, Rejected NotAFile))
  /\ (disk p = Fs.Blocked ->
      connect_dbFilePath P h disk (VStr p)
      = ({| dbFilePath := None |}, disk, Rejected AccessError))
  /\ (disk p = Fs.Missing false ->
      connect_dbFilePath P h disk (VStr p)
      = ({| dbFilePath := None |}, disk, Rejected CreateFailed)).
Proof.
  intros Hp Hext. apply eqb_neq in Hp.
  repeat split; intros Hdisk; unfold connect_dbFilePath, check_db_file;
    cbn [truthy]; rewrite Hp, Hext, eqb_refl, Hdisk; reflexivity.
Qed.

(** C8, where the code departs from it: an existing regular file is
    accepted whatever its mode bits; the permission test masks the mode
    with [F_OK], which is 0, so it never rejects. *)
Theorem connect_ignores_permissions (h : DBHandler.t) (disk : Fs.t) (p : Str.t)
  (mode : Z) (content : Str.t) :
  p <> [] -> extname P p = dbFileExt -> disk p = Fs.Node true mode content ->
  connect_dbFilePath P h disk (VStr p)
  = ({| dbFilePath := Some p |}, disk, Resolved tt).
Proof.
  intros Hp Hext Hdisk. unfold connect_dbFilePath, check_db_file.
  cbn [truthy]. apply eqb_neq in Hp. rewrite Hp, Hext, eqb_refl, Hdisk.
  cbn [negb orb]. rewrite permission_test_never_fires. reflexivity.
Qed.

End Connect.

(** The file of the example with no permission bit set (mode
    [0o100000]): the handler connects. *)
Lemma connect_ignores_permissions_witness :
  connect_dbFilePath Reference.platform {| dbFilePath := None |}
    (Reference.disk_with Fs.S_IFREG []) (VStr Reference.db_path)
  = ({| dbFilePath := Some Reference.db_path |},
     Reference.disk_with Fs.S_IFREG [], Resolved tt).
Proof.
  apply (connect_ignores_permissions Reference.platform {| dbFilePath := None |}
           (Reference.disk_with Fs.S_IFREG []) Reference.db_path Fs.S_IFREG []).
  - discriminate.
  - reflexivity.
  - reflexivity.
Defined.

End ConnectFacts.

(** ** Schemas *)

Module SchemaFacts.

Import Str StrFacts Js Obj Store JsFacts StoreFacts Schema.

Lemma cloneable_object (fs : list (Str.t * value)) :
  cloneable (VObject fs) = forallb (fun kv => cloneable (snd kv)) fs.
Proof.
  induction fs as [|[k v] fs IH]; [reflexivity|].
  cbn [forallb snd]. rewrite <- IH. reflexivity.
Qed.

Lemma cloneable_array (items : list value) :
  cloneable (VArray items) = forallb cloneable items.
Proof.
  induction items as [|v items IH]; [reflexivity|].
  cbn [forallb]. rewrite <- IH. reflexivity.
Qed.

Lemma structuredClone_ok (x y : value) :
  structuredClone x = Ok y -> y = x /\ cloneable x = true.
Proof.
  unfold structuredClone. destruct (cloneable x); [|discriminate].
  intros H. injection H as <-. tauto.
Qed.

Lemma structuredClone_cloneable (x : value) :
  cloneable x = true -> structuredClone x = Ok x.
Proof. intros H. unfold structuredClone. rewrite H. reflexivity. Qed.

Lemma cloneable_lookup (fs : list (Str.t * value)) (k : Str.t) (v : value) :
  cloneable (VObject fs) = true -> lookup k fs = Some v -> cloneable v = true.
Proof.
  rewrite cloneable_object. induction fs as [|[k' v'] fs IH]; [discriminate|].
  cbn [forallb snd]. rewrite lookup_cons. intros H. apply andb_true_iff in H.
  destruct (Str.eqb k' k).
  - intros E. injection E as <-. tauto.
  - apply IH. tauto.
Qed.

Lemma in_indexed (items : list value) (k : Str.t) (v : value) :
  In (k, v) (indexed items) -> In v items.
Proof.
  unfold indexed. intros H. apply in_combine_r in H. exact H.
Qed.

(** The value of an enumerable property of a value that can be cloned
    can be cloned. *)
Lemma cloneable_entry (x : value) (k : Str.t) (v : value) :
  cloneable x = true -> In (k, v) (own_entries x) -> cloneable v = true.
Proof.
  destruct x; cbn [own_entries]; try (intros _ []).
  - intros Hc Hin. apply in_indexed in Hin. apply in_map_iff in Hin.
    destruct Hin as [c [<- _]]. reflexivity.
  - rewrite cloneable_object. intros Hc Hin.
    rewrite forallb_forall in Hc. exact (Hc _ Hin).
  - rewrite cloneable_array. intros Hc Hin. apply in_indexed in Hin.
    rewrite forallb_forall in Hc. exact (Hc _ Hin).
  - intros Hc Hin. apply in_indexed in Hin. apply in_map_iff in Hin.
    destruct Hin as [c [<- _]]. reflexivity.
Qed.

Lemma assign_new (k : Str.t) (v : value) (fs : list (Str.t * value)) :
  ~ In k (keys fs) -> assign k v fs = fs ++ [(k, v)].
Proof.
  induction fs as [|[k' v'] fs IH]; simpl; intros H; [reflexivity|].
  destruct (Str.eqb k' k) eqn:E.
  - apply eqb_eq in E. tauto.
  - rewrite IH by tauto. reflexivity.
Qed.

Lemma in_keys_assign (x k : Str.t) (v : value) (fs : list (Str.t * value)) :
  In x (keys (assign k v fs)) -> x = k \/ In x (keys fs).
Proof.
  induction fs as [|[k' v'] fs IH]; simpl.
  - intros [H|[]]; auto.
  - destruct (Str.eqb k' k) eqn:E; simpl.
    + apply eqb_eq in E. subst k'. intros [H|H]; auto.
    + intros [H|H]; auto. destruct (IH H); auto.
Qed.

Lemma assign_nodup (k : Str.t) (v : value) (fs : list (Str.t * value)) :
  NoDup (keys fs) -> NoDup (keys (assign k v fs)).
Proof.
  induction fs as [|[k' v'] fs IH]; simpl; intros Hnd.
  - repeat constructor. intros [].
  - inversion Hnd as [|? ? Hk Hnd']; subst.
    destruct (Str.eqb k' k) eqn:E; simpl.
    + apply eqb_eq in E. subst k'. constructor; assumption.
    + constructor; [|apply IH; exact Hnd'].
      intros Hin. destruct (in_keys_assign _ _ _ _ Hin) as [->|Hin'].
      * rewrite eqb_refl in E. discriminate.
      * contradiction.
Qed.

Lemma assign_forall (Q : Str.t * value -> Prop) (k : Str.t) (v : value)
  (fs : list (Str.t * value)) :
  Forall Q fs -> Q (k, v) -> Forall Q (assign k v fs).
Proof.
  intros Hfs Hkv. induction Hfs as [|[k' v'] fs Hx Hfs IH]; simpl.
  - repeat constructor. exact Hkv.
  - destruct (Str.eqb k' k); constructor; assumption.
Qed.

Lemma assign_not_nil (k : Str.t) (v : value) (fs : list (Str.t * value)) :
  assign k v fs <> [].
Proof.
  destruct fs as [|[k' v'] fs]; simpl; [discriminate|].
  destruct (Str.eqb k' k); discriminate.
Qed.

Lemma in_assign (p k : Str.t) (spec v : value) (fs : list (Str.t * value)) :
  In (p, spec) (assign k v fs) -> (p, spec) = (k, v) \/ In (p, spec) fs.
Proof.
  induction fs as [|[k' v'] fs IH]; simpl.
  - intros [H|[]]; auto.
  - destruct (Str.eqb k' k); simpl.
    + intros [H|H]; auto.
    + intros [H|H]; auto. destruct (IH H); auto.
Qed.

Lemma keys_assign_incl (x k : Str.t) (v : value) (fs : list (Str.t * value)) :
  In x (keys fs) -> In x (keys (assign k v fs)).
Proof.
  induction fs as [|[k' v'] fs IH]; simpl; [tauto|].
  destruct (Str.eqb k' k) eqn:E; simpl.
  - apply eqb_eq in E. subst k'. tauto.
  - intros [H|H]; auto.
Qed.

Lemma keys_assign_key (k : Str.t) (v : value) (fs : list (Str.t * value)) :
  In k (keys (assign k v fs)).
Proof.
  induction fs as [|[k' v'] fs IH]; simpl; [auto|].
  destruct (Str.eqb k' k); simpl; auto.
Qed.

(** Every allowed type comes with a default that can be cloned. *)
Lemma allowed_default_cloneable (t : Str.t) (v : value) :
  lookup t allowedTypesAndDefaultsVals = Some v -> cloneable v = true.
Proof.
  unfold allowedTypesAndDefaultsVals.
  repeat (rewrite lookup_cons;
          match goal with
          | |- context [Str.eqb ?k t] =>
              destruct (Str.eqb k t);
              [ intros H; injection H as <-; reflexivity | ]
          end).
  discriminate.
Qed.

Section WithPlatform.

Context (P : Platform).

Lemma typeX_primitive (x : value) :
  negb (Str.eqb (typeof x) (lit "object")) = true -> typeX P x = Ok (VStr (typeof x)).
Proof.
  intros H. unfold typeX. apply negb_true_iff in H. rewrite H. reflexivity.
Qed.

Lemma typeX_false : typeX P (VBool false) = Ok (VStr (lit "boolean")).
Proof. reflexivity. Qed.

(** What is allowed as a type names an entry of the table of the
    defaults. *)
Lemma allowed_type_key (T : value) :
  is_allowed_type P T = Ok true ->
  exists key d, property_key P T = Ok key
                /\ lookup key allowedTypesAndDefaultsVals = Some d.
Proof.
  unfold is_allowed_type. intros H. apply bind_ok in H.
  destruct H as [key [Hkey H]]. exists key.
  destruct (lookup key allowedTypesAndDefaultsVals) as [d|]; [|discriminate].
  exists d. tauto.
Qed.

(** A declaration the format test accepts is a plain object that has a
    [type] the table allows. *)
Lemma valid_format_shape (spec : value) :
  is_valid_definition_param_format P spec = Ok true ->
  exists fs T,
    spec = VObject fs /\ lookup k_type fs = Some T /\ is_allowed_type P T = Ok true.
Proof.
  intros H.
  destruct spec as [| |b|n|s|fs|items|s|n|b|t|name];
    try (vm_compute in H; discriminate H).
  - unfold is_valid_definition_param_format in H.
    change (Str.eqb (typeof (VObject fs)) (lit "object")) with true in H.
    cbn [negb] in H.
    destruct (negb (forallb _ _)); [discriminate|].
    rewrite hasOwn_object in H.
    change (rule_must k_type) with true in H.
    destruct (lookup k_type fs) as [T|] eqn:HT; cbn [bind negb andb orb] in H;
      [|discriminate].
    rewrite (prop_get_own P fs k_type T HT) in H. cbn [bind] in H.
    destruct (is_allowed_type P T) as [[|]|e] eqn:HA; cbn [bind negb andb orb] in H;
      try discriminate.
    exists fs, T. tauto.
  - destruct items; vm_compute in H; discriminate H.
  - destruct s; vm_compute in H; discriminate H.
Qed.

Lemma preprocess_cloneable (fs : list (Str.t * value)) :
  cloneable (VObject fs) = true ->
  preprocess_definition_parameter (VObject fs) = VObject fs.
Proof.
  intros Hc. unfold preprocess_definition_parameter.
  change (Str.eqb (typeof (VObject fs)) (lit "object")) with true. cbn [negb own_entries].
  destruct (lookup k_type fs) as [T|] eqn:HT; [|reflexivity].
  pose proof (cloneable_lookup _ _ _ Hc HT) as HcT.
  destruct T; try reflexivity. discriminate HcT.
Qed.

Lemma keep_or_clone (x : value) :
  cloneable x = true ->
  (if negb (Str.eqb (typeof x) (lit "object")) then Ok x else structuredClone x) = Ok x.
Proof.
  intros H. destruct (negb _); [reflexivity | apply structuredClone_cloneable; exact H].
Qed.

(** The properties [#set_definition] gives a parameter whose
    declaration passed the format test. *)
Lemma fill_cloneable (fs : list (Str.t * value)) (T : value) :
  cloneable (VObject fs) = true ->
  lookup k_type fs = Some T -> is_allowed_type P T = Ok true ->
  exists R D,
    fill_properties P (VObject fs) get_allowed_parameter_properties_names_lst []
    = Ok [(k_type, T); (k_required, R); (k_default, D)]
    /\ R = match lookup k_required fs with Some r => r | None => VBool false end
    /\ (forall d, lookup k_default fs = Some d -> D = d)
    /\ (lookup k_default fs = None ->
        exists key, property_key P T = Ok key
                    /\ lookup key allowedTypesAndDefaultsVals = Some D)
    /\ cloneable (VObject [(k_type, T); (k_required, R); (k_default, D)]) = true.
Proof.
  intros Hc HT HA.
  destruct (allowed_type_key T HA) as [key [d [Hkey Hd]]].
  pose proof (cloneable_lookup _ _ _ Hc HT) as HcT.
  change get_allowed_parameter_properties_names_lst
    with [k_type; k_required; k_default].
  cbn [fill_properties].
  rewrite !hasOwn_object. rewrite HT. cbn [bind].
  rewrite (prop_get_own P fs k_type T HT). cbn [bind].
  rewrite (keep_or_clone T HcT). cbn [bind].
  change (assign k_type T []) with [(k_type, T)].
  set (R := match lookup k_required fs with Some r => r | None => VBool false end).
  assert (HcR : cloneable R = true).
  { unfold R. destruct (lookup k_required fs) as [r|] eqn:HR; [|reflexivity].
    exact (cloneable_lookup _ _ _ Hc HR). }
  assert (HR : (if match lookup k_required fs with Some _ => true | None => false end
                then x <- prop_get P (VObject fs) k_required ;;
                     (if negb (Str.eqb (typeof x) (lit "object")) then Ok x
                      else structuredClone x)
                else get_default_property_val P [(k_type, T)] k_required) = Ok R).
  { unfold R. destruct (lookup k_required fs) as [r|] eqn:Hr.
    - rewrite (prop_get_own P fs k_required r Hr). cbn [bind].
      apply keep_or_clone. exact HcR.
    - reflexivity. }
  rewrite HR. cbn [bind].
  change (assign k_required R [(k_type, T)]) with [(k_type, T); (k_required, R)].
  set (D := match lookup k_default fs with Some x => x | None => d end).
  assert (HcD : cloneable D = true).
  { unfold D. destruct (lookup k_default fs) as [x|] eqn:HD.
    - exact (cloneable_lookup _ _ _ Hc HD).
    - exact (allowed_default_cloneable _ _ Hd). }
  assert (HD : (if match lookup k_default fs with Some _ => true | None => false end
                then x <- prop_get P (VObject fs) k_default ;;
                     (if negb (Str.eqb (typeof x) (lit "object")) then Ok x
                      else structuredClone x)
                else get_default_property_val P [(k_type, T); (k_required, R)] k_default)
               = Ok D).
  { unfold D. destruct (lookup k_default fs) as [x|] eqn:Hx.
    - rewrite (prop_get_own P fs k_default x Hx). cbn [bind].
      apply keep_or_clone. exact HcD.
    - change (get_default_property_val P [(k_type, T); (k_required, R)] k_default)
        with (declared <- prop_get P (VObject [(k_type, T); (k_required, R)]) k_type ;;
              key <- property_key P declared ;;
              prop_get P (VObject allowedTypesAndDefaultsVals) key).
      rewrite (prop_get_own P [(k_type, T); (k_required, R)] k_type T eq_refl). cbn [bind].
      rewrite Hkey. cbn [bind]. apply prop_get_own. exact Hd. }
  rewrite HD. cbn [bind].
  change (assign k_default D [(k_type, T); (k_required, R)])
    with [(k_type, T); (k_required, R); (k_default, D)].
  exists R, D. split; [reflexivity|]. split; [reflexivity|]. split; [|split].
  - intros x Hx. unfold D. rewrite Hx. reflexivity.
  - intros Hx. exists key. split; [exact Hkey|]. unfold D. rewrite Hx. exact Hd.
  - rewrite cloneable_object. cbn [forallb snd]. rewrite HcT, HcR, HcD. reflexivity.
Qed.



(** [#set_definition] on declarations that pass the format test and can
    be cloned: every parameter is kept, with its declaration filled. *)
Lemma set_params_filled (entries : list (Str.t * value)) :
  (forall p spec, In (p, spec) entries ->
     is_valid_definition_param_format P spec = Ok true /\ cloneable spec = true) ->
  ~ In proto_key (keys entries) ->
  forall acc, NoDup (keys acc ++ keys entries) ->
    exists res,
      set_params P entries acc = Ok (Some (acc ++ res))
      /\ Forall2 (fun e e' => fst e' = fst e /\ filled (snd e) (snd e')) entries res
      /\ cloneable (VObject res) = true.
Proof.
  induction entries as [|[param raw] entries IH]; intros Hall Hproto acc Hnd.
  - exists []. rewrite app_nil_r. split; [reflexivity|].
    split; [constructor | reflexivity].
  - destruct (Hall param raw (or_introl eq_refl)) as [Hvalid Hc].
    destruct (valid_format_shape raw Hvalid) as [fs [T [-> [HT HA]]]].
    destruct (fill_cloneable fs T Hc HT HA) as [R [D [Hfill [HR [HD [_ Hc']]]]]].
    cbn [set_params]. rewrite (preprocess_cloneable fs Hc), Hvalid. cbn [bind negb].
    rewrite Hfill. cbn [bind].
    assert (Hne : param <> proto_key).
    { intros ->. apply Hproto. left. reflexivity. }
    assert (Hfresh : ~ In param (keys acc)).
    { intros Hk. cbn [keys map fst] in Hnd. apply NoDup_remove_2 in Hnd.
      apply Hnd. apply in_or_app. left. exact Hk. }
    rewrite (set_prop_other _ _ _ Hne), (assign_new _ _ _ Hfresh).
    destruct (IH (fun p spec Hin => Hall p spec (or_intror Hin))
                 (fun Hin => Hproto (or_intror Hin))
                 (acc ++ [(param, VObject [(k_type, T); (k_required, R); (k_default, D)])]))
      as [res [Hrun [Hf Hcr]]].
    { unfold keys in *. rewrite map_app, <- app_assoc. exact Hnd. }
    exists ((param, VObject [(k_type, T); (k_required, R); (k_default, D)]) :: res).
    split; [|split].
    + rewrite Hrun, <- app_assoc. reflexivity.
    + constructor; [|exact Hf]. split; [reflexivity|].
      exists fs, T, R, D. tauto.
    + rewrite cloneable_object. cbn [forallb snd]. rewrite Hc'.
      rewrite <- cloneable_object. exact Hcr.
Qed.

Lemma all_params_valid_in (entries : list (Str.t * value)) :
  all_params_valid P entries = Ok true ->
  forall p spec, In (p, spec) entries ->
    is_valid_definition_param_format P spec = Ok true.
Proof.
  induction entries as [|[k x] entries IH]; intros H p spec Hin; [destruct Hin|].
  cbn [all_params_valid] in H. apply bind_ok in H. destruct H as [ok [Hok H]].
  destruct ok; cbn [negb] in H; [|discriminate].
  destruct Hin as [E|Hin]; [injection E as <- <-; exact Hok | exact (IH H _ _ Hin)].
Qed.

Lemma all_params_valid_intro (entries : list (Str.t * value)) :
  (forall p spec, In (p, spec) entries ->
     is_valid_definition_param_format P spec = Ok true) ->
  all_params_valid P entries = Ok true.
Proof.
  induction entries as [|[k x] entries IH]; intros H; [reflexivity|].
  cbn [all_params_valid]. rewrite (H k x (or_introl eq_refl)). cbn [bind negb].
  apply IH. intros p spec Hin. apply (H p spec). right. exact Hin.
Qed.

(** The [timestamps] of options that pass the test of [is_valid_schema]
    has the type of a boolean. *)
Lemma options_typed_lookup (opts : list (Str.t * value)) (v : value) :
  all_options_typed P opts = Ok true -> lookup k_timestamps opts = Some v ->
  exists tv, typeX P v = Ok tv /\ strict_equal tv (VStr (lit "boolean")) = true.
Proof.
  induction opts as [|[k x] opts IH]; intros H Hl; [discriminate|].
  cbn [all_options_typed] in H.
  apply bind_ok in H. destruct H as [tv [Htv H]].
  apply bind_ok in H. destruct H as [d [Hd H]].
  apply bind_ok in H. destruct H as [td [Htd H]].
  destruct (strict_equal tv td) eqn:E; cbn [negb] in H; [|discriminate].
  rewrite lookup_cons in Hl. destruct (Str.eqb k k_timestamps) eqn:Ek.
  - injection Hl as <-. apply eqb_eq in Ek. subst k.
    change (prop_get P (VObject defaultOptions) k_timestamps) with (@Ok value (VBool false)) in Hd.
    injection Hd as <-. rewrite typeX_false in Htd. injection Htd as <-.
    exists tv. tauto.
  - exact (IH H Hl).
Qed.

(** What [is_valid_schema] has checked when it answers [true]. *)
Lemma valid_schema_inv (s : Schema.t) :
  is_valid_schema P s = Ok true ->
  cloneable (_definition s) = true /\ cloneable (VObject (options_ s)) = true
  /\ Str.eqb (typeof (_definition s)) (lit "object") = true
  /\ truthy (_definition s) = true
  /\ own_entries (_definition s) <> []
  /\ all_params_valid P (own_entries (_definition s)) = Ok true
  /\ all_options_typed P (options_ s) = Ok true.
Proof.
  unfold is_valid_schema, options, definition. intros H.
  apply bind_ok in H. destruct H as [schemaOpt [Ho H]].
  apply bind_ok in H. destruct H as [schemaDef [Hd H]].
  apply structuredClone_ok in Ho, Hd.
  destruct Ho as [-> Hco]. destruct Hd as [-> Hcd].
  change (Str.eqb (typeof (VObject (options_ s))) (lit "object")) with true in H.
  cbn [negb] in H.
  destruct (Str.eqb (typeof (_definition s)) (lit "object")) eqn:Ht; cbn [negb] in H;
    [|discriminate].
  apply bind_ok in H. destruct H as [ks [Hks H]].
  destruct (length ks =? 0) eqn:Hl; [discriminate|].
  apply bind_ok in H. destruct H as [okDef [Hok H]].
  destruct okDef; cbn [negb] in H; [|discriminate].
  split; [exact Hcd|]. split; [exact Hco|]. split; [reflexivity|].
  split; [|split; [|split; [exact Hok | exact H]]].
  - destruct (_definition s); try discriminate; reflexivity.
  - intros Hnil.
    assert (E : ks = keys (own_entries (_definition s))).
    { destruct (_definition s); try discriminate; injection Hks as <-; reflexivity. }
    rewrite E, Hnil in Hl. discriminate Hl.
Qed.

(** [copy] of a valid schema whose parameters are distinct names, none
    of them [__proto__]. *)
Lemma copy_filled (s : Schema.t) :
  is_valid_schema P s = Ok true ->
  NoDup (keys (own_entries (_definition s))) ->
  ~ In proto_key (keys (own_entries (_definition s))) ->
  exists res,
    copy P s
    = Ok {| _definition := VObject res;
            options_ := [(k_timestamps,
                          match lookup k_timestamps (options_ s) with
                          | Some v => v
                          | None => VBool false
                          end)] |}
    /\ Forall2 (fun e e' => fst e' = fst e /\ filled (snd e) (snd e'))
         (own_entries (_definition s)) res
    /\ cloneable (VObject res) = true.
Proof.
  intros Hvalid Hnd Hproto.
  destruct (valid_schema_inv s Hvalid) as [Hcd [Hco [Ht [Htr [Hne [Hall Hopts]]]]]].
  destruct (set_params_filled (own_entries (_definition s))) with (acc := @nil (Str.t * value))
    as [res [Hrun [Hf Hcr]]].
  - intros p spec Hin. split.
    + exact (all_params_valid_in _ Hall p spec Hin).
    + exact (cloneable_entry _ _ _ Hcd Hin).
  - exact Hproto.
  - exact Hnd.
  - exists res. split; [|split; assumption].
    unfold copy, definition, options.
    rewrite (structuredClone_cloneable _ Hcd). cbn [bind].
    unfold new, set_definition. rewrite Htr, Ht. cbn [negb orb].
    assert (Hlen : (length (own_entries (_definition s)) =? 0) = false).
    { destruct (own_entries (_definition s)); [congruence | reflexivity]. }
    rewrite Hlen, Hrun. cbn [bind option_map app].
    change (set_options P {| _definition := VObject res; options_ := [] |} VUndefined)
      with (@Ok Schema.t {| _definition := VObject res;
                            options_ := [(k_timestamps, VBool false)] |}).
    cbn [bind].
    rewrite (structuredClone_cloneable _ Hco). cbn [bind].
    unfold set_options. cbn [_definition].
    change defaultOptions with [(k_timestamps, VBool false)].
    cbn [set_options_loop truthy negb].
    rewrite hasOwn_object.
    destruct (lookup k_timestamps (options_ s)) as [v|] eqn:Hv; cbn [bind].
    + rewrite (prop_get_own P _ _ _ Hv). cbn [bind].
      destruct (options_typed_lookup _ _ Hopts Hv) as [tv [Htv Heq]].
      rewrite Htv, typeX_false. cbn [bind]. rewrite Heq. cbn [negb].
      rewrite (structuredClone_cloneable _ (cloneable_lookup _ _ _ Hco Hv)).
      reflexivity.
    + reflexivity.
Qed.





(** *** What the constructor has checked and stored *)

(** Every allowed type comes with a default of that type. *)
Lemma allowed_default_typed (t : Str.t) (v : value) :
  lookup t allowedTypesAndDefaultsVals = Some v -> typeX P v = Ok (VStr t).
Proof.
  unfold allowedTypesAndDefaultsVals.
  repeat (rewrite lookup_cons;
          match goal with
          | |- context [Str.eqb ?k t] =>
              destruct (Str.eqb k t) eqn:?E;
              [ apply eqb_eq in E; subst t; intros H; injection H as <-;
                reflexivity | clear E ]
          end).
  discriminate.
Qed.

Lemma typeX_of_boolean (b : bool) : typeX P (VBool b) = Ok (VStr (lit "boolean")).
Proof. reflexivity. Qed.

(** A value that is no object and has the type of a boolean is a
    boolean. *)
Lemma boolean_primitive (x : value) (t : value) :
  Str.eqb (typeof x) (lit "object") = false ->
  typeX P x = Ok t -> strict_equal t (VStr (lit "boolean")) = true ->
  exists b, x = VBool b.
Proof.
  intros Hobj Ht Heq. unfold typeX in Ht. rewrite Hobj in Ht. injection Ht as <-.
  destruct x; try discriminate. eauto.
Qed.

(** What the format test has checked in a plain object when it answers
    [true]. *)
Lemma valid_format_inv (fs : list (Str.t * value)) :
  is_valid_definition_param_format P (VObject fs) = Ok true ->
  forallb (fun prop => existsb (Str.eqb prop) get_allowed_parameter_properties_names_lst)
    (keys fs) = true
  /\ exists T,
       lookup k_type fs = Some T /\ is_allowed_type P T = Ok true
       /\ (forall r, lookup k_required fs = Some r ->
             exists tr, typeX P r = Ok tr
                        /\ strict_equal tr (VStr (lit "boolean")) = true)
       /\ (forall d, lookup k_default fs = Some d ->
             exists td, typeX P d = Ok td /\ loose_equal P td T = Ok true).
Proof.
  unfold is_valid_definition_param_format.
  change (Str.eqb (typeof (VObject fs)) (lit "object")) with true. cbn [negb own_entries].
  destruct (forallb _ (keys fs)) eqn:Hkeys; cbn [negb]; [|discriminate].
  rewrite !hasOwn_object.
  change (rule_must k_type) with true.
  change (rule_must k_required) with false.
  change (rule_must k_default) with false.
  intros H. split; [reflexivity|].
  destruct (lookup k_type fs) as [T|] eqn:HT; cbn [bind negb andb orb] in H;
    [|discriminate].
  rewrite (prop_get_own P fs k_type T HT) in H. cbn [bind] in H.
  destruct (is_allowed_type P T) as [[|]|e] eqn:HA; cbn [bind negb andb orb] in H;
    try discriminate.
  exists T. split; [reflexivity|]. split; [exact HA|].
  apply bind_ok in H. destruct H as [badReq [HbadReq H]].
  destruct badReq; [discriminate|].
  apply bind_ok in H. destruct H as [badDef [HbadDef H]].
  destruct badDef; [discriminate|].
  split.
  - intros r Hr. rewrite Hr in HbadReq.
    rewrite (prop_get_own P fs k_required r Hr) in HbadReq. cbn [bind] in HbadReq.
    apply bind_ok in HbadReq. destruct HbadReq as [tr [Htr HbadReq]].
    rewrite typeX_of_boolean in HbadReq. cbn [bind] in HbadReq.
    injection HbadReq as HbadReq. apply negb_false_iff in HbadReq.
    exists tr. tauto.
  - intros d Hd. rewrite Hd in HbadDef. cbn [andb] in HbadDef.
    rewrite (prop_get_own P fs k_default d Hd) in HbadDef. cbn [bind] in HbadDef.
    apply bind_ok in HbadDef. destruct HbadDef as [td [Htd HbadDef]].
    apply bind_ok in HbadDef. destruct HbadDef as [same [Hsame HbadDef]].
    injection HbadDef as HbadDef. apply negb_false_iff in HbadDef. subst same.
    exists td. tauto.
Qed.

Lemma valid_format_intro (fs : list (Str.t * value)) (T : value) :
  forallb (fun prop => existsb (Str.eqb prop) get_allowed_parameter_properties_names_lst)
    (keys fs) = true ->
  lookup k_type fs = Some T -> is_allowed_type P T = Ok true ->
  (forall r, lookup k_required fs = Some r ->
     exists tr, typeX P r = Ok tr /\ strict_equal tr (VStr (lit "boolean")) = true) ->
  (forall d, lookup k_default fs = Some d ->
     exists td, typeX P d = Ok td /\ loose_equal P td T = Ok true) ->
  is_valid_definition_param_format P (VObject fs) = Ok true.
Proof.
  intros Hkeys HT HA HR HD. unfold is_valid_definition_param_format.
  change (Str.eqb (typeof (VObject fs)) (lit "object")) with true. cbn [negb own_entries].
  rewrite Hkeys. cbn [negb]. rewrite !hasOwn_object.
  change (rule_must k_type) with true.
  change (rule_must k_required) with false.
  change (rule_must k_default) with false.
  rewrite HT. cbn [bind]. rewrite (prop_get_own P fs k_type T HT). cbn [bind].
  rewrite HA. cbn [bind negb andb orb].
  destruct (lookup k_required fs) as [r|] eqn:Hr; cbn [bind].
  - rewrite (prop_get_own P fs k_required r Hr). cbn [bind].
    destruct (HR r eq_refl) as [tr [Htr Heq]]. rewrite Htr, typeX_of_boolean.
    cbn [bind]. rewrite Heq. cbn [negb andb orb].
    destruct (lookup k_default fs) as [d|] eqn:Hd; cbn [bind andb]; [|reflexivity].
    rewrite (prop_get_own P fs k_default d Hd). cbn [bind].
    destruct (HD d eq_refl) as [td [Htd Hsame]]. rewrite Htd. cbn [bind].
    rewrite Hsame. reflexivity.
  - cbn [negb andb orb].
    destruct (lookup k_default fs) as [d|] eqn:Hd; cbn [bind andb]; [|reflexivity].
    rewrite (prop_get_own P fs k_default d Hd). cbn [bind].
    destruct (HD d eq_refl) as [td [Htd Hsame]]. rewrite Htd. cbn [bind].
    rewrite Hsame. reflexivity.
Qed.

Lemma keep_or_clone_inv (x y : value) :
  (if negb (Str.eqb (typeof x) (lit "object")) then Ok x else structuredClone x) = Ok y ->
  y = x /\ (Str.eqb (typeof x) (lit "object") = true -> cloneable x = true).
Proof.
  destruct (Str.eqb (typeof x) (lit "object")); cbn [negb].
  - intros H. apply structuredClone_ok in H. tauto.
  - intros H. injection H as <-. split; [reflexivity | discriminate].
Qed.

(** The three properties [#set_definition] stores for a parameter whose
    declaration passed the format test. *)
Lemma fill_inv (fs : list (Str.t * value)) (T : value) (props : list (Str.t * value)) :
  lookup k_type fs = Some T -> is_allowed_type P T = Ok true ->
  fill_properties P (VObject fs) get_allowed_parameter_properties_names_lst [] = Ok props ->
  exists R D,
    props = [(k_type, T); (k_required, R); (k_default, D)]
    /\ R = match lookup k_required fs with Some r => r | None => VBool false end
    /\ match lookup k_default fs with
       | Some d => D = d
       | None => exists key, property_key P T = Ok key
                             /\ lookup key allowedTypesAndDefaultsVals = Some D
       end
    /\ (Str.eqb (typeof T) (lit "object") = true -> cloneable T = true)
    /\ (Str.eqb (typeof R) (lit "object") = true -> cloneable R = true)
    /\ (Str.eqb (typeof D) (lit "object") = true -> cloneable D = true).
Proof.
  intros HT HA.
  destruct (allowed_type_key T HA) as [key [d [Hkey Hd]]].
  change get_allowed_parameter_properties_names_lst
    with [k_type; k_required; k_default].
  cbn [fill_properties]. rewrite !hasOwn_object. rewrite HT. cbn [bind].
  rewrite (prop_get_own P fs k_type T HT). cbn [bind]. intros H.
  apply bind_ok in H. destruct H as [T' [HT' H]].
  apply keep_or_clone_inv in HT'. destruct HT' as [-> HcT].
  change (assign k_type T []) with [(k_type, T)] in H.
  apply bind_ok in H. destruct H as [R [HR H]].
  change (assign k_required R [(k_type, T)]) with [(k_type, T); (k_required, R)] in H.
  apply bind_ok in H. destruct H as [D [HD H]].
  change (assign k_default D [(k_type, T); (k_required, R)])
    with [(k_type, T); (k_required, R); (k_default, D)] in H.
  cbn [fill_properties] in H. injection H as <-.
  exists R, D. split; [reflexivity|].
  assert (HR' : R = match lookup k_required fs with Some r => r | None => VBool false end
                /\ (Str.eqb (typeof R) (lit "object") = true -> cloneable R = true)).
  { destruct (lookup k_required fs) as [r|] eqn:Hr.
    - rewrite (prop_get_own P fs k_required r Hr) in HR. cbn [bind] in HR.
      apply keep_or_clone_inv in HR. destruct HR as [-> Hc]. tauto.
    - change (get_default_property_val P [(k_type, T)] k_required)
        with (@Ok value (VBool false)) in HR.
      injection HR as <-. split; [reflexivity | discriminate]. }
  assert (HD' : match lookup k_default fs with
                | Some x => D = x
                | None => exists key, property_key P T = Ok key
                                      /\ lookup key allowedTypesAndDefaultsVals = Some D
                end
                /\ (Str.eqb (typeof D) (lit "object") = true -> cloneable D = true)).
  { destruct (lookup k_default fs) as [x|] eqn:Hx.
    - rewrite (prop_get_own P fs k_default x Hx) in HD. cbn [bind] in HD.
      apply keep_or_clone_inv in HD. destruct HD as [-> Hc]. tauto.
    - change (get_default_property_val P [(k_type, T); (k_required, R)] k_default)
        with (declared <- prop_get P (VObject [(k_type, T); (k_required, R)]) k_type ;;
              key <- property_key P declared ;;
              prop_get P (VObject allowedTypesAndDefaultsVals) key) in HD.
      rewrite (prop_get_own P [(k_type, T); (k_required, R)] k_type T eq_refl) in HD.
      cbn [bind] in HD. rewrite Hkey in HD. cbn [bind] in HD.
      rewrite (prop_get_own P _ _ _ Hd) in HD. injection HD as <-.
      split; [|intros _; exact (allowed_default_cloneable _ _ Hd)].
      exists key. tauto. }
  tauto.
Qed.

(** The preprocessing of a declaration gives a plain object with the
    properties of the declaration, the type excepted when it is a
    function. *)
Lemma preprocess_object (raw : value) :
  Str.eqb (typeof raw) (lit "object") = true ->
  exists fs, preprocess_definition_parameter raw = VObject fs
    /\ (forall k, k <> k_type -> lookup k fs = lookup k (own_entries raw))
    /\ match lookup k_type (own_entries raw) with
       | Some (VFunction name) =>
           lookup k_type fs
           = Some (VStr (if Str.eqb name (lit "String") then lit "string"
                         else if Str.eqb name (lit "Number") then lit "number"
                         else name))
       | other => lookup k_type fs = other
       end.
Proof.
  intros Hobj. unfold preprocess_definition_parameter. rewrite Hobj. cbn [negb].
  destruct (lookup k_type (own_entries raw)) as [v|] eqn:E.
  - destruct v; try (eexists; split; [reflexivity|]; split; [reflexivity | exact E]).
    eexists. split; [reflexivity|]. split.
    + intros k Hk. apply lookup_assign_ne. congruence.
    + rewrite lookup_assign_eq. f_equal. f_equal.
      destruct (Str.eqb name (lit "String")) eqn:E1; [|reflexivity].
      apply eqb_eq in E1. subst. reflexivity.
  - eexists. split; [reflexivity|]. split; [reflexivity | exact E].
Qed.

Lemma valid_is_object (x : value) :
  is_valid_definition_param_format P x = Ok true ->
  Str.eqb (typeof x) (lit "object") = true.
Proof.
  unfold is_valid_definition_param_format.
  destruct (Str.eqb (typeof x) (lit "object")); [reflexivity | discriminate].
Qed.

Lemma preprocess_typeof (raw : value) :
  Str.eqb (typeof (preprocess_definition_parameter raw)) (lit "object")
  = Str.eqb (typeof raw) (lit "object").
Proof.
  unfold preprocess_definition_parameter.
  destruct (Str.eqb (typeof raw) (lit "object")) eqn:E; cbn [negb]; [|exact E].
  destruct (lookup k_type (own_entries raw)) as [[]|]; reflexivity.
Qed.

Lemma in_keys_set_prop (x k : Str.t) (v : value) (fs : list (Str.t * value)) :
  In x (keys (set_prop k v fs)) -> (x = k /\ k <> proto_key) \/ In x (keys fs).
Proof.
  unfold set_prop. destruct (Str.eqb k proto_key) eqn:E.
  - destruct (lookup k fs) as [w|] eqn:Hw; [|tauto].
    intros H. destruct (in_keys_assign _ _ _ _ H) as [->|H']; [|tauto].
    right. exact (lookup_in_keys _ _ _ Hw).
  - apply eqb_neq in E. intros H.
    destruct (in_keys_assign _ _ _ _ H) as [->|H']; tauto.
Qed.

Lemma set_params_inv (entries : list (Str.t * value)) :
  forall acc res,
    set_params P entries acc = Ok (Some res) ->
    NoDup (keys acc) -> ~ In proto_key (keys acc) ->
    NoDup (keys res) /\ ~ In proto_key (keys res)
    /\ (forall k, In k (keys acc) -> In k (keys res))
    /\ (forall k, In k (keys entries) -> k <> proto_key -> In k (keys res))
    /\ (forall p spec, In (p, spec) res ->
          In (p, spec) acc
          \/ exists raw props,
               In (p, raw) entries /\ spec = VObject props
               /\ is_valid_definition_param_format P (preprocess_definition_parameter raw)
                  = Ok true
               /\ fill_properties P (preprocess_definition_parameter raw)
                    get_allowed_parameter_properties_names_lst [] = Ok props).
Proof.
  induction entries as [|[param raw] entries IH]; intros acc res Hrun Hnd Hproto.
  - injection Hrun as <-. split; [exact Hnd|]. split; [exact Hproto|].
    split; [tauto|]. split; [intros k []|]. tauto.
  - cbn [set_params] in Hrun.
    apply bind_ok in Hrun. destruct Hrun as [valid [Hvalid Hrun]].
    destruct valid; cbn [negb] in Hrun; [|discriminate].
    apply bind_ok in Hrun. destruct Hrun as [props [Hfill Hrun]].
    assert (Hnd1 : NoDup (keys (set_prop param (VObject props) acc))).
    { unfold set_prop. destruct (Str.eqb param proto_key).
      - destruct (lookup param acc); [apply assign_nodup|]; exact Hnd.
      - apply assign_nodup. exact Hnd. }
    assert (Hproto1 : ~ In proto_key (keys (set_prop param (VObject props) acc))).
    { intros H. apply in_keys_set_prop in H. destruct H as [[E Hne]|H]; congruence. }
    destruct (IH _ _ Hrun Hnd1 Hproto1) as [H1 [H2 [H3 [H4 H5]]]].
    split; [exact H1|]. split; [exact H2|]. split; [|split].
    + intros k Hk. apply H3. unfold set_prop. destruct (Str.eqb param proto_key).
      * destruct (lookup param acc); [apply keys_assign_incl|]; exact Hk.
      * apply keys_assign_incl. exact Hk.
    + intros k [<-|Hk] Hne.
      * apply H3. rewrite (set_prop_other _ _ _ Hne). apply keys_assign_key.
      * apply H4; assumption.
    + intros p spec Hin. destruct (H5 p spec Hin) as [Hacc | [raw' [props' [Hin' H']]]].
      * assert (Hcase : (p, spec) = (param, VObject props) \/ In (p, spec) acc).
        { unfold set_prop in Hacc. destruct (Str.eqb param proto_key).
          - destruct (lookup param acc); [apply in_assign in Hacc|]; tauto.
          - apply in_assign in Hacc. tauto. }
        destruct Hcase as [E|Hacc']; [|left; exact Hacc'].
        injection E as -> ->. right. exists raw, props.
        split; [left; reflexivity | tauto].
      * right. exists raw', props'. split; [right; exact Hin' | exact H'].
Qed.

(** What [set_options] stores. *)
Lemma set_options_loop_inv (options : value) (opts : list (Str.t * value)) :
  set_options_loop P options defaultOptions [] = Ok opts ->
  exists v,
    opts = [(k_timestamps, v)] /\ cloneable v = true
    /\ (exists tv, typeX P v = Ok tv /\ strict_equal tv (VStr (lit "boolean")) = true)
    /\ ((truthy options = true /\ hasOwn P options k_timestamps = Ok true
         /\ prop_get P options k_timestamps = Ok v)
        \/ (v = VBool false
            /\ (truthy options = false \/ hasOwn P options k_timestamps = Ok false))).
Proof.
  change defaultOptions with [(k_timestamps, VBool false)].
  cbn [set_options_loop]. intros H.
  apply bind_ok in H. destruct H as [v [Hv H]]. injection H as <-.
  exists v. split; [reflexivity|].
  destruct (truthy options) eqn:Ht; cbn [negb] in Hv.
  - apply bind_ok in Hv. destruct Hv as [has [Hhas Hv]].
    destruct has.
    + apply bind_ok in Hv. destruct Hv as [given [Hgiven Hv]].
      apply bind_ok in Hv. destruct Hv as [tGiven [HtGiven Hv]].
      rewrite typeX_of_boolean in Hv. cbn [bind] in Hv.
      destruct (strict_equal tGiven (VStr (lit "boolean"))) eqn:E; cbn [negb] in Hv;
        [|discriminate].
      apply structuredClone_ok in Hv. destruct Hv as [-> Hc].
      split; [exact Hc|]. split; [exists tGiven; tauto|]. left. tauto.
    + injection Hv as <-. split; [reflexivity|].
      split; [exists (VStr (lit "boolean")); split; reflexivity|]. right. tauto.
  - injection Hv as <-. split; [reflexivity|].
    split; [exists (VStr (lit "boolean")); split; reflexivity|]. right. tauto.
Qed.

(** What the constructor returns. *)
Lemma new_inv (definition options : value) (s : Schema.t) :
  Schema.new P definition options = Ok s ->
  exists res v,
    s = {| _definition := VObject res; options_ := [(k_timestamps, v)] |}
    /\ set_params P (own_entries definition) [] = Ok (Some res)
    /\ set_options_loop P options defaultOptions [] = Ok [(k_timestamps, v)]
    /\ cloneable v = true
    /\ (exists tv, typeX P v = Ok tv /\ strict_equal tv (VStr (lit "boolean")) = true).
Proof.
  unfold Schema.new. intros H.
  apply bind_ok in H. destruct H as [d [Hd H]].
  destruct d as [def|]; [|discriminate].
  unfold set_options in H. cbn [_definition] in H.
  apply bind_ok in H. destruct H as [opts [Hopts H]]. injection H as <-.
  destruct (set_options_loop_inv _ _ Hopts) as [v [-> [Hc [Ht _]]]].
  unfold set_definition in Hd.
  destruct (negb (truthy definition) || negb (Str.eqb (typeof definition) (lit "object"))
            || (length (own_entries definition) =? 0)); [discriminate|].
  apply bind_ok in Hd. destruct Hd as [r [Hr Hd]].
  destruct r as [res|]; [|discriminate]. injection Hd as <-.
  exists res, v. tauto.
Qed.

(** A declaration with a string for type, once filled, passes the
    format test and can be cloned. *)
Lemma filled_spec_valid (fs : list (Str.t * value)) (typ : Str.t)
  (props : list (Str.t * value)) :
  is_valid_definition_param_format P (VObject fs) = Ok true ->
  lookup k_type fs = Some (VStr typ) ->
  fill_properties P (VObject fs) get_allowed_parameter_properties_names_lst [] = Ok props ->
  exists R D,
    props = [(k_type, VStr typ); (k_required, R); (k_default, D)]
    /\ is_valid_definition_param_format P (VObject props) = Ok true
    /\ cloneable (VObject props) = true.
Proof.
  intros Hvalid HT Hfill.
  destruct (valid_format_inv fs Hvalid) as [_ [T [HT' [HA [HR HD]]]]].
  rewrite HT in HT'. injection HT' as <-.
  destruct (fill_inv fs _ props HT HA Hfill) as [R [D [-> [HRm [HDm [_ [HcR HcD]]]]]]].
  exists R, D. split; [reflexivity|].
  assert (HtR : exists tr, typeX P R = Ok tr
                           /\ strict_equal tr (VStr (lit "boolean")) = true).
  { subst R. destruct (lookup k_required fs) as [r|]; [apply HR; reflexivity|].
    exists (VStr (lit "boolean")). split; reflexivity. }
  assert (HtD : exists td, typeX P D = Ok td /\ loose_equal P td (VStr typ) = Ok true).
  { destruct (lookup k_default fs) as [d|]; [subst D; apply HD; reflexivity|].
    destruct HDm as [key [Hkey Hd]]. cbn [property_key] in Hkey. injection Hkey as <-.
    exists (VStr typ). split; [exact (allowed_default_typed _ _ Hd)|].
    cbn [loose_equal]. rewrite eqb_refl. reflexivity. }
  split.
  - apply (valid_format_intro _ (VStr typ)); [reflexivity | reflexivity | exact HA | |].
    + intros r Hr. injection Hr as <-. exact HtR.
    + intros d Hd. injection Hd as <-. exact HtD.
  - rewrite cloneable_object. cbn [forallb snd cloneable andb].
    assert (HcR' : cloneable R = true).
    { destruct (Str.eqb (typeof R) (lit "object")) eqn:E; [exact (HcR eq_refl)|].
      destruct HtR as [tr [Htr Heq]].
      destruct (boolean_primitive R tr E Htr Heq) as [b ->]. reflexivity. }
    assert (HcD' : cloneable D = true).
    { destruct (Str.eqb (typeof D) (lit "object")) eqn:E; [exact (HcD eq_refl)|].
      destruct D; try reflexivity; try discriminate E.
      exfalso. destruct HtD as [td [Htd Heq]].
      change (typeX P (VFunction name)) with (@Ok value (VStr (lit "function"))) in Htd.
      assert (Etd : td = VStr (lit "function")) by congruence. subst td.
      change (loose_equal P (VStr (lit "function")) (VStr typ))
        with (@Ok bool (Str.eqb (lit "function") typ)) in Heq.
      assert (E' : Str.eqb (lit "function") typ = true) by congruence.
      apply eqb_eq in E'. subst typ.
      vm_compute in HA. discriminate HA. }
    rewrite HcR', HcD'. reflexivity.
Qed.

(** The declarations the constructor stores for a definition whose
    types are named: each has a string for type, passes the format
    test and can be cloned. *)
Lemma new_named_stored (definition options : value) (s : Schema.t) :
  Schema.new P definition options = Ok s -> named_types definition ->
  exists res v,
    s = {| _definition := VObject res; options_ := [(k_timestamps, v)] |}
    /\ NoDup (keys res) /\ ~ In proto_key (keys res)
    /\ (forall k, In k (keys (own_entries definition)) -> k <> proto_key ->
          In k (keys res))
    /\ cloneable (VObject res) = true /\ cloneable v = true
    /\ (exists tv, typeX P v = Ok tv /\ strict_equal tv (VStr (lit "boolean")) = true)
    /\ forall p spec, In (p, spec) res ->
         is_valid_definition_param_format P spec = Ok true
         /\ exists typ R D,
              spec = VObject [(k_type, VStr typ); (k_required, R); (k_default, D)].
Proof.
  intros Hnew Hnamed.
  destruct (new_inv _ _ _ Hnew) as [res [v [-> [Hrun [_ [Hcv Htv]]]]]].
  destruct (set_params_inv _ _ _ Hrun (NoDup_nil _) (fun H => H))
    as [Hnd [Hproto [_ [Hkeys Hspecs]]]].
  assert (Hall : forall p spec, In (p, spec) res ->
            is_valid_definition_param_format P spec = Ok true
            /\ cloneable spec = true
            /\ exists typ R D,
                 spec = VObject [(k_type, VStr typ); (k_required, R); (k_default, D)]).
  { intros p spec Hin.
    destruct (Hspecs p spec Hin) as [[] | [raw [props [Hraw [-> [Hvalid Hfill]]]]]].
    pose proof (valid_is_object _ Hvalid) as Hobj. rewrite preprocess_typeof in Hobj.
    destruct (preprocess_object raw Hobj) as [fs [Epp [_ Htype]]].
    rewrite Epp in Hvalid, Hfill.
    destruct (valid_format_inv fs Hvalid) as [_ [T [HT _]]].
    assert (Hstr : exists typ, lookup k_type fs = Some (VStr typ)).
    { destruct (lookup k_type (own_entries raw)) as [T0|] eqn:E.
      - destruct (Hnamed p raw T0 Hraw E) as [[t ->] | [name ->]].
        + exists t. exact Htype.
        + eexists. exact Htype.
      - rewrite Htype in HT. discriminate HT. }
    destruct Hstr as [typ Htyp].
    destruct (filled_spec_valid fs typ props Hvalid Htyp Hfill) as [R [D [-> [Hv Hc]]]].
    split; [exact Hv|]. split; [exact Hc|]. exists typ, R, D. reflexivity. }
  exists res, v. split; [reflexivity|]. split; [exact Hnd|]. split; [exact Hproto|].
  split; [exact Hkeys|]. split; [|split; [exact Hcv|split; [exact Htv|]]].
  - rewrite cloneable_object. apply forallb_forall. intros [p spec] Hin.
    exact (proj1 (proj2 (Hall p spec Hin))).
  - intros p spec Hin. destruct (Hall p spec Hin) as [H1 [_ H3]]. tauto.
Qed.

(** An instance with a definition that is not empty, whose declarations
    pass the format test, and with a [timestamps] of the type of a
    boolean, is valid. *)
Lemma stored_is_valid (res : list (Str.t * value)) (v : value) :
  res <> [] -> cloneable (VObject res) = true -> cloneable v = true ->
  (exists tv, typeX P v = Ok tv /\ strict_equal tv (VStr (lit "boolean")) = true) ->
  (forall p spec, In (p, spec) res ->
     is_valid_definition_param_format P spec = Ok true) ->
  is_valid_schema P {| _definition := VObject res; options_ := [(k_timestamps, v)] |}
  = Ok true.
Proof.
  intros Hne Hcr Hcv [tv [Htv Heq]] Hall.
  unfold is_valid_schema, options, definition. cbn [_definition options_].
  assert (Hco : cloneable (VObject [(k_timestamps, v)]) = true).
  { rewrite cloneable_object. cbn [forallb snd]. rewrite Hcv. reflexivity. }
  rewrite (structuredClone_cloneable _ Hco), (structuredClone_cloneable _ Hcr).
  cbn [bind]. change (Str.eqb (typeof (VObject _)) (lit "object")) with true.
  cbn [negb object_keys bind own_entries].
  destruct res as [|e res]; [congruence|].
  cbn [keys map length Nat.eqb].
  rewrite (all_params_valid_intro _ Hall). cbn [bind negb all_options_typed].
  rewrite Htv. cbn [bind].
  change (prop_get P (VObject defaultOptions) k_timestamps) with (@Ok value (VBool false)).
  cbn [bind]. rewrite typeX_of_boolean. cbn [bind]. rewrite Heq. reflexivity.
Qed.

(** The constructor returns a valid instance for a definition whose
    types are named and that has a parameter with another name than
    [__proto__]. *)
Lemma new_named_valid (definition options : value) (s : Schema.t) :
  Schema.new P definition options = Ok s -> named_types definition ->
  (exists p, In p (keys (own_entries definition)) /\ p <> proto_key) ->
  is_valid_schema P s = Ok true.
Proof.
  intros Hnew Hnamed [p [Hp Hne]].
  destruct (new_named_stored _ _ _ Hnew Hnamed)
    as [res [v [-> [_ [_ [Hkeys [Hcr [Hcv [Htv Hall]]]]]]]]].
  apply stored_is_valid; try assumption.
  - intros ->. exact (Hkeys p Hp Hne).
  - intros q spec Hin. exact (proj1 (Hall q spec Hin)).
Qed.

(** Filling a declaration that has its three properties, in their
    order, gives the declaration. *)
Lemma filled_same (l l' : list (Str.t * value)) :
  (forall p spec, In (p, spec) l ->
     exists typ R D,
       spec = VObject [(k_type, VStr typ); (k_required, R); (k_default, D)]) ->
  Forall2 (fun e e' => fst e' = fst e /\ filled (snd e) (snd e')) l l' ->
  l' = l.
Proof.
  intros Hall Hf. induction Hf as [|e e' l l' [He Hfe] _ IH]; [reflexivity|].
  rewrite IH by (intros p spec Hin; apply (Hall p spec); right; exact Hin).
  f_equal. destruct e as [p spec]. destruct e' as [p' spec']. cbn [fst snd] in *.
  subst p'. f_equal.
  destruct (Hall p spec (or_introl eq_refl)) as [typ [R [D ->]]].
  destruct Hfe as [fs [T [R' [D' [Efs [HT [-> [HR HD]]]]]]]].
  injection Efs as <-.
  change (lookup k_type [(k_type, VStr typ); (k_required, R); (k_default, D)])
    with (Some (VStr typ)) in HT.
  injection HT as <-.
  change (lookup k_required [(k_type, VStr typ); (k_required, R); (k_default, D)])
    with (Some R) in HR.
  rewrite HR, (HD D eq_refl). reflexivity.
Qed.

(** The copy of an instance the constructor built from a definition
    whose types are named holds what the instance holds. *)
Lemma copy_constructed (definition options : value) (s : Schema.t) :
  Schema.new P definition options = Ok s -> named_types definition ->
  (exists p, In p (keys (own_entries definition)) /\ p <> proto_key) ->
  copy P s = Ok s.
Proof.
  intros Hnew Hnamed Hp.
  pose proof (new_named_valid _ _ _ Hnew Hnamed Hp) as Hvalid.
  destruct (new_named_stored _ _ _ Hnew Hnamed)
    as [res [v [-> [Hnd [Hproto [_ [_ [_ [_ Hall]]]]]]]]].
  destruct (copy_filled _ Hvalid Hnd Hproto) as [res' [Hcopy [Hf _]]].
  cbn [_definition options_ own_entries] in Hcopy, Hf.
  rewrite Hcopy.
  change (lookup k_timestamps [(k_timestamps, v)]) with (Some v).
  rewrite (filled_same res res'); [reflexivity | | exact Hf].
  intros p spec Hin. exact (proj2 (Hall p spec Hin)).
Qed.

(** *** Instances in a store *)





End WithPlatform.



End SchemaFacts.

(** ** Deleting the lines that match a pattern *)

Module DeleteFacts.

Import Str StrFacts Js DBHandler DBHandlerFacts.

Lemma includes_short (s : Str.t) : length s <= 1 -> includes SEP s = false.
Proof.
  destruct s as [|c [|d s]]; intros H; [reflexivity | | simpl in H; lia].
  cbn. rewrite andb_false_r. reflexivity.
Qed.

Lemma includes_prefix_false (p a b : Str.t) :
  includes p (a ++ b) = false -> includes p a = false.
Proof.
  intros H. destruct (includes p a) eqn:E; [|reflexivity].
  rewrite (includes_app_l _ _ b E) in H. discriminate H.
Qed.

Lemma starts_SEP_head (x : ascii) (u f : Str.t) :
  u <> [] -> starts_with SEP (x :: u ++ f) = starts_with SEP (x :: u).
Proof.
  destruct u as [|y u]; [congruence|]. intros _. reflexivity.
Qed.

Lemma starts_LF_first (s : Str.t) :
  starts_with [LF] (firstn 1 s) = starts_with [LF] s.
Proof. destruct s as [|c s]; [reflexivity|]. simpl. reflexivity. Qed.

(** No CR LF pair appears when a character that starts none is added. *)
Lemma includes_extend (a : Str.t) (c : ascii) (s : Str.t) :
  includes SEP (a ++ [c]) = false ->
  starts_with SEP (c :: s) = false ->
  includes SEP ((a ++ [c]) ++ firstn 1 s) = false.
Proof.
  intros Ha Hc. induction a as [|x a IH].
  - cbn [app]. rewrite includes_cons.
    rewrite (includes_short (firstn 1 s)) by (rewrite length_firstn; lia).
    rewrite orb_false_r. unfold SEP in *. rewrite starts_with_cons in *.
    rewrite starts_LF_first. exact Hc.
  - change (((x :: a) ++ [c]) ++ firstn 1 s) with (x :: (a ++ [c]) ++ firstn 1 s).
    rewrite includes_cons.
    change ((x :: a) ++ [c]) with (x :: (a ++ [c])) in Ha.
    rewrite starts_SEP_head by (destruct a; discriminate).
    rewrite (includes_head _ _ Ha). cbn [orb].
    apply IH. apply includes_tail with x. exact Ha.
Qed.

Lemma sep_at_none (s : Str.t) : sep_at s = 0 -> starts_with SEP s = false.
Proof.
  unfold sep_at. destruct (starts_with (lit "," ++ SEP) s); [discriminate|].
  destruct (starts_with SEP s); [discriminate | reflexivity].
Qed.

Lemma fresh_piece (s : Str.t) : includes SEP (rev [] ++ firstn 1 s) = false.
Proof.
  cbn [rev app]. apply includes_short. rewrite length_firstn. lia.
Qed.

(** The pieces of a split hold no CR LF pair. *)
Lemma split_go_clean (s : Str.t) :
  forall skip cur,
    (skip = 0 -> includes SEP (rev cur ++ firstn 1 s) = false) ->
    (skip <> 0 -> cur = []) ->
    Forall (fun l => includes SEP l = false) (split_go skip cur s).
Proof.
  induction s as [|c s IH]; intros skip cur Hzero Hskip.
  - cbn [split_go]. constructor; [|constructor].
    destruct skip as [|k].
    + specialize (Hzero eq_refl). rewrite app_nil_r in Hzero. exact Hzero.
    + rewrite (Hskip (Nat.neq_succ_0 k)). reflexivity.
  - cbn [split_go]. destruct skip as [|k].
    + specialize (Hzero eq_refl). cbn [firstn] in Hzero.
      destruct (sep_at (c :: s)) as [|n] eqn:Hsep.
      * apply IH; [|congruence]. intros _. cbn [rev].
        apply includes_extend; [exact Hzero | apply sep_at_none; exact Hsep].
      * constructor.
        -- apply includes_prefix_false with [c]. exact Hzero.
        -- apply IH; [|reflexivity]. intros _. apply fresh_piece.
    + rewrite (Hskip (Nat.neq_succ_0 k)). apply IH; [|reflexivity].
      intros _. apply fresh_piece.
Qed.

Lemma split_lines_clean (buffer : Str.t) :
  Forall (fun l => includes SEP l = false) (split_lines buffer).
Proof.
  apply split_go_clean; [|congruence]. intros _. apply fresh_piece.
Qed.

Lemma Forall_removelast {A} (Q : A -> Prop) (l : list A) :
  Forall Q l -> Forall Q (removelast l).
Proof.
  induction 1 as [|x l Hx Hl IH]; [constructor|].
  cbn [removelast]. destruct l; [constructor|]. constructor; assumption.
Qed.

Lemma removelast_prefix {A} (l : list A) : exists r, l = removelast l ++ r.
Proof.
  induction l as [|x l [r IH]]; [exists []; reflexivity|].
  cbn [removelast]. destruct l as [|y l].
  - exists [x]. reflexivity.
  - exists r. cbn [app]. rewrite <- IH. reflexivity.
Qed.

Lemma strip_comma_prefix (line : Str.t) : exists r, line = strip_comma line ++ r.
Proof.
  unfold strip_comma, drop_last. destruct (last_char line) as [c|].
  - destruct (Ascii.eqb c ","%char).
    + apply removelast_prefix.
    + exists []. rewrite app_nil_r. reflexivity.
  - exists []. rewrite app_nil_r. reflexivity.
Qed.

Lemma strip_comma_free (p line : Str.t) :
  includes p line = false -> includes p (strip_comma line) = false.
Proof.
  intros H. destruct (strip_comma_prefix line) as [r Hr].
  rewrite Hr in H. apply includes_prefix_false with r. exact H.
Qed.

Lemma keep_line_free (pattern line : Str.t) :
  keep_line pattern line = true -> includes pattern line = false.
Proof.
  unfold keep_line. intros H. apply andb_true_iff in H. destruct H as [_ H].
  apply negb_true_iff in H. exact H.
Qed.

Lemma on_data_clean (pattern : Str.t) (acc : list Str.t) (buffer chunk : Str.t) :
  Forall (clean pattern) acc ->
  Forall (clean pattern) (fst (on_data pattern (acc, buffer) chunk)).
Proof.
  intros Hacc. unfold on_data. cbn [fst]. apply Forall_app. split; [exact Hacc|].
  apply Forall_map. apply Forall_forall. intros line Hin.
  apply filter_In in Hin. destruct Hin as [Hin Hkeep].
  pose proof (Forall_removelast _ _ (split_lines_clean (buffer ++ chunk))) as Hclean.
  rewrite Forall_forall in Hclean. specialize (Hclean _ Hin).
  split; apply strip_comma_free; [apply keep_line_free; exact Hkeep | exact Hclean].
Qed.

Lemma kept_lines_clean (pattern : Str.t) (chunks : list Str.t) :
  Forall (clean pattern) (kept_lines pattern chunks).
Proof.
  unfold kept_lines.
  assert (H : forall st, Forall (clean pattern) (fst st) ->
                         Forall (clean pattern) (fst (fold_left (on_data pattern) chunks st))).
  { induction chunks as [|chunk chunks IH]; intros [acc buffer] Hst; [exact Hst|].
    cbn [fold_left]. apply IH.
    destruct (on_data pattern (acc, buffer) chunk) as [acc' buffer'] eqn:E.
    change acc' with (fst (acc', buffer')). rewrite <- E.
    apply on_data_clean. exact Hst. }
  apply H. constructor.
Qed.

Lemma encode_clean (pattern line : Str.t) : clean pattern line -> encode_str line = line.
Proof.
  intros [_ H]. apply replaceAll_absent; [exact newLine_nonempty | exact H].
Qed.

Lemma map_encode_clean (pattern : Str.t) (lines : list Str.t) :
  Forall (clean pattern) lines -> map encode_str lines = lines.
Proof.
  induction 1 as [|l lines Hl Hls IH]; [reflexivity|].
  cbn [map]. rewrite (encode_clean _ _ Hl), IH. reflexivity.
Qed.

(** *** The lines of a file in the layout *)

Lemma scan_piece (r : Str.t) :
  forall cur t,
    (forall a c b, r = a ++ c :: b -> sep_at (c :: b ++ t) = 0) ->
    split_go 0 cur (r ++ t) = split_go 0 (rev r ++ cur) t.
Proof.
  induction r as [|c r IH]; intros cur t Hno; [reflexivity|].
  change ((c :: r) ++ t) with (c :: r ++ t). cbn [split_go].
  rewrite (Hno [] c r eq_refl).
  rewrite IH.
  - cbn [rev]. rewrite <- app_assoc. reflexivity.
  - intros a c' b Hr. apply (Hno (c :: a) c' b). rewrite Hr. reflexivity.
Qed.

Lemma includes_suffix_false (p a b : Str.t) :
  includes p (a ++ b) = false -> includes p b = false.
Proof.
  intros H. destruct (includes p b) eqn:E; [|reflexivity].
  rewrite (includes_app_r p a b E) in H. discriminate H.
Qed.

Lemma no_pair_at_head (c : ascii) (b t : Str.t) (d : ascii) :
  includes SEP (c :: b) = false -> d <> LF ->
  starts_with SEP (c :: b ++ d :: t) = false.
Proof.
  intros H Hd. apply includes_head in H. unfold SEP in *.
  rewrite starts_with_cons in *.
  destruct (Ascii.eqb CR c); [|reflexivity]. cbn [andb] in *.
  destruct b as [|x b]; cbn [app].
  - rewrite starts_with_cons. destruct (Ascii.eqb LF d) eqn:E; [|reflexivity].
    apply Ascii.eqb_eq in E. congruence.
  - exact H.
Qed.

Lemma no_comma_pair_at_head (c : ascii) (b t : Str.t) (d e : ascii) :
  includes SEP (c :: b) = false -> d <> CR -> d <> LF -> e <> LF ->
  starts_with (lit "," ++ SEP) (c :: b ++ d :: e :: t) = false.
Proof.
  intros H Hd1 Hd2 He.
  change (lit "," ++ SEP) with (","%char :: SEP).
  rewrite starts_with_cons.
  destruct (Ascii.eqb ","%char c); [|reflexivity]. cbn [andb].
  destruct b as [|x b]; cbn [app].
  - unfold SEP. rewrite starts_with_cons.
    destruct (Ascii.eqb CR d) eqn:E; [|reflexivity].
    apply Ascii.eqb_eq in E. congruence.
  - apply includes_tail in H.
    apply (no_pair_at_head x b (e :: t) d H Hd2).
Qed.

(** Inside a record that is followed by a comma and the separator no
    separator starts. *)
Lemma sep_at_before_comma (c : ascii) (b rest : Str.t) :
  includes SEP (c :: b) = false ->
  sep_at (c :: b ++ lit "," ++ SEP ++ rest) = 0.
Proof.
  intros H. unfold sep_at.
  change (lit "," ++ SEP ++ rest) with (","%char :: CR :: LF :: rest).
  rewrite (no_comma_pair_at_head c b (LF :: rest) ","%char CR H)
    by discriminate.
  rewrite (no_pair_at_head c b (CR :: LF :: rest) ","%char H) by discriminate.
  reflexivity.
Qed.

Lemma last_char_cons (c : ascii) (b : Str.t) :
  b <> [] -> last_char (c :: b) = last_char b.
Proof.
  intros Hb. unfold last_char. cbn [rev].
  destruct (rev b) as [|x r] eqn:E.
  - apply (f_equal (@rev ascii)) in E. rewrite rev_involutive in E. contradiction.
  - reflexivity.
Qed.

(** Inside the last record, which is followed by the separator alone, no
    separator starts, provided the record does not end with a comma. *)
Lemma sep_at_before_sep (c : ascii) (b rest : Str.t) :
  includes SEP (c :: b) = false -> last_char (c :: b) <> Some ","%char ->
  sep_at (c :: b ++ SEP ++ rest) = 0.
Proof.
  intros H Hlast. unfold sep_at.
  change (SEP ++ rest) with (CR :: LF :: rest).
  rewrite (no_pair_at_head c b (LF :: rest) CR H) by discriminate.
  assert (Hc : starts_with (lit "," ++ SEP) (c :: b ++ CR :: LF :: rest) = false).
  { change (lit "," ++ SEP) with (","%char :: SEP).
    rewrite starts_with_cons.
    destruct (Ascii.eqb ","%char c) eqn:E; [|reflexivity]. cbn [andb].
    apply Ascii.eqb_eq in E. subst c.
    destruct b as [|x b]; cbn [app].
    - exfalso. apply Hlast. reflexivity.
    - apply includes_tail in H.
      apply (no_pair_at_head x b (LF :: rest) CR H). discriminate. }
  rewrite Hc. reflexivity.
Qed.

Lemma last_char_app (a : Str.t) (c : ascii) (b : Str.t) :
  last_char (a ++ c :: b) = last_char (c :: b).
Proof.
  induction a as [|x a IH]; [reflexivity|].
  change ((x :: a) ++ c :: b) with (x :: (a ++ c :: b)).
  rewrite last_char_cons by (destruct a; discriminate). exact IH.
Qed.

Lemma split_record_comma (r cur rest : Str.t) :
  includes SEP r = false ->
  split_go 0 cur (r ++ lit "," ++ SEP ++ rest) = (rev cur ++ r) :: split_go 0 [] rest.
Proof.
  intros H. rewrite scan_piece.
  - change (lit "," ++ SEP ++ rest) with (","%char :: CR :: LF :: rest).
    cbn [split_go]. change (sep_at (","%char :: CR :: LF :: rest)) with 3.
    rewrite rev_app_distr, rev_involutive. reflexivity.
  - intros a c b ->. apply sep_at_before_comma.
    apply includes_suffix_false with a. exact H.
Qed.

Lemma split_record_last (r cur : Str.t) :
  plain r ->
  split_go 0 cur (r ++ SEP ++ lit "]") = [rev cur ++ r; lit "]"].
Proof.
  intros [H Hlast]. rewrite scan_piece.
  - cbn. rewrite rev_app_distr, rev_involutive. reflexivity.
  - intros a c b ->. apply sep_at_before_sep.
    + apply includes_suffix_false with a. exact H.
    + rewrite <- (last_char_app a c b). exact Hlast.
Qed.

Lemma split_body (rs : list Str.t) :
  rs <> [] -> Forall plain rs ->
  split_go 0 [] (join (lit "," ++ SEP) rs ++ SEP ++ lit "]") = rs ++ [lit "]"].
Proof.
  intros Hne Hrs. induction Hrs as [|r rs Hr Hrs IH]; [congruence|].
  destruct rs as [|r2 rs].
  - cbn [join app]. apply (split_record_last r [] Hr).
  - change (join (lit "," ++ SEP) (r :: r2 :: rs))
      with (r ++ (lit "," ++ SEP) ++ join (lit "," ++ SEP) (r2 :: rs)).
    rewrite <- !app_assoc.
    rewrite (split_record_comma r [] _ (proj1 Hr)).
    rewrite app_assoc. cbn [rev app].
    rewrite <- app_assoc. rewrite IH by discriminate. reflexivity.
Qed.

(** The lines of a file in the layout are its brackets and its records. *)
Lemma split_layout (rs : list Str.t) :
  rs <> [] -> Forall plain rs ->
  split_lines (layout rs) = lit "[" :: rs ++ [lit "]"].
Proof.
  intros Hne Hrs. unfold split_lines, layout.
  change (lit "[" ++ SEP ++ join (lit "," ++ SEP) rs ++ SEP ++ lit "]")
    with ("["%char :: CR :: LF :: (join (lit "," ++ SEP) rs ++ SEP ++ lit "]")).
  cbn [split_go]. 
  change (sep_at ("["%char :: CR :: LF :: join (lit "," ++ SEP) rs ++ SEP ++ lit "]"))
    with 0.
  cbn [split_go].
  change (sep_at (CR :: LF :: join (lit "," ++ SEP) rs ++ SEP ++ lit "]")) with 2.
  cbn [rev app]. rewrite (split_body rs Hne Hrs). reflexivity.
Qed.

Lemma strip_comma_plain (r : Str.t) : plain r -> strip_comma r = r.
Proof.
  intros [_ H]. unfold strip_comma. destruct (last_char r) as [c|]; [|reflexivity].
  destruct (Ascii.eqb c ","%char) eqn:E; [|reflexivity].
  apply Ascii.eqb_eq in E. subst c. contradiction.
Qed.

Lemma removelast_snoc {A} (l : list A) (x : A) : removelast (l ++ [x]) = l.
Proof. apply removelast_last. Qed.

(** Read in one piece, a file in the layout keeps the records the line
    test accepts. *)
Lemma kept_lines_layout (pattern : Str.t) (rs : list Str.t) :
  rs <> [] -> Forall plain rs ->
  kept_lines pattern [layout rs] = filter (keep_line pattern) rs.
Proof.
  intros Hne Hrs. unfold kept_lines. cbn [fold_left on_data fst app].
  rewrite (split_layout rs Hne Hrs).
  change (lit "[" :: rs ++ [lit "]"]) with ((lit "[" :: rs) ++ [lit "]"]).
  rewrite removelast_snoc. cbn [filter].
  change (keep_line pattern (lit "[")) with false. cbn iota.
  induction Hrs as [|r rs Hr Hrs IH]; [reflexivity|].
  cbn [filter]. destruct (keep_line pattern r).
  - cbn [map]. rewrite (strip_comma_plain r Hr).
    destruct rs as [|r2 rs]; [reflexivity|]. rewrite IH by discriminate. reflexivity.
  - destruct rs as [|r2 rs]; [reflexivity|]. apply IH. discriminate.
Qed.

(** *** The chunks of the read stream *)

Lemma split_go_nonempty (s : Str.t) : forall skip cur, split_go skip cur s <> [].
Proof.
  induction s as [|c s IH]; intros skip cur; cbn [split_go]; [discriminate|].
  destruct skip; [|apply IH]. destruct (sep_at (c :: s)); [apply IH | discriminate].
Qed.

Lemma sep_at_length (s : Str.t) : sep_at s <= length s.
Proof.
  unfold sep_at. destruct (starts_with (lit "," ++ SEP) s) eqn:E1.
  - destruct (starts_with_inv _ _ E1) as [r ->]. rewrite length_app. simpl. lia.
  - destruct (starts_with SEP s) eqn:E2; [|lia].
    destruct (starts_with_inv _ _ E2) as [r ->]. simpl. lia.
Qed.

(** A separator found in a text is found when more text follows. *)
Lemma sep_at_app (a c : Str.t) (k : nat) :
  sep_at a = S k -> sep_at (a ++ c) = S k.
Proof.
  unfold sep_at. destruct (starts_with (lit "," ++ SEP) a) eqn:E1.
  - rewrite (starts_with_app_l _ _ c E1). exact (fun H => H).
  - destruct (starts_with SEP a) eqn:E2; [|discriminate].
    rewrite (starts_with_app_l _ _ c E2).
    destruct (starts_with_inv _ _ E2) as [r ->]. intros H. exact H.
Qed.

(** A separator that starts in a text and ends beyond it: the text is
    one of three, and splitting it finds nothing. *)
Lemma straddle (a c : Str.t) (k : nat) :
  a <> [] -> sep_at a = 0 -> sep_at (a ++ c) = S k ->
  a = lit "," \/ a = ","%char :: [CR] \/ a = [CR].
Proof.
  intros Hne Ha Hf. unfold sep_at in *.
  destruct (starts_with (lit "," ++ SEP) a) eqn:E1; [discriminate|].
  destruct (starts_with SEP a) eqn:E2; [discriminate|].
  destruct a as [|x [|y [|z a]]]; [congruence| | |].
  - destruct (starts_with (lit "," ++ SEP) ([x] ++ c)) eqn:F1.
    + destruct (starts_with_inv _ _ F1) as [r Hr]. injection Hr as -> _. tauto.
    + destruct (starts_with SEP ([x] ++ c)) eqn:F2; [|discriminate].
      destruct (starts_with_inv _ _ F2) as [r Hr]. injection Hr as -> _. tauto.
  - destruct (starts_with (lit "," ++ SEP) ([x; y] ++ c)) eqn:F1.
    + destruct (starts_with_inv _ _ F1) as [r Hr]. injection Hr as -> -> _. tauto.
    + destruct (starts_with SEP ([x; y] ++ c)) eqn:F2; [|discriminate].
      destruct (starts_with_inv _ _ F2) as [r Hr]. injection Hr as -> -> _.
      discriminate E2.
  - exfalso.
    destruct (starts_with (lit "," ++ SEP) ((x :: y :: z :: a) ++ c)) eqn:F1.
    + destruct (starts_with_inv _ _ F1) as [r Hr]. injection Hr as -> -> -> _.
      discriminate E1.
    + destruct (starts_with SEP ((x :: y :: z :: a) ++ c)) eqn:F2; [|discriminate].
      destruct (starts_with_inv _ _ F2) as [r Hr]. injection Hr as -> -> _.
      discriminate E2.
Qed.

Lemma removelast_cons {A} (x : A) (l : list A) :
  l <> [] -> removelast (x :: l) = x :: removelast l.
Proof. destruct l; [congruence | reflexivity]. Qed.

Lemma last_cons {A} (x : A) (l : list A) (d : A) :
  l <> [] -> last (x :: l) d = last l d.
Proof. destruct l; [congruence | reflexivity]. Qed.

(** Splitting a text that grows: the pieces but the last stay, and the
    last is split again with what was added. *)
Lemma split_go_app (c : Str.t) (a : Str.t) :
  forall skip cur,
    skip <= length a ->
    (skip <> 0 -> cur = []) ->
    (skip = 0 -> split_go 0 [] (rev cur ++ a ++ c) = split_go 0 cur (a ++ c)) ->
    split_go skip cur (a ++ c)
    = removelast (split_go skip cur a)
      ++ split_go 0 [] (last (split_go skip cur a) [] ++ c).
Proof.
  induction a as [|x a IH]; intros skip cur Hlen Hcur Hscan.
  - cbn [length] in Hlen. assert (skip = 0) by lia. subst skip.
    cbn [split_go removelast last app]. symmetry. apply (Hscan eq_refl).
  - change ((x :: a) ++ c) with (x :: a ++ c) in *. destruct skip as [|k].
    + specialize (Hscan eq_refl).
      destruct (sep_at (x :: a)) as [|k] eqn:Ha.
      * destruct (sep_at (x :: a ++ c)) as [|k] eqn:Hf.
        -- cbn [split_go]. rewrite Ha, Hf. apply IH; [lia | congruence |].
           intros _. cbn [rev]. rewrite <- app_assoc. cbn [app].
           rewrite Hscan. cbn [split_go]. rewrite Hf. reflexivity.
        -- assert (Hcases : x :: a = lit "," \/ x :: a = ","%char :: [CR] \/ x :: a = [CR]).
           { apply (straddle (x :: a) c k); [discriminate | exact Ha | exact Hf]. }
           assert (Hone : split_go 0 cur (x :: a) = [rev cur ++ x :: a]).
           { destruct Hcases as [H|[H|H]]; rewrite H; cbn; try reflexivity.
             rewrite <- app_assoc. reflexivity. }
           rewrite Hone. cbn [removelast last app].
           rewrite <- app_assoc. symmetry. exact Hscan.
      * pose proof (sep_at_app (x :: a) c k Ha) as Hf.
        change ((x :: a) ++ c) with (x :: a ++ c) in Hf.
        pose proof (sep_at_length (x :: a)) as Hk. rewrite Ha in Hk. cbn [length] in Hk.
        cbn [split_go]. rewrite Ha, Hf.
        rewrite removelast_cons by apply split_go_nonempty.
        rewrite last_cons by apply split_go_nonempty.
        cbn [app]. f_equal. apply IH; [lia | reflexivity | reflexivity].
    + rewrite (Hcur (Nat.neq_succ_0 k)). cbn [split_go].
      cbn [length] in Hlen. apply IH; [lia | reflexivity | reflexivity].
Qed.

Lemma split_lines_app (a c : Str.t) :
  split_lines (a ++ c)
  = removelast (split_lines a) ++ split_lines (last (split_lines a) [] ++ c).
Proof.
  unfold split_lines. apply split_go_app; [lia | congruence | reflexivity].
Qed.

Lemma last_append {A} (l l' : list A) (d : A) :
  l' <> [] -> last (l ++ l') d = last l' d.
Proof.
  intros H. induction l as [|x l IH]; [reflexivity|].
  change ((x :: l) ++ l') with (x :: (l ++ l')).
  rewrite last_cons by (destruct l; [exact H | discriminate]). exact IH.
Qed.

(** What is kept does not depend on how the stream cuts the file. *)
Lemma fold_on_data (pattern : Str.t) (chunks : list Str.t) :
  forall a acc,
    fold_left (on_data pattern) chunks
      (acc ++ map strip_comma (filter (keep_line pattern) (removelast (split_lines a))),
       last (split_lines a) [])
    = (acc ++ map strip_comma
                (filter (keep_line pattern) (removelast (split_lines (a ++ concat chunks)))),
       last (split_lines (a ++ concat chunks)) []).
Proof.
  induction chunks as [|chunk chunks IH]; intros a acc.
  - cbn [fold_left concat]. rewrite app_nil_r. reflexivity.
  - cbn [fold_left concat on_data].
    rewrite app_assoc. rewrite <- (IH (a ++ chunk) acc).
    rewrite (split_lines_app a chunk).
    rewrite removelast_app by apply split_go_nonempty.
    rewrite last_append by apply split_go_nonempty.
    rewrite filter_app, map_app, <- !app_assoc. reflexivity.
Qed.

Lemma kept_lines_chunks (pattern : Str.t) (chunks : list Str.t) :
  kept_lines pattern chunks = kept_lines pattern [concat chunks].
Proof.
  unfold kept_lines.
  change (@nil Str.t, @nil ascii)
    with ([] ++ map strip_comma
                  (filter (keep_line pattern) (removelast (split_lines []))),
          last (split_lines []) []).
  rewrite !fold_on_data. cbn [concat]. rewrite app_nil_r. reflexivity.
Qed.

End DeleteFacts.

(** ** Saving a record *)

Module SaveFacts.

Import Str StrFacts Js DBHandler DBHandlerFacts DeleteFacts Document.

Lemma update_same (disk : Fs.t) (p : Str.t) (e : Fs.entry) : Fs.update disk p e p = e.
Proof. unfold Fs.update. rewrite eqb_refl. reflexivity. Qed.

Lemma update_other (disk : Fs.t) (p q : Str.t) (e : Fs.entry) :
  q <> p -> Fs.update disk p e q = disk q.
Proof.
  intros H. unfold Fs.update. apply eqb_neq in H. rewrite H. reflexivity.
Qed.

Section Save.

Context (P : Platform).

Lemma id_pattern_nonempty (d : Document.t) : Str.eqb (id_pattern P d) [] = false.
Proof. reflexivity. Qed.

(** The first save of a record appends its text. *)
Lemma save_first (d : Document.t) (h : DBHandler.t) (disk : Fs.t) (p : Str.t)
  (mode : Z) (file : Str.t) :
  saved d = false -> dbFilePath h = Some p -> disk p = Fs.Node true mode file ->
  Document.save P d h disk
  = (set_saved d true,
     Fs.update disk p (Fs.Node true mode (save_file file (toString P d))),
     Resolved (toString P d)).
Proof.
  intros Hs Hh Hdisk. unfold Document.save, DBHandler.is_connected, DBHandler.save.
  rewrite Hh, Hs, Hdisk. reflexivity.
Qed.

Lemma delete_by_match_rejected (h : DBHandler.t) (disk disk1 : Fs.t)
  (pattern : Str.t) (e : error) :
  delete_by_match P h disk pattern = (disk1, Rejected e) -> disk1 = disk.
Proof.
  unfold delete_by_match. destruct (dbFilePath h) as [p|]; [|congruence].
  destruct (Str.eqb pattern []); [congruence|].
  destruct (disk p) as [c| |[|] mode content]; congruence.
Qed.

(** C3.  Saving a record that is marked persisted, through a connected
    handler.  When the file can be read, [delete_by_match] runs first on
    the pattern made of the id mark, a quote, a colon, a quote and the
    id: none of the lines it writes back holds the (encoded) pattern;
    then the new text of the record is appended to what was written
    back, so the file is the layout of the kept lines followed by the new
    encoding alone; then the record is marked persisted and the promise
    resolves.  When the removal is rejected (the file cannot be read),
    [save] is rejected with the same error, the disk is what it was, so
    nothing was appended, and the record is unchanged.  On a file in the
    layout whose records hold no CR LF pair and end with no comma, and
    whose chunks put end to end are the file, the kept lines are exactly
    the records that are not empty, are no bracket and do not hold the
    pattern, in their order. *)
Theorem save_update_replaces (d : Document.t) (h : DBHandler.t) (disk : Fs.t)
  (p : Str.t) :
  saved d = true -> dbFilePath h = Some p ->
  (forall mode file, disk p = Fs.Node true mode file ->
     exists disk',
       Document.save P d h disk = (set_saved d true, disk', Resolved (toString P d))
       /\ disk' p
          = Fs.Node true mode
              (save_file
                 (overwrite_file
                    (kept_lines (encode_str (id_pattern P d)) (read_chunks P file)))
                 (toString P d))
       /\ (forall q, q <> p -> disk' q = disk q)
       /\ Forall (fun line => includes (encode_str (id_pattern P d)) line = false)
            (kept_lines (encode_str (id_pattern P d)) (read_chunks P file))
       /\ (disk' p = Fs.Node true mode (layout [encode_str (toString P d)])
           \/ disk' p
              = Fs.Node true mode
                  (layout (kept_lines (encode_str (id_pattern P d)) (read_chunks P file)
                           ++ [encode_str (toString P d)]))))
  /\ ((forall mode file, disk p <> Fs.Node true mode file) ->
      Document.save P d h disk = (d, disk, Rejected ReadError))
  /\ (forall disk1 e,
        delete_by_match P h disk (id_pattern P d) = (disk1, Rejected e) ->
        Document.save P d h disk = (d, disk, Rejected e))
  /\ (forall rs,
        rs <> [] -> Forall plain rs ->
        concat (read_chunks P (layout rs)) = layout rs ->
        kept_lines (encode_str (id_pattern P d)) (read_chunks P (layout rs))
        = filter (keep_line (encode_str (id_pattern P d))) rs).
Proof.
  intros Hs Hh. split; [|split; [|split]].
  - intros mode file Hdisk.
    set (kept := kept_lines (encode_str (id_pattern P d)) (read_chunks P file)).
    pose proof (kept_lines_clean (encode_str (id_pattern P d)) (read_chunks P file))
      as Hclean. fold kept in Hclean.
    eexists. split; [|split; [|split; [|split]]].
    + unfold Document.save, DBHandler.is_connected, delete_by_match, DBHandler.save.
      rewrite Hh, Hs, id_pattern_nonempty, Hdisk. cbn [negb].
      rewrite update_same. reflexivity.
    + rewrite update_same. reflexivity.
    + intros q Hq. rewrite !update_other by exact Hq. reflexivity.
    + apply Forall_impl with (2 := Hclean). intros line [H _]. exact H.
    + rewrite update_same.
      unfold delete_by_match_file, write_fresh, encode_str. fold encode_str.
      change (replaceAll newLine newLine_encoded (id_pattern P d))
        with (encode_str (id_pattern P d)). fold kept.
      destruct (save_after_prepare kept (toString P d)) as [H|H]; rewrite H.
      * left. reflexivity.
      * right. rewrite (map_encode_clean _ _ Hclean). reflexivity.
  - intros Hno. unfold Document.save, DBHandler.is_connected, delete_by_match.
    rewrite Hh, Hs, id_pattern_nonempty. cbn [negb].
    destruct (disk p) as [c| |[|] mode content] eqn:Hdisk; try reflexivity.
    exfalso. apply (Hno mode content). reflexivity.
  - intros disk1 e Hdel.
    pose proof (delete_by_match_rejected _ _ _ _ _ Hdel) as ->.
    unfold Document.save, DBHandler.is_connected. rewrite Hh, Hs. cbn [negb].
    rewrite Hdel. reflexivity.
  - intros rs Hne Hrs Hwhole.
    rewrite kept_lines_chunks, Hwhole. apply kept_lines_layout; assumption.
Qed.

End Save.

Lemma save_update_replaces_witness :
  exists disk',
    Document.save Reference.platform Reference.saved_doc Reference.connected
      (Reference.disk_with 33188 Reference.two_records)
    = (set_saved Reference.saved_doc true, disk',
       Resolved (toString Reference.platform Reference.saved_doc))
    /\ disk' Reference.db_path
       = Fs.Node true 33188
           (layout [Reference.stringify Reference.other_record;
                    toString Reference.platform Reference.saved_doc]).
Proof.
  destruct (proj1 (save_update_replaces Reference.platform Reference.saved_doc
                     Reference.connected
                     (Reference.disk_with 33188 Reference.two_records)
                     Reference.db_path eq_refl eq_refl)
              33188%Z Reference.two_records eq_refl)
    as [disk' [Hsave [Hfile _]]].
  exists disk'. split; [exact Hsave|]. rewrite Hfile. vm_compute. reflexivity.
Defined.

End SaveFacts.

(** ** Finding and deleting by id *)

Module FindFacts.

Import Str StrFacts Js Obj JsFacts DBHandler DBHandlerFacts Model.

Lemma filter_result_total (f : value -> result bool) (g : value -> bool)
  (docs : list value) :
  Forall (fun doc => f doc = Ok (g doc)) docs ->
  filter_result f docs = Ok (filter g docs).
Proof.
  induction 1 as [|doc docs Hdoc Hdocs IH]; [reflexivity|].
  cbn [filter_result filter]. rewrite Hdoc, IH. cbn [bind].
  destruct (g doc); reflexivity.
Qed.

Section Delete.

Context (P : Platform).

Lemma hasOwn_prop_get (doc : value) (k : Str.t) (b : bool) :
  hasOwn P doc k = Ok b -> exists v, prop_get P doc k = Ok v.
Proof.
  destruct doc; simpl; intros H; try discriminate; eauto.
Qed.

Lemma exclude_with_ids (docs : list value) (ids : list Str.t) :
  Forall (fun doc => hasOwn P doc Document.idMark = Ok true) docs ->
  exclude_docs_array_by_ids P (VArray docs) ids
  = Ok (filter (fun doc => negb (has_id_among P ids doc)) docs).
Proof.
  intros H. unfold exclude_docs_array_by_ids. cbn [array_items bind].
  apply filter_result_total. apply Forall_impl with (2 := H).
  intros doc Hdoc. rewrite Hdoc. cbn [bind negb].
  destruct (hasOwn_prop_get _ _ _ Hdoc) as [v Hv].
  unfold has_id_among. rewrite Hv. reflexivity.
Qed.

Lemma include_any (docs : list value) (ids : list Str.t) :
  Forall (fun doc => exists b, hasOwn P doc Document.idMark = Ok b) docs ->
  include_docs_array_by_ids P (VArray docs) ids
  = Ok (filter (fun doc => match hasOwn P doc Document.idMark with
                           | Ok true => has_id_among P ids doc
                           | _ => false
                           end) docs).
Proof.
  intros H. unfold include_docs_array_by_ids. cbn [array_items bind].
  apply filter_result_total. apply Forall_impl with (2 := H).
  intros doc [b Hdoc]. rewrite Hdoc. cbn [bind].
  destruct b; cbn [negb]; [|reflexivity].
  destruct (hasOwn_prop_get _ _ _ Hdoc) as [v Hv].
  unfold has_id_among. rewrite Hv. reflexivity.
Qed.

Lemma include_with_ids (docs : list value) (ids : list Str.t) :
  Forall (fun doc => hasOwn P doc Document.idMark = Ok true) docs ->
  include_docs_array_by_ids P (VArray docs) ids
  = Ok (filter (has_id_among P ids) docs).
Proof.
  intros H. rewrite include_any.
  - f_equal. apply filter_ext_in. intros doc Hin.
    rewrite Forall_forall in H. rewrite (H _ Hin). reflexivity.
  - apply Forall_impl with (2 := H). eauto.
Qed.

Lemma find_parsed (h : DBHandler.t) (disk : Fs.t) (p : Str.t) (mode : Z)
  (file : Str.t) (docArray : value) :
  dbFilePath h = Some p -> disk p = Fs.Node true mode file ->
  JSON_parse P (load_file file) = Some docArray ->
  find P h disk = Resolved docArray.
Proof.
  intros Hh Hdisk Hparse. unfold find, DBHandler.is_connected, load.
  rewrite Hh, Hdisk. cbn [negb]. rewrite Hparse. reflexivity.
Qed.

Lemma hand_back_unsaved (m : Model.t) (timeCheck now : Z) (random : Str.t)
  (docs : list value) (d : Document.t) :
  In (AsDocument (Some d)) (hand_back P m true false timeCheck now random docs) ->
  Document.saved d = false.
Proof.
  unfold hand_back. intros Hin. apply in_map_iff in Hin.
  destruct Hin as [doc [Heq _]]. injection Heq as Heq.
  unfold Document.reconstruct_doc in Heq.
  destruct (Document.new _ _ _ _ _ _) as [d0|]; [|discriminate].
  destruct (Document.first_item _) as [c|]; [|discriminate].
  destruct (Schema.is_string c _); [discriminate|].
  destruct (_ <=? _)%Z; [discriminate|].
  injection Heq as <-. reflexivity.
Qed.

(** C6, amended.  For a connected handler whose file parses to the
    records [docs], every one of which has an [_id] of its own:
    [findByIdAndDelete] rewrites the file with exactly the records whose
    [_id] is not among the requested ids, in file order, each as the text
    [JSON.stringify] gives for it (the bytes it had, when it was stored
    in that form), and resolves with the records whose [_id] is among
    them; handed back as documents, these are marked not persisted, so
    saving one of them appends its text to the file and deletes
    nothing. *)
Theorem findByIdAndDelete_removes (m : Model.t) (h : DBHandler.t) (disk : Fs.t)
  (p : Str.t) (mode : Z) (file : Str.t) (id : value) (ids : list Str.t)
  (docs : list value) (asDocument : bool) (timeCheck now : Z) (random : Str.t) :
  dbFilePath h = Some p ->
  disk p = Fs.Node true mode file ->
  valid_id id = Some ids ->
  JSON_parse P (load_file file) = Some (VArray docs) ->
  Forall (fun doc => hasOwn P doc Document.idMark = Ok true) docs ->
  findByIdAndDelete P m h disk id asDocument timeCheck now random
  = (Fs.update disk p
       (Fs.Node true mode
          (overwrite_file
             (map (JSON_stringify P)
                (filter (fun doc => negb (has_id_among P ids doc)) docs)))),
     Resolved (hand_back P m asDocument false timeCheck now random
                 (filter (has_id_among P ids) docs)))
  /\ (forall d,
        In (AsDocument (Some d))
           (hand_back P m true false timeCheck now random
              (filter (has_id_among P ids) docs)) ->
        Document.saved d = false
        /\ forall disk2 mode2 file2,
             disk2 p = Fs.Node true mode2 file2 ->
             Document.save P d h disk2
             = (Document.set_saved d true,
                Fs.update disk2 p
                  (Fs.Node true mode2 (save_file file2 (Document.toString P d))),
                Resolved (Document.toString P d))).
Proof.
  intros Hh Hdisk Hid Hparse Hids. split.
  - unfold findByIdAndDelete, DBHandler.is_connected. rewrite Hh, Hid. cbn [negb].
    rewrite (find_parsed h disk p mode file _ Hh Hdisk Hparse).
    rewrite (exclude_with_ids _ _ Hids), (include_with_ids _ _ Hids).
    unfold overwrite, write_whole. rewrite Hh, Hdisk. reflexivity.
  - intros d Hin. pose proof (hand_back_unsaved _ _ _ _ _ _ Hin) as Hs.
    split; [exact Hs|]. intros disk2 mode2 file2 Hdisk2.
    unfold Document.save, DBHandler.is_connected, DBHandler.save.
    rewrite Hh, Hs, Hdisk2. reflexivity.
Qed.

End Delete.

(** C6, as stated, fails on a stored record that has no [_id]: it
    matches no id, yet it is not written back. *)
Lemma idless_record_removed :
  ~ (forall (P : Platform) (m : Model.t) (h : DBHandler.t) (disk : Fs.t)
            (p : Str.t) (mode : Z) (file : Str.t) (id : value) (ids : list Str.t)
            (docs : list value) (asDocument : bool) (timeCheck now : Z)
            (random : Str.t),
        dbFilePath h = Some p ->
        disk p = Fs.Node true mode file ->
        valid_id id = Some ids ->
        JSON_parse P (load_file file) = Some (VArray docs) ->
        fst (findByIdAndDelete P m h disk id asDocument timeCheck now random) p
        = Fs.Node true mode
            (overwrite_file
               (map (JSON_stringify P)
                  (filter (fun doc => negb (has_id_among P ids doc)) docs)))).
Proof.
  intros H.
  specialize (H Reference.platform Reference.story_model Reference.connected
                (Reference.disk_with 33188 Reference.idless_file)
                Reference.db_path 33188%Z Reference.idless_file
                (VStr (lit "0-1000-abcdef012345")) [lit "0-1000-abcdef012345"]
                [Reference.idless_record] false 3000%Z 3001%Z []
                eq_refl eq_refl eq_refl eq_refl).
  vm_compute in H. discriminate H.
Qed.

Lemma findByIdAndDelete_removes_witness :
  fst (findByIdAndDelete Reference.platform Reference.story_model Reference.connected
         (Reference.disk_with 33188 Reference.two_records)
         (VStr (lit "0-1000-abcdef012345")) true 3000 3001 []) Reference.db_path
  = Fs.Node true 33188 (layout [Reference.stringify Reference.other_record]).
Proof.
  rewrite (proj1 (findByIdAndDelete_removes Reference.platform Reference.story_model
                    Reference.connected
                    (Reference.disk_with 33188 Reference.two_records)
                    Reference.db_path 33188%Z Reference.two_records
                    (VStr (lit "0-1000-abcdef012345")) [lit "0-1000-abcdef012345"]
                    [VObject [(Document.idMark, VStr (lit "0-1000-abcdef012345"));
                              (Reference.k_title, VStr (lit "A"));
                              (Document.createTMark, VStr (lit "T1000"));
                              (Document.updateTMark, VStr (lit "T1000"))];
                     Reference.other_record]
                    true 3000%Z 3001%Z []
                    eq_refl eq_refl eq_refl eq_refl
                    ltac:(repeat constructor))).
  vm_compute. reflexivity.
Defined.

End FindFacts.

(** ** Writing: what [save] leaves in the file *)

Module WriteFacts.

Import Str DBHandler StrFacts DBHandlerFacts.

Lemma prepare_sizes (size : nat) (data : Str.t) :
  snd (prepare_data_and_truncate size data) <= size
  /\ snd (prepare_data_and_truncate size data)
     <= length (fst (prepare_data_and_truncate size data)).
Proof.
  unfold prepare_data_and_truncate.
  destruct (size =? 0) eqn:E0; [simpl; lia|].
  destruct (size =? 2) eqn:E2.
  { apply Nat.eqb_eq in E2. subst. simpl. rewrite length_app. simpl. lia. }
  apply Nat.eqb_neq in E0.
  destruct (size <=? 2 + length SEP) eqn:E4; simpl.
  - rewrite length_app. simpl. lia.
  - apply Nat.leb_gt in E4. simpl in E4. rewrite length_app. simpl. lia.
Qed.

(** X1.  Whatever the file holds, [save] leaves the old content without
    its last [truncateIdx] characters, followed by the prepared text:
    the text written over the end of the file (flag ['r+'], which does
    not truncate) always reaches past the old end, so nothing of the old
    tail survives behind it.  The other writer, [#save_with_writeFile],
    which cuts the file and appends, would leave the same file. *)
Theorem save_cuts_then_appends (file dataStr : Str.t) :
  save_file file dataStr
  = firstn (length file - snd (prepare_data_and_truncate (length file) dataStr)) file
    ++ fst (prepare_data_and_truncate (length file) dataStr)
  /\ save_with_writeFile file
       (length file - snd (prepare_data_and_truncate (length file) dataStr))
       (fst (prepare_data_and_truncate (length file) dataStr))
     = save_file file dataStr.
Proof.
  pose proof (prepare_sizes (length file) dataStr) as [Hs Hd].
  unfold save_file, save_with_writeFile, ftruncate, write_at.
  destruct (prepare_data_and_truncate (length file) dataStr) as [docStr truncateIdx].
  simpl in *.
  rewrite (skipn_all2 file) by lia.
  replace (length file - truncateIdx - length file) with 0 by lia.
  simpl. rewrite !app_nil_r. split; reflexivity.
Qed.

End WriteFacts.

(** ** Loading: what [load] makes of a stored file *)

Module LoadFacts.

Import Str DBHandler StrFacts DBHandlerFacts DeleteFacts.

Lemma starts_with_length (p s : Str.t) : starts_with p s = true -> length p <= length s.
Proof.
  revert s. induction p as [|a p IH]; intros [|b s] H; simpl in *; try lia; try discriminate.
  apply andb_true_iff in H. destruct H as [_ H]. apply IH in H. lia.
Qed.

(** A pattern cannot match across a character it does not hold. *)
Lemma starts_with_barrier (p a : Str.t) (c : ascii) (b : Str.t) :
  ~ In c p ->
  starts_with p (a ++ c :: b) = starts_with p a.
Proof.
  revert a. induction p as [|x p IH]; intros a Hc.
  - destruct a; reflexivity.
  - destruct a as [|y a]; simpl.
    + destruct (Ascii.eqb x c) eqn:E; [|reflexivity].
      apply Ascii.eqb_eq in E. subst. exfalso. apply Hc. left. reflexivity.
    + rewrite IH; [reflexivity|]. intros H. apply Hc. right. exact H.
Qed.

Lemma replace_go_barrier (pat rep : Str.t) (c : ascii) (b : Str.t) :
  pat <> [] -> ~ In c pat ->
  forall a skip, skip <= length a ->
    replace_go pat rep skip (a ++ c :: b)
    = replace_go pat rep skip a ++ c :: replace_go pat rep 0 b.
Proof.
  intros Hp Hc. induction a as [|x a IH]; intros skip Hs.
  - simpl in Hs. assert (skip = 0) by lia. subst. simpl.
    destruct (starts_with pat (c :: b)) eqn:E; [|reflexivity].
    exfalso. destruct pat as [|y pat]; [congruence|].
    simpl in E. apply andb_true_iff in E. destruct E as [E _].
    apply Ascii.eqb_eq in E. subst. apply Hc. left. reflexivity.
  - simpl. destruct skip as [|k].
    + change (x :: a ++ c :: b) with ((x :: a) ++ c :: b).
      rewrite starts_with_barrier by exact Hc.
      destruct (starts_with pat (x :: a)) eqn:E.
      * apply starts_with_length in E. simpl in E.
        rewrite IH by lia. rewrite <- app_assoc. reflexivity.
      * rewrite IH by lia. reflexivity.
    + simpl in Hs. apply IH. lia.
Qed.

Lemma replaceAll_barrier (pat rep a : Str.t) (c : ascii) (b : Str.t) :
  pat <> [] -> ~ In c pat ->
  replaceAll pat rep (a ++ c :: b) = replaceAll pat rep a ++ c :: replaceAll pat rep b.
Proof.
  intros Hp Hc. destruct pat as [|y pat]; [congruence|].
  unfold replaceAll. apply replace_go_barrier; [exact Hp | exact Hc | lia].
Qed.

Lemma encode_barrier (a : Str.t) (c : ascii) (b : Str.t) :
  c <> CR -> c <> LF ->
  encode_str (a ++ c :: b) = encode_str a ++ c :: encode_str b.
Proof.
  intros H1 H2. unfold encode_str. apply replaceAll_barrier; [discriminate|].
  intros [H|[H|[]]]; congruence.
Qed.

(** Removing the separators passes over a line that holds none, as long
    as what follows the line does not start with LF. *)
Lemma remove_sep_line (rep r rest : Str.t) :
  includes SEP r = false -> starts_with [LF] rest = false ->
  replaceAll SEP rep (r ++ rest) = r ++ replaceAll SEP rep rest.
Proof.
  intros Hr Hrest. induction r as [|c r IH]; [reflexivity|].
  simpl app. rewrite replaceAll_step.
  - rewrite IH; [reflexivity|]. eapply includes_tail. exact Hr.
  - discriminate.
  - destruct rest as [|d t].
    + rewrite app_nil_r. apply includes_head. exact Hr.
    + apply no_pair_at_head; [exact Hr|].
      intros ->. simpl in Hrest. discriminate.
Qed.

Lemma remove_sep_body (rs : list Str.t) :
  Forall (fun r => includes SEP r = false) rs ->
  replaceAll SEP [] (join (lit "," ++ SEP) rs ++ SEP ++ lit "]")
  = join (lit ",") rs ++ lit "]".
Proof.
  induction 1 as [|r rs Hr Hrs IH].
  - reflexivity.
  - destruct rs as [|r' rs].
    + simpl join. rewrite remove_sep_line; [|exact Hr|reflexivity]. reflexivity.
    + change (join (lit "," ++ SEP) (r :: r' :: rs))
        with (r ++ (lit "," ++ SEP) ++ join (lit "," ++ SEP) (r' :: rs)).
      change (join (lit ",") (r :: r' :: rs))
        with (r ++ lit "," ++ join (lit ",") (r' :: rs)).
      rewrite <- !app_assoc.
      rewrite remove_sep_line; [|exact Hr|reflexivity].
      f_equal.
      change (lit "," ++ SEP ++ join (lit "," ++ SEP) (r' :: rs) ++ SEP ++ lit "]")
        with (","%char :: SEP ++ (join (lit "," ++ SEP) (r' :: rs) ++ SEP ++ lit "]")).
      rewrite replaceAll_step; [|discriminate|reflexivity].
      rewrite replaceAll_match by discriminate.
      rewrite IH. reflexivity.
Qed.

Lemma remove_sep_layout (rs : list Str.t) :
  Forall (fun r => includes SEP r = false) rs ->
  replaceAll SEP [] (layout rs) = lit "[" ++ join (lit ",") rs ++ lit "]".
Proof.
  intros H. unfold layout.
  change (lit "[" ++ SEP ++ join (lit "," ++ SEP) rs ++ SEP ++ lit "]")
    with ("["%char :: SEP ++ (join (lit "," ++ SEP) rs ++ SEP ++ lit "]")).
  rewrite replaceAll_step; [|discriminate|reflexivity].
  rewrite replaceAll_match by discriminate.
  rewrite remove_sep_body by exact H. reflexivity.
Qed.

Lemma decode_token_encode (t : Str.t) :
  includes newLine_encoded t = false ->
  replaceAll newLine_encoded newLine (encode_str t) = t.
Proof.
  intros H. pose proof (decode_encode t H) as D. unfold decode_str in D.
  rewrite (replaceAll_absent SEP) in D; [exact D|discriminate|].
  apply encode_no_newLine.
Qed.

Lemma decode_token_join (ts : list Str.t) :
  Forall (fun t => includes newLine_encoded t = false) ts ->
  replaceAll newLine_encoded newLine (join (lit ",") (map encode_str ts) ++ lit "]")
  = join (lit ",") ts ++ lit "]".
Proof.
  induction 1 as [|t ts Ht Hts IH].
  - reflexivity.
  - destruct ts as [|t' ts].
    + simpl join. simpl map. simpl join.
      change (encode_str t ++ lit "]") with (encode_str t ++ "]"%char :: []).
      rewrite replaceAll_barrier.
      * rewrite decode_token_encode by exact Ht. reflexivity.
      * discriminate.
      * vm_compute. intuition discriminate.
    + change (join (lit ",") (map encode_str (t :: t' :: ts)))
        with (encode_str t ++ lit "," ++ join (lit ",") (map encode_str (t' :: ts))).
      change (join (lit ",") (t :: t' :: ts))
        with (t ++ lit "," ++ join (lit ",") (t' :: ts)).
      rewrite <- !app_assoc.
      change (encode_str t ++ lit "," ++ join (lit ",") (map encode_str (t' :: ts)) ++ lit "]")
        with (encode_str t ++ ","%char :: (join (lit ",") (map encode_str (t' :: ts)) ++ lit "]")).
      rewrite replaceAll_barrier.
      * rewrite decode_token_encode by exact Ht. rewrite IH. reflexivity.
      * discriminate.
      * vm_compute. intuition discriminate.
Qed.

Lemma encoded_lines (ts : list Str.t) :
  Forall (fun r => includes SEP r = false) (map encode_str ts).
Proof.
  induction ts as [|t ts IH]; constructor; [apply encode_no_newLine | exact IH].
Qed.

Lemma load_layout (ts : list Str.t) :
  Forall (fun t => includes newLine_encoded t = false) ts ->
  load_file (layout (map encode_str ts)) = lit "[" ++ join (lit ",") ts ++ lit "]".
Proof.
  intros H. unfold load_file, decode_str.
  change (load_with_readStream (layout (map encode_str ts))) with (layout (map encode_str ts)).
  rewrite remove_sep_layout by apply encoded_lines.
  change (lit "[" ++ join (lit ",") (map encode_str ts) ++ lit "]")
    with ([] ++ "["%char :: (join (lit ",") (map encode_str ts) ++ lit "]")).
  rewrite replaceAll_barrier; [| discriminate | vm_compute; intuition discriminate].
  rewrite decode_token_join by exact H. reflexivity.
Qed.

Lemma encode_empty_inv (s : Str.t) : encode_str s = [] -> s = [].
Proof.
  destruct s as [|c s]; [reflexivity|]. intros H. exfalso.
  destruct (starts_with newLine (c :: s)) eqn:E.
  - apply starts_newLine_inv in E. destruct E as [-> [s' ->]].
    rewrite encode_pair in H. discriminate.
  - rewrite encode_one in H by exact E. discriminate.
Qed.

Lemma join_empty_inv (sep : Str.t) (l : list Str.t) :
  sep <> [] -> join sep l = [] -> l = [] \/ l = [[]].
Proof.
  intros Hs. destruct l as [|x l]; [left; reflexivity|].
  destruct l as [|y l]; simpl.
  - intros ->. right. reflexivity.
  - intros H. apply app_eq_nil in H. destruct H as [_ H].
    apply app_eq_nil in H. destruct H as [H _]. congruence.
Qed.

(** X2.  Texts that do not hold the new-line token, saved one after the
    other into an empty file and then loaded, come back as one JSON
    array text: an opening bracket, the texts as they were given (their
    CR LF pairs included) with a comma between them, a closing bracket.
    With no text saved, [load] gives ['[]']. *)
Theorem load_after_saves (ts : list Str.t) :
  Forall (fun t => includes newLine_encoded t = false) ts ->
  load_file (save_all [] ts) = lit "[" ++ join (lit ",") ts ++ lit "]".
Proof.
  intros H. destruct ts as [|t ts]; [reflexivity|].
  unfold save_all. simpl fold_left. rewrite save_file_empty.
  fold (save_all (layout [encode_str t]) ts).
  rewrite save_all_layout by discriminate.
  apply (load_layout (t :: ts) H).
Qed.

Lemma load_after_saves_witness :
  load_file (save_all [] [lit "{}"; lit "a" ++ newLine ++ lit "b"])
  = lit "[" ++ join (lit ",") [lit "{}"; lit "a" ++ newLine ++ lit "b"] ++ lit "]".
Proof.
  apply (load_after_saves [lit "{}"; lit "a" ++ newLine ++ lit "b"]).
  repeat constructor.
Defined.

(** X3.  The same for [overwrite]: whatever array of token-free texts
    the file is overwritten with, [load] gives the bracketed,
    comma-joined texts; an array whose join is empty leaves an empty
    file, which loads as ['[]']. *)
Theorem load_after_overwrite (strArray : list Str.t) :
  Forall (fun t => includes newLine_encoded t = false) strArray ->
  load_file (overwrite_file strArray)
  = lit "[" ++ join (lit ",") strArray ++ lit "]".
Proof.
  intros H. unfold overwrite_file, write_fresh, prepare_doc_arr_to_str.
  destruct (0 <? length (join (lit "," ++ SEP)
                           (map (fun str => replaceAll newLine newLine_encoded str) strArray)))
    eqn:E.
  - apply (load_layout strArray H).
  - apply Nat.ltb_ge in E.
    assert (J : join (lit "," ++ SEP) (map encode_str strArray) = []).
    { apply length_zero_iff_nil. unfold encode_str. lia. }
    unfold encode_str in J. rewrite J.
    apply join_empty_inv in J; [|discriminate].
    destruct strArray as [|s [|s' l]]; simpl in J.
    + reflexivity.
    + destruct J as [J|J]; [discriminate|]. injection J as J.
      apply encode_empty_inv in J. subst. reflexivity.
    + destruct J as [J|J]; discriminate.
Qed.

Lemma load_after_overwrite_witness :
  load_file (overwrite_file [lit "{}"; lit "x" ++ newLine])
  = lit "[" ++ join (lit ",") [lit "{}"; lit "x" ++ newLine] ++ lit "]".
Proof.
  apply (load_after_overwrite [lit "{}"; lit "x" ++ newLine]).
  repeat constructor.
Defined.

End LoadFacts.

(** ** Deleting by pattern: what is kept and what is lost *)

Module RewriteFacts.

Import Str DBHandler StrFacts DBHandlerFacts DeleteFacts.

Lemma plain_encode (rs : list Str.t) : Forall plain rs -> map encode_str rs = rs.
Proof.
  induction 1 as [|r rs [Hr _] _ IH]; [reflexivity|].
  simpl. rewrite IH. f_equal. apply replaceAll_absent; [discriminate | exact Hr].
Qed.

Lemma join_head_nonempty (sep r : Str.t) (rs : list Str.t) :
  r <> [] -> join sep (r :: rs) <> [].
Proof.
  intros Hr. destruct rs; simpl; [exact Hr|].
  destruct r; [congruence | discriminate].
Qed.

Lemma prepare_records (rs : list Str.t) :
  Forall plain rs -> (exists r rs', rs = r :: rs' /\ r <> []) ->
  prepare_doc_arr_to_str rs = layout rs.
Proof.
  intros Hp (r & rs' & -> & Hr).
  unfold prepare_doc_arr_to_str.
  change (map (fun str => replaceAll newLine newLine_encoded str) (r :: rs'))
    with (map encode_str (r :: rs')).
  rewrite (plain_encode _ Hp).
  destruct (0 <? length (join (lit "," ++ SEP) (r :: rs'))) eqn:E; [reflexivity|].
  apply Nat.ltb_ge in E. exfalso.
  apply (join_head_nonempty (lit "," ++ SEP) r rs' Hr).
  apply length_zero_iff_nil. lia.
Qed.

Lemma keep_line_nonempty (pattern line : Str.t) :
  keep_line pattern line = true -> line <> [].
Proof.
  unfold keep_line. intros H ->. simpl in H. discriminate.
Qed.

Lemma keep_line_pattern (pattern line : Str.t) :
  includes pattern line = true -> keep_line pattern line = false.
Proof.
  intros H. unfold keep_line. rewrite H. cbn [negb]. apply andb_false_r.
Qed.

(** On a file in the layout the removal writes back the records the
    line test keeps. *)
Lemma kept_of_layout (pattern : Str.t) (rs : list Str.t) (chunks : list Str.t) :
  rs <> [] -> Forall plain rs -> concat chunks = layout rs ->
  delete_by_match_file pattern chunks
  = prepare_doc_arr_to_str (filter (keep_line (encode_str pattern)) rs).
Proof.
  intros Hne Hp Hc. unfold delete_by_match_file, write_fresh.
  fold (encode_str pattern).
  rewrite kept_lines_chunks, Hc, kept_lines_layout by assumption. reflexivity.
Qed.

Lemma Forall_filter_keep {A} (Q : A -> Prop) (f : A -> bool) (l : list A) :
  Forall Q l -> Forall Q (filter f l).
Proof.
  induction 1 as [|x l Hx _ IH]; simpl; [constructor|].
  destruct (f x); [constructor; assumption | exact IH].
Qed.

Lemma filter_all {A} (f : A -> bool) (l : list A) :
  Forall (fun x => f x = true) l -> filter f l = l.
Proof.
  induction 1 as [|x l Hx _ IH]; simpl; [reflexivity|].
  rewrite Hx, IH. reflexivity.
Qed.

Lemma filter_kept {A} (f : A -> bool) (l : list A) :
  Forall (fun x => f x = true) (filter f l).
Proof.
  induction l as [|x l IH]; simpl; [constructor|].
  destruct (f x) eqn:E; [constructor; assumption | exact IH].
Qed.

(** Saving after a removal: the kept records, then the new one. *)
Lemma save_after_kept (pattern : Str.t) (rs : list Str.t) (t : Str.t) :
  Forall plain rs -> Forall (fun r => keep_line pattern r = true) rs ->
  save_file (prepare_doc_arr_to_str rs) t = layout (rs ++ [encode_str t]).
Proof.
  intros Hp Hk. destruct rs as [|r rs'].
  - apply save_file_empty.
  - rewrite prepare_records.
    + apply save_file_layout. discriminate.
    + exact Hp.
    + exists r, rs'. split; [reflexivity|].
      inversion Hk; subst. eapply keep_line_nonempty. eassumption.
Qed.

(** X4.  [delete_by_match] leaves a file alone when no record matches:
    on a file in the layout whose records hold no CR LF pair, end with
    no comma, are not empty, are no bracket and do not hold the
    (encoded) pattern, the file written back is the file read, whatever
    the chunks the stream delivered it in. *)
Theorem delete_by_match_leaves_others (pattern : Str.t) (rs chunks : list Str.t) :
  rs <> [] -> Forall plain rs ->
  Forall (fun r => keep_line (encode_str pattern) r = true) rs ->
  concat chunks = layout rs ->
  delete_by_match_file pattern chunks = layout rs.
Proof.
  intros Hne Hp Hk Hc.
  rewrite (kept_of_layout pattern rs chunks Hne Hp Hc).
  rewrite (filter_all _ _ Hk).
  apply prepare_records; [exact Hp|].
  destruct rs as [|r rs']; [congruence|].
  exists r, rs'. split; [reflexivity|].
  inversion Hk; subst. eapply keep_line_nonempty. eassumption.
Qed.

Lemma delete_by_match_leaves_others_witness :
  delete_by_match_file (lit "xyz")
    [lit "["; SEP ++ lit "{a},"; SEP ++ lit "{b}" ++ SEP ++ lit "]"]
  = layout [lit "{a}"; lit "{b}"].
Proof.
  apply (delete_by_match_leaves_others (lit "xyz") [lit "{a}"; lit "{b}"]).
  - discriminate.
  - repeat constructor; discriminate.
  - repeat constructor.
  - reflexivity.
Defined.

Lemma kept_lines_empty_file (pattern : Str.t) (chunks : list Str.t) :
  concat chunks = [] -> delete_by_match_file pattern chunks = [].
Proof.
  intros Hc. unfold delete_by_match_file, write_fresh.
  rewrite kept_lines_chunks, Hc. reflexivity.
Qed.

(** X5.  [delete_by_match] is idempotent on a file in the layout:
    running it again with the same pattern, on the file the first run
    wrote, writes that file again. *)
Theorem delete_by_match_idempotent (pattern : Str.t) (rs chunks chunks' : list Str.t) :
  rs <> [] -> Forall plain rs ->
  concat chunks = layout rs ->
  concat chunks' = delete_by_match_file pattern chunks ->
  delete_by_match_file pattern chunks' = delete_by_match_file pattern chunks.
Proof.
  intros Hne Hp Hc Hc'.
  rewrite (kept_of_layout pattern rs chunks Hne Hp Hc) in *.
  set (kept := filter (keep_line (encode_str pattern)) rs) in *.
  assert (Hkp : Forall plain kept) by (apply Forall_filter_keep; exact Hp).
  assert (Hkk : Forall (fun r => keep_line (encode_str pattern) r = true) kept)
    by apply filter_kept.
  destruct kept as [|r kept'] eqn:Ek.
  - apply kept_lines_empty_file. exact Hc'.
  - assert (Hr : r <> []).
    { inversion Hkk; subst. eapply keep_line_nonempty. eassumption. }
    rewrite prepare_records in * by (try exact Hkp; exists r, kept'; auto).
    rewrite (kept_of_layout pattern (r :: kept') chunks' ltac:(discriminate) Hkp Hc').
    rewrite (filter_all _ _ Hkk).
    apply prepare_records; [exact Hkp|].
    exists r, kept'. split; [reflexivity | exact Hr].
Qed.

Lemma delete_by_match_idempotent_witness :
  delete_by_match_file (lit "a") [layout [lit "{b}"]]
  = delete_by_match_file (lit "a") [layout [lit "{a}"; lit "{b}"]].
Proof.
  apply (delete_by_match_idempotent (lit "a") [lit "{a}"; lit "{b}"]).
  - discriminate.
  - repeat constructor; discriminate.
  - reflexivity.
  - reflexivity.
Defined.

Lemma sep_at_free (c : ascii) (b : Str.t) :
  includes SEP (c :: b) = false -> sep_at (c :: b) = 0.
Proof.
  intros H. unfold sep_at.
  assert (H1 : starts_with SEP (c :: b) = false) by (apply includes_head; exact H).
  rewrite H1.
  destruct (starts_with (lit "," ++ SEP) (c :: b)) eqn:E; [|reflexivity].
  exfalso. apply starts_with_inv in E. destruct E as [r E].
  injection E as -> ->.
  simpl in H. discriminate.
Qed.

Lemma split_lines_free (file : Str.t) :
  includes SEP file = false -> split_lines file = [file].
Proof.
  intros H. unfold split_lines.
  rewrite <- (app_nil_r file) at 1.
  rewrite scan_piece.
  - simpl. rewrite app_nil_r, rev_involutive. reflexivity.
  - intros a c b ->. rewrite app_nil_r. apply sep_at_free.
    eapply includes_suffix_false. exact H.
Qed.

(** X6.  A file that holds no CR LF pair at all (a JSON array written on
    one line, say) is emptied by [delete_by_match], whatever the
    pattern: the reader only keeps lines that a separator ends, and what
    is left in its buffer at the end of the stream is dropped. *)
Theorem delete_by_match_wipes_unbroken_file (pattern file : Str.t)
  (chunks : list Str.t) :
  includes SEP file = false -> concat chunks = file ->
  delete_by_match_file pattern chunks = [].
Proof.
  intros H Hc. unfold delete_by_match_file, write_fresh.
  rewrite kept_lines_chunks, Hc.
  unfold kept_lines. simpl. rewrite (split_lines_free file H). reflexivity.
Qed.

Lemma delete_by_match_wipes_unbroken_file_witness :
  delete_by_match_file (lit "no such text") [lit "[{a},"; lit "{b}]"] = [].
Proof.
  apply (delete_by_match_wipes_unbroken_file (lit "no such text") (lit "[{a},{b}]")).
  - reflexivity.
  - reflexivity.
Defined.

End RewriteFacts.

(** ** The handler and the disk *)

Module HandlerFacts.

Import Str Js DBHandler StrFacts DBHandlerFacts SaveFacts.

Section Ops.

Context (P : Platform).

(** X7.  A connection attempt that is rejected leaves the handler
    disconnected, also when it was connected before the call (the path
    is cleared first), and leaves the disk as it was; every later read
    through the handler is then refused. *)
Theorem failed_connect_disconnects (h h' : DBHandler.t) (disk disk' : Fs.t)
  (path : value) (e : error) :
  connect_dbFilePath P h disk path = (h', disk', Rejected e) ->
  is_connected h' = false /\ disk' = disk
  /\ load h' disk' = Rejected NotConnected.
Proof.
  unfold connect_dbFilePath, check_db_file. intros H.
  assert (G : dbFilePath h' = None /\ disk' = disk).
  { destruct path; try (injection H as <- <- _; split; reflexivity).
    destruct (negb (truthy (VStr s)) || negb (Str.eqb (extname P s) dbFileExt)).
    { injection H as <- <- _; split; reflexivity. }
    destruct (disk s) as [[|]| |[|] mode content]; simpl in H;
      try (injection H as <- <- _; split; reflexivity); try discriminate.
    destruct (negb (Z.land mode Fs.F_OK =? 0)%Z && negb (Z.land mode Fs.W_OK =? 0)%Z
              && negb (Z.land mode Fs.R_OK =? 0)%Z);
      [injection H as <- <- _; split; reflexivity | discriminate]. }
  destruct G as [G1 G2]. unfold is_connected, load. rewrite G1. auto.
Qed.

End Ops.

Lemma failed_connect_disconnects_witness :
  is_connected {| dbFilePath := None |} = false
  /\ Reference.disk_with 33188 [] = Reference.disk_with 33188 []
  /\ load {| dbFilePath := None |} (Reference.disk_with 33188 [])
     = Rejected NotConnected.
Proof.
  apply (failed_connect_disconnects Reference.platform Reference.connected
           {| dbFilePath := None |} (Reference.disk_with 33188 [])
           (Reference.disk_with 33188 []) (VStr (lit "notes.txt")) InvalidFileType).
  reflexivity.
Defined.

End HandlerFacts.

(** ** The schema constructor *)

Module ConstructorFacts.

Import Str Js Obj Schema StrFacts JsFacts SchemaFacts DocumentFacts.

Section Constructor.

Context (P : Platform).

Lemma set_params_shape (entries : list (Str.t * value)) :
  forall acc res,
    set_params P entries acc = Ok (Some res) ->
    NoDup (keys acc ++ keys entries) -> ~ In proto_key (keys acc) ->
    keys res = keys acc ++ filter (fun k => negb (Str.eqb k proto_key)) (keys entries)
    /\ (forall k, ~ In k (keys entries) -> lookup k res = lookup k acc)
    /\ (forall p raw, In (p, raw) entries ->
          exists props,
            (p <> proto_key -> lookup p res = Some (VObject props))
            /\ is_valid_definition_param_format P (preprocess_definition_parameter raw)
               = Ok true
            /\ fill_properties P (preprocess_definition_parameter raw)
                 get_allowed_parameter_properties_names_lst [] = Ok props).
Proof.
  induction entries as [|[param raw] entries IH]; intros acc res Hrun Hnd Hproto.
  - injection Hrun as <-. simpl. rewrite app_nil_r.
    split; [reflexivity|]. split; [reflexivity | intros p raw []].
  - cbn [set_params] in Hrun.
    apply bind_ok in Hrun. destruct Hrun as [valid [Hvalid Hrun]].
    destruct valid; cbn [negb] in Hrun; [|discriminate].
    apply bind_ok in Hrun. destruct Hrun as [props [Hfill Hrun]].
    cbn [keys map fst] in Hnd. fold (keys entries) in Hnd.
    assert (Hfresh : ~ In param (keys acc)).
    { intros Hk. apply NoDup_remove_2 in Hnd. apply Hnd.
      apply in_or_app. left. exact Hk. }
    assert (Hrest : ~ In param (keys entries)).
    { intros Hk. apply NoDup_remove_2 in Hnd. apply Hnd.
      apply in_or_app. right. exact Hk. }
    cbn [keys map fst filter]. fold (keys entries).
    destruct (Str.eqb param proto_key) eqn:E; cbn [negb].
    + apply eqb_eq in E. subst param.
      rewrite (set_prop_proto _ _ Hproto) in Hrun.
      destruct (IH _ _ Hrun (NoDup_remove_1 _ _ _ Hnd) Hproto)
        as [Hkeys [Hother Hfields]].
      split; [exact Hkeys|]. split.
      * intros k Hk. apply Hother. intros Hk'. apply Hk. right. exact Hk'.
      * intros p raw' [Heq|Hp].
        -- injection Heq as <- <-. exists props.
           split; [intros Hne; congruence | split; assumption].
        -- apply Hfields. exact Hp.
    + apply eqb_neq in E. rewrite (set_prop_other _ _ _ E) in Hrun.
      assert (Hnd' : NoDup (keys (assign param (VObject props) acc) ++ keys entries)).
      { rewrite keys_assign_new by exact Hfresh. rewrite <- app_assoc. exact Hnd. }
      assert (Hproto' : ~ In proto_key (keys (assign param (VObject props) acc))).
      { rewrite keys_assign_new by exact Hfresh. intros Hk.
        apply in_app_or in Hk. destruct Hk as [Hk|[Hk|[]]]; [tauto | congruence]. }
      destruct (IH _ _ Hrun Hnd' Hproto') as [Hkeys [Hother Hfields]].
      split; [|split].
      * rewrite Hkeys, keys_assign_new by exact Hfresh.
        rewrite <- app_assoc. reflexivity.
      * intros k Hk.
        rewrite Hother by (intros Hk'; apply Hk; right; exact Hk').
        apply lookup_assign_ne. intros ->. apply Hk. left. reflexivity.
      * intros p raw' [Heq|Hp].
        -- injection Heq as <- <-. exists props.
           split; [|split; assumption]. intros _.
           rewrite (Hother _ Hrest). apply lookup_assign_eq.
        -- apply Hfields. exact Hp.
Qed.

(** X9.  What the constructor stores for a definition it accepts (its
    parameter names distinct, as in any object): the parameter names
    other than [__proto__], in the same order; for every one of them the
    three properties [type], [required], [default] in this order.  The
    type is the declared one, whatever value it is (a constructor
    function given as type is replaced by its name, [String] and
    [Number] by ['string'] and ['number']), and the key it is turned
    into is one of the table of the allowed types.  [required] is the
    declared value, whose [typeX] is ['boolean'], or [false].  [default]
    is the declared value, whose [typeX] is loosely equal to the type,
    or the value the table gives for the type. *)
Theorem new_fills_definition (definition options : value) (s : Schema.t) :
  Schema.new P definition options = Ok s ->
  NoDup (keys (own_entries definition)) ->
  exists entries,
    _definition s = VObject entries
    /\ keys entries
       = filter (fun k => negb (Str.eqb k proto_key)) (keys (own_entries definition))
    /\ forall p raw, In (p, raw) (own_entries definition) -> p <> proto_key ->
         exists T R D,
           lookup p entries
           = Some (VObject [(k_type, T); (k_required, R); (k_default, D)])
           /\ (lookup k_type (own_entries raw) = Some T
               \/ exists name,
                    lookup k_type (own_entries raw) = Some (VFunction name)
                    /\ T = VStr (if Str.eqb name (lit "String") then lit "string"
                                 else if Str.eqb name (lit "Number") then lit "number"
                                 else name))
           /\ is_allowed_type P T = Ok true
           /\ match lookup k_required (own_entries raw) with
              | Some v =>
                  R = v
                  /\ exists tr, typeX P v = Ok tr
                                /\ strict_equal tr (VStr (lit "boolean")) = true
              | None => R = VBool false
              end
           /\ match lookup k_default (own_entries raw) with
              | Some v =>
                  D = v
                  /\ exists td, typeX P v = Ok td /\ loose_equal P td T = Ok true
              | None =>
                  exists key, property_key P T = Ok key
                              /\ lookup key allowedTypesAndDefaultsVals = Some D
              end.
Proof.
  intros Hnew Hnd.
  destruct (new_inv P _ _ _ Hnew) as [res [v [-> [Hrun _]]]].
  destruct (set_params_shape _ _ _ Hrun Hnd (fun H => H)) as [Hkeys [_ Hfields]].
  exists res. cbn [_definition]. split; [reflexivity|]. split; [exact Hkeys|].
  intros p raw Hin Hne.
  destruct (Hfields p raw Hin) as [props [Hl [Hvalid Hfill]]].
  specialize (Hl Hne).
  pose proof (valid_is_object P _ Hvalid) as Hobj. rewrite preprocess_typeof in Hobj.
  destruct (preprocess_object raw Hobj) as [fs [Epp [Hother Htype]]].
  rewrite Epp in Hvalid, Hfill.
  destruct (valid_format_inv P fs Hvalid) as [_ [T [HT [HA [HR HD]]]]].
  destruct (fill_inv P fs T props HT HA Hfill) as [R [D [-> [HRm [HDm _]]]]].
  exists T, R, D. split; [exact Hl|].
  rewrite <- (Hother k_required) by discriminate.
  rewrite <- (Hother k_default) by discriminate.
  split; [|split; [exact HA|split]].
  - destruct (lookup k_type (own_entries raw)) as [T0|] eqn:E.
    + destruct T0; rewrite Htype in HT; injection HT as <-;
        try (left; reflexivity).
      right. exists name. split; reflexivity.
    + rewrite Htype in HT. discriminate HT.
  - destruct (lookup k_required fs) as [r|]; [|exact HRm].
    split; [exact HRm | apply HR; reflexivity].
  - destruct (lookup k_default fs) as [d|]; [|exact HDm].
    split; [exact HDm | apply HD; reflexivity].
Qed.

(** X10.  [set_options] replaces the options of the instance by the one
    known option, whatever they were before and whatever else the
    argument holds, and does not touch the definition.  When the
    argument is truthy and has a [timestamps] of its own, the option
    is that value, provided [typeX] of it is ['boolean'] (a boolean, or
    an object whose [constructor.name] is ['boolean']) and it can be
    cloned; otherwise it is [false].  So the option is [true] exactly
    when the argument is truthy and has a [timestamps] of its own that
    is [true].  A [timestamps] of its own whose [typeX] is another value
    makes the call throw the options error; one whose type cannot be
    taken ([null]) makes it throw the runtime's [TypeError]. *)
Theorem set_options_replaces (s : Schema.t) (options : value) :
  (forall s', set_options P s options = Ok s' ->
     _definition s' = _definition s
     /\ exists v,
          options_ s' = [(k_timestamps, v)]
          /\ cloneable v = true
          /\ (exists tv, typeX P v = Ok tv
                         /\ strict_equal tv (VStr (lit "boolean")) = true)
          /\ ((truthy options = true /\ hasOwn P options k_timestamps = Ok true
               /\ prop_get P options k_timestamps = Ok v)
              \/ (v = VBool false
                  /\ (truthy options = false
                      \/ hasOwn P options k_timestamps = Ok false)))
          /\ (v = VBool true <->
              truthy options = true /\ hasOwn P options k_timestamps = Ok true
              /\ prop_get P options k_timestamps = Ok (VBool true)))
  /\ (forall v,
        truthy options = true -> hasOwn P options k_timestamps = Ok true ->
        prop_get P options k_timestamps = Ok v ->
        (forall e, typeX P v = Throw e -> set_options P s options = Throw e)
        /\ (v = VNull -> set_options P s options = Throw TypeError)
        /\ (forall tv, typeX P v = Ok tv ->
              strict_equal tv (VStr (lit "boolean")) = false ->
              set_options P s options = Throw (InvalidOption k_timestamps))
        /\ (forall tv, typeX P v = Ok tv ->
              strict_equal tv (VStr (lit "boolean")) = true ->
              set_options P s options
              = if cloneable v
                then Ok {| _definition := _definition s;
                           options_ := [(k_timestamps, v)] |}
                else Throw DataCloneError)).
Proof.
  split.
  - intros s' H. unfold set_options in H.
    apply bind_ok in H. destruct H as [newOpts [H Hs]]. injection Hs as <-.
    cbn [_definition options_]. split; [reflexivity|].
    destruct (set_options_loop_inv P _ _ H) as [v [-> [Hc [Ht Hcase]]]].
    exists v. split; [reflexivity|]. split; [exact Hc|]. split; [exact Ht|].
    split; [exact Hcase|]. split.
    + intros ->. destruct Hcase as [Hcase | [Hv _]]; [exact Hcase | discriminate Hv].
    + intros [Htr [Hhas Hget]].
      destruct Hcase as [[_ [_ Hget']] | [_ [Hf | Hf]]]; congruence.
  - intros v Ht Hhas Hget.
    assert (Hrun : set_options P s options
                   = (newOpts <- (x <- (tGiven <- typeX P v ;;
                                        if negb (strict_equal tGiven (VStr (lit "boolean")))
                                        then Throw (InvalidOption k_timestamps)
                                        else structuredClone v) ;;
                                  Ok [(k_timestamps, x)]) ;;
                      Ok {| _definition := _definition s; options_ := newOpts |})).
    { unfold set_options. change defaultOptions with [(k_timestamps, VBool false)].
      cbn [set_options_loop]. rewrite Ht, Hhas. cbn [negb bind]. rewrite Hget.
      cbn [bind]. destruct (typeX P v); reflexivity. }
    rewrite Hrun. split; [|split; [|split]].
    + intros e He. rewrite He. reflexivity.
    + intros ->. reflexivity.
    + intros tv Htv Hne. rewrite Htv. cbn [bind]. rewrite Hne. reflexivity.
    + intros tv Htv Heq. rewrite Htv. cbn [bind]. rewrite Heq. cbn [negb].
      unfold structuredClone. destruct (cloneable v); reflexivity.
Qed.

(** X11.  For a definition whose types are given as strings or as
    constructor functions and which has a parameter with another name
    than [__proto__], the instance the constructor returns passes
    [is_valid_schema]; so the [Model] constructor accepts it, and the
    model it makes starts its document counter at zero. *)
Theorem constructed_schema_is_valid (definition options : value) (s : Schema.t) :
  Schema.new P definition options = Ok s ->
  named_types definition ->
  (exists p, In p (keys (own_entries definition)) /\ p <> proto_key) ->
  is_valid_schema P s = Ok true
  /\ Model.new P s = Ok {| Model.schema := s; Model.countDocs := 0 |}.
Proof.
  intros Hnew Hnamed Hp.
  pose proof (new_named_valid P _ _ _ Hnew Hnamed Hp) as Hv.
  split; [exact Hv|]. unfold Model.new. rewrite Hv. reflexivity.
Qed.

(** X12.  A content validated against a schema the constructor built
    from a definition whose types are given as strings or as
    constructor functions is well typed: it has exactly the parameters
    of the schema, and the value of every one of them, copied from the
    input or filled in as default, has a [typeX] that is equal ([==]) to
    the type the schema declares for it. *)
Theorem validated_content_typed (definition options : value) (s : Schema.t)
  (content res : value) :
  Schema.new P definition options = Ok s ->
  named_types definition ->
  Document.setup_content P s content = Ok res ->
  exists entries fields,
    _definition s = VObject entries /\ res = VObject fields
    /\ keys fields = keys entries
    /\ forall p spec, In (p, spec) entries ->
         exists typ out,
           prop_get P spec k_type = Ok (VStr typ)
           /\ lookup p fields = Some out
           /\ exists t, typeX P out = Ok t /\ loose_equal P t (VStr typ) = Ok true.
Proof.
  intros Hnew Hnamed Hrun.
  destruct (new_named_stored P _ _ _ Hnew Hnamed)
    as [entries [v [-> [Hnd [Hproto [_ [Hcr [_ [_ Hall]]]]]]]]].
  assert (Hget : Schema.definition
                   {| _definition := VObject entries; options_ := [(k_timestamps, v)] |}
                 = Ok (VObject entries)).
  { unfold Schema.definition. cbn [_definition]. apply structuredClone_cloneable. exact Hcr. }
  destruct (setup_content_ok P _ (VObject entries) content res Hget Hnd Hrun)
    as [fields [-> [Hkeys Hfields]]].
  cbn [own_entries] in Hkeys, Hfields.
  rewrite RewriteFacts.filter_all in Hkeys.
  2:{ apply Forall_forall. intros k Hk. apply negb_true_iff. apply eqb_neq.
      intros ->. exact (Hproto Hk). }
  exists entries, fields. split; [reflexivity|]. split; [reflexivity|].
  split; [exact Hkeys|].
  intros p spec Hin. destruct (Hfields p spec Hin) as [out [Hacc Hl]].
  assert (Hne : p <> proto_key).
  { intros ->. apply Hproto. change proto_key with (fst (proto_key, spec)).
    apply in_map. exact Hin. }
  specialize (Hl Hne).
  destruct (Hall p spec Hin) as [Hvalid [typ [R [D ->]]]].
  destruct (valid_format_inv P _ Hvalid) as [_ [T [HT [_ [_ HD]]]]].
  injection HT as <-.
  exists typ, out. split; [reflexivity|]. split; [exact Hl|].
  destruct Hacc as [[_ [req [_ [_ Hd]]]] | [_ [declared [t [Hdecl [_ [Ht Hm]]]]]]].
  - rewrite (prop_get_own P [(k_type, VStr typ); (k_required, R); (k_default, D)]
               k_default D eq_refl) in Hd. injection Hd as <-.
    apply HD. reflexivity.
  - rewrite (prop_get_own P [(k_type, VStr typ); (k_required, R); (k_default, D)]
               k_type (VStr typ) eq_refl) in Hdecl.
    injection Hdecl as <-. exists t. split; [exact Ht|].
    destruct t; try discriminate Hm. cbn [strict_equal] in Hm.
    apply eqb_eq in Hm. subst s. cbn [loose_equal]. rewrite eqb_refl. reflexivity.
Qed.

End Constructor.

(** The constructor returns an instance that [is_valid_schema] rejects
    when the only parameter of the definition is named [__proto__]: the
    assignment under that name leaves the stored definition empty. *)
Lemma proto_schema_not_valid :
  ~ (forall (P : Platform) (definition options : value) (s : Schema.t),
        Schema.new P definition options = Ok s -> is_valid_schema P s = Ok true).
Proof.
  intros H.
  specialize (H Reference.platform
                (VObject [(proto_key, VObject [(k_type, VStr (lit "string"))])])
                VUndefined
                {| _definition := VObject [];
                   options_ := [(k_timestamps, VBool false)] |}
                eq_refl).
  discriminate H.
Qed.

Lemma new_fills_definition_witness :
  exists entries,
    _definition Reference.story_schema = VObject entries
    /\ keys entries = keys (own_entries Reference.story_definition).
Proof.
  destruct (new_fills_definition Reference.platform Reference.story_definition
              Reference.story_options Reference.story_schema eq_refl
              ltac:(repeat constructor; simpl; intuition discriminate))
    as [entries [H1 [H2 _]]].
  exists entries. split; assumption.
Defined.

Lemma set_options_replaces_witness :
  set_options Reference.platform Reference.story_schema
    (VObject [(k_timestamps, VNum 1)])
  = Throw (InvalidOption k_timestamps).
Proof.
  apply (proj1 (proj2 (proj2
           (proj2 (set_options_replaces Reference.platform Reference.story_schema
                     (VObject [(k_timestamps, VNum 1)])) (VNum 1)
              eq_refl eq_refl eq_refl))) (VStr (lit "number")));
    reflexivity.
Defined.

Lemma story_definition_named : named_types Reference.story_definition.
Proof.
  intros p raw T [E|[]] HT. injection E as <- <-.
  vm_compute in HT. injection HT as <-. right. eexists. reflexivity.
Qed.

Lemma constructed_schema_is_valid_witness :
  is_valid_schema Reference.platform Reference.story_schema = Ok true
  /\ Model.new Reference.platform Reference.story_schema
     = Ok {| Model.schema := Reference.story_schema; Model.countDocs := 0 |}.
Proof.
  apply (constructed_schema_is_valid Reference.platform Reference.story_definition
           Reference.story_options Reference.story_schema).
  - reflexivity.
  - intros p raw T [E|[]] HT. injection E as <- <-.
    vm_compute in HT. injection HT as <-. right. eexists. reflexivity.
  - exists Reference.k_title. split; [left; reflexivity | discriminate].
Defined.

Lemma validated_content_typed_witness :
  exists entries fields,
    _definition Reference.story_schema = VObject entries
    /\ VObject [(Reference.k_title, VStr (lit "A"))] = VObject fields
    /\ keys fields = keys entries.
Proof.
  destruct (validated_content_typed Reference.platform Reference.story_definition
              Reference.story_options Reference.story_schema
              (VObject [(Reference.k_title, VStr (lit "A")); (lit "extra", VNum 1)])
              (VObject [(Reference.k_title, VStr (lit "A"))]) eq_refl)
    as [entries [fields [H1 [H2 [H3 _]]]]].
  - intros p raw T [E|[]] HT. injection E as <- <-.
    vm_compute in HT. injection HT as <-. right. eexists. reflexivity.
  - reflexivity.
  - exists entries, fields. auto.
Defined.

End ConstructorFacts.

(** ** The ids a model mints *)

Module IdFacts.

Import Str Js Obj StrFacts JsFacts SchemaFacts DocumentFacts ModelFacts.
Import Document.

Lemma uint_no_dash (d : Decimal.uint) :
  Forall (fun c => c <> "-"%char) (lit (NilEmpty.string_of_uint d)).
Proof.
  induction d; simpl; constructor; try exact IHd; discriminate.
Qed.

Lemma decimal_no_dash (n : Z) :
  (0 <= n)%Z -> Forall (fun c => c <> "-"%char) (decimal n).
Proof.
  intros Hn. unfold decimal. destruct n as [|p|p]; [| |lia].
  - simpl. constructor; [discriminate | constructor].
  - cbn [Z.to_int NilZero.string_of_int]. unfold NilZero.string_of_uint.
    destruct (Pos.to_uint p) eqn:E; try (rewrite <- E; apply uint_no_dash).
    simpl. constructor; [discriminate | constructor].
Qed.

Lemma dash_split (u v x y : Str.t) :
  Forall (fun c => c <> "-"%char) u -> Forall (fun c => c <> "-"%char) v ->
  u ++ "-"%char :: x = v ++ "-"%char :: y -> u = v.
Proof.
  intros Hu. revert v. induction Hu as [|a u Ha Hu IH]; intros v Hv E.
  - destruct Hv as [|b v Hb Hv]; [reflexivity|].
    simpl in E. injection E as E _. congruence.
  - destruct Hv as [|b v Hb Hv].
    + simpl in E. injection E as E _. congruence.
    + simpl in E. injection E as -> E. f_equal. apply IH; assumption.
Qed.

Lemma lit_inj (s s' : string) : lit s = lit s' -> s = s'.
Proof.
  unfold lit. intros H. apply (f_equal string_of_list_ascii) in H.
  rewrite !string_of_list_ascii_of_string in H. exact H.
Qed.

Lemma decimal_inj (n m : Z) : decimal n = decimal m -> n = m.
Proof.
  unfold decimal. intros H. apply lit_inj in H.
  apply (f_equal NilZero.int_of_string) in H.
  assert (Hnn : forall z, Z.to_int z <> Decimal.Pos Decimal.Nil
                          /\ Z.to_int z <> Decimal.Neg Decimal.Nil).
  { intros [|p|p]; simpl; split; try discriminate;
      intros E; injection E as E; exact (DecimalPos.Unsigned.to_uint_nonnil p E). }
  rewrite !NilZero.isi in H by apply Hnn.
  injection H as H. apply DecimalZ.to_int_inj. exact H.
Qed.

Section Ids.

Context (P : Platform).

Lemma init_doc_keeps_id (d d' : Document.t) (content : value) :
  init_doc P d content = Ok d' ->
  prop_in P idMark content = Ok false ->
  _id d' = _id d.
Proof.
  intros Hrun Hin. unfold init_doc in Hrun.
  apply bind_ok in Hrun. destruct Hrun as [newContent [_ Hrun]].
  rewrite Hin in Hrun. cbn [bind] in Hrun.
  apply bind_ok in Hrun. destruct Hrun as [vId [_ Hrun]].
  apply bind_ok in Hrun. destruct Hrun as [hasC [_ Hrun]].
  apply bind_ok in Hrun. destruct Hrun as [vC [_ Hrun]].
  apply bind_ok in Hrun. destruct Hrun as [hasU [_ Hrun]].
  apply bind_ok in Hrun. destruct Hrun as [vU [_ Hrun]].
  injection Hrun as <-. cbn [andb].
  destruct (Date_value P vC) as [tc|]; destruct hasC;
    destruct (Date_value P vU) as [tu|]; destruct hasU;
    cbn; try reflexivity;
    destruct (_updateTime d); destruct (_createTime d); reflexivity.
Qed.

Lemma new_mints (content : value) (schema : Schema.t) (n now : Z) (random : Str.t)
  (d : Document.t) :
  Document.new P content schema (VNum n) now random = Ok d ->
  prop_in P idMark content = Ok false ->
  _id d = VStr (decimal n ++ lit "-" ++ decimal now ++ lit "-" ++ random).
Proof.
  intros Hrun Hin. unfold Document.new in Hrun.
  destruct (negb (truthy content) || negb (Str.eqb (typeof content) (lit "object")));
    [discriminate|].
  apply bind_ok in Hrun. destruct Hrun as [valid [_ Hrun]].
  destruct (negb valid); [discriminate|].
  cbn [typeof] in Hrun.
  change (negb (Str.eqb (lit "number") (lit "string")
                || Str.eqb (lit "number") (lit "number"))) with false in Hrun.
  cbn match in Hrun.
  apply bind_ok in Hrun. destruct Hrun as [d1 [Hinit Hrun]].
  apply bind_ok in Hrun. destruct Hrun as [d2 [Hopt Hrun]].
  pose proof (init_doc_keeps_id _ _ _ Hinit Hin) as H1.
  pose proof (set_options_id P _ _ _ Hopt) as H2.
  cbn [_id] in H1. rewrite H1 in H2. rewrite H2 in Hrun.
  cbn in Hrun. injection Hrun as <-. reflexivity.
Qed.

Lemma new_documents_nth (calls : list (value * Z * Str.t)) :
  forall (m : Model.t) (i : nat) (content : value) (now : Z) (random : Str.t),
    nth_error calls i = Some (content, now, random) ->
    nth_error (snd (Model.new_documents P m calls)) i
    = Some ((Model.countDocs m + Z.of_nat i)%Z,
            Document.new P content (Model.schema m)
              (VNum (Model.countDocs m + Z.of_nat i)) now random).
Proof.
  induction calls as [|[[c t] r] calls IH]; intros m i content now random Hi.
  - destruct i; discriminate.
  - rewrite new_documents_cons. cbn [snd].
    destruct i as [|i].
    + simpl in Hi. injection Hi as -> -> ->. simpl.
      rewrite Z.add_0_r. reflexivity.
    + simpl in Hi. cbn [nth_error].
      rewrite (IH _ i content now random Hi).
      unfold Model.new_document. cbn [fst Model.countDocs Model.schema].
      replace (Model.countDocs m + 1 + Z.of_nat i)%Z
        with (Model.countDocs m + Z.of_nat (S i))%Z by lia.
      reflexivity.
Qed.

(** X13.  Two different calls of [new_document] on one model, in any
    series of calls, never mint the same id, even at the same instant
    and with the same random part: the ids the model makes for contents
    that bring no [_id] start with the counter, which differs from call
    to call, written in decimal before the first dash. *)
Theorem minted_ids_distinct (m : Model.t) (calls : list (value * Z * Str.t))
  (i j : nat) (ci cj : value) (ti tj : Z) (ri rj : Str.t) (ni nj : Z)
  (di dj : Document.t) :
  (0 <= Model.countDocs m)%Z ->
  i <> j ->
  nth_error calls i = Some (ci, ti, ri) ->
  nth_error calls j = Some (cj, tj, rj) ->
  prop_in P idMark ci = Ok false ->
  prop_in P idMark cj = Ok false ->
  nth_error (snd (Model.new_documents P m calls)) i = Some (ni, Ok di) ->
  nth_error (snd (Model.new_documents P m calls)) j = Some (nj, Ok dj) ->
  _id di <> _id dj.
Proof.
  intros Hm Hij Hci Hcj Hi Hj Hri Hrj.
  rewrite (new_documents_nth _ _ _ _ _ _ Hci) in Hri.
  rewrite (new_documents_nth _ _ _ _ _ _ Hcj) in Hrj.
  injection Hri as _ Hri. injection Hrj as _ Hrj.
  rewrite (new_mints _ _ _ _ _ _ Hri Hi), (new_mints _ _ _ _ _ _ Hrj Hj).
  intros E. injection E as E.
  apply dash_split in E; try (apply decimal_no_dash; lia).
  apply decimal_inj in E. lia.
Qed.

End Ids.

Lemma minted_ids_distinct_witness :
  _id Reference.story_doc
  <> _id (set_id Reference.story_doc (VStr (lit "1-1000-abcdef012345"))).
Proof.
  apply (minted_ids_distinct Reference.platform Reference.story_model
           [(VObject [(Reference.k_title, VStr (lit "A"))], 1000%Z, lit "abcdef012345");
            (VObject [(Reference.k_title, VStr (lit "A"))], 1000%Z, lit "abcdef012345")]
           0 1
           (VObject [(Reference.k_title, VStr (lit "A"))])
           (VObject [(Reference.k_title, VStr (lit "A"))])
           1000%Z 1000%Z (lit "abcdef012345") (lit "abcdef012345") 0%Z 1%Z
           Reference.story_doc
           (set_id Reference.story_doc (VStr (lit "1-1000-abcdef012345"))));
    try reflexivity.
  discriminate.
Defined.

End IdFacts.

(** ** Rebuilding a document from a stored record *)

Module RebuildFacts.

Import Str Js Obj Store StrFacts JsFacts SchemaFacts DocumentFacts ModelFacts IdFacts.
Import Document.

Section Rebuild.

Context (P : Platform).

Lemma new_started (content : value) (schema : Schema.t) (idSeed : value) (now : Z)
  (random : Str.t) (d : Document.t) :
  Document.new P content schema idSeed now random = Ok d ->
  exists d1 d2,
    init_doc P {| _content := VObject []; _createTime := None; _updateTime := None;
                  _id := VStr []; _schema := schema; saved := false |} content = Ok d1
    /\ Document.set_options P d1 now = Ok d2
    /\ (d = d2 /\ Schema.is_string (_id d2) [] = false
        \/ exists minted, d = set_id d2 (VStr minted) /\ _id d2 = VStr []).
Proof.
  intros Hrun. unfold Document.new in Hrun.
  destruct (negb (truthy content) || negb (Str.eqb (typeof content) (lit "object")));
    [discriminate|].
  apply bind_ok in Hrun. destruct Hrun as [valid [_ Hrun]].
  destruct (negb valid); [discriminate|].
  destruct (negb (Str.eqb (typeof idSeed) (lit "string")
                  || Str.eqb (typeof idSeed) (lit "number"))); [discriminate|].
  apply bind_ok in Hrun. destruct Hrun as [d1 [Hinit Hrun]].
  apply bind_ok in Hrun. destruct Hrun as [d2 [Hopt Hrun]].
  exists d1, d2. split; [exact Hinit|]. split; [exact Hopt|].
  destruct (Schema.is_string (_id d2) []) eqn:E.
  - right. injection Hrun as <-. eexists. split; [reflexivity|].
    destruct (_id d2); try discriminate. simpl in E. apply eqb_eq in E. subst. reflexivity.
  - left. injection Hrun as <-. split; reflexivity.
Qed.

Lemma init_doc_fields (d d' : Document.t) (content : value) :
  init_doc P d content = Ok d' ->
  Document.setup_content P (_schema d) content = Ok (_content d')
  /\ _schema d' = _schema d /\ saved d' = saved d
  /\ exists hasId, prop_in P idMark content = Ok hasId.
Proof.
  intros Hrun. unfold init_doc in Hrun.
  apply bind_ok in Hrun. destruct Hrun as [newContent [Hc Hrun]].
  apply bind_ok in Hrun. destruct Hrun as [hasId [Hin Hrun]].
  apply bind_ok in Hrun. destruct Hrun as [vId [_ Hrun]].
  apply bind_ok in Hrun. destruct Hrun as [hasC [_ Hrun]].
  apply bind_ok in Hrun. destruct Hrun as [vC [_ Hrun]].
  apply bind_ok in Hrun. destruct Hrun as [hasU [_ Hrun]].
  apply bind_ok in Hrun. destruct Hrun as [vU [_ Hrun]].
  injection Hrun as <-. rewrite Hc.
  split; [|split; [|split; [|exists hasId; exact Hin]]];
  (destruct (hasId && _); destruct (Date_value P vC) as [tc|]; destruct hasC;
    destruct (Date_value P vU) as [tu|]; destruct hasU;
    cbn; try reflexivity;
    destruct (_updateTime d); destruct (_createTime d); reflexivity).
Qed.

Lemma set_options_fields (d d' : Document.t) (now : Z) :
  Document.set_options P d now = Ok d' ->
  _content d' = _content d /\ _schema d' = _schema d /\ saved d' = saved d.
Proof.
  unfold Document.set_options. intros Hrun.
  apply bind_ok in Hrun. destruct Hrun as [options [_ Hrun]].
  apply bind_ok in Hrun. destruct Hrun as [timestamps [_ Hrun]].
  destruct timestamps as [| |[|]| | | | | | | | |]; destruct (_createTime d);
    injection Hrun as <-; auto.
Qed.

(** X14.  A stored record without an [_id] of its own is never rebuilt
    into a document, whatever else it holds: the constructor, seeded
    with -1, then either throws or mints an id that starts with a dash,
    and [reconstruct_doc] answers [null] in both cases. *)
Theorem reconstruct_doc_needs_id (content : value) (schema : Schema.t)
  (wasSaved : bool) (timeCheck now : Z) (random : Str.t) :
  prop_in P idMark content <> Ok true ->
  reconstruct_doc P content schema wasSaved timeCheck now random = None.
Proof.
  intros Hin. unfold reconstruct_doc.
  destruct (Document.new P content schema (VNum (-1)) now random) as [doc|e] eqn:Hnew;
    [|reflexivity].
  destruct (new_started _ _ _ _ _ _ Hnew) as [d1 [d2 [Hinit _]]].
  destruct (init_doc_fields _ _ _ Hinit) as [_ [_ [_ [hasId HhasId]]]].
  destruct hasId; [congruence|].
  rewrite (new_mints P _ _ _ _ _ _ Hnew HhasId). reflexivity.
Qed.

(** What a rebuilt document is made of: the two steps of the
    constructor that made it, and the checks it passed. *)
Lemma reconstruct_doc_steps (content : value) (schema : Schema.t)
  (wasSaved : bool) (timeCheck now : Z) (random : Str.t) (d : Document.t) :
  reconstruct_doc P content schema wasSaved timeCheck now random = Some d ->
  exists d1 d2,
    init_doc P {| _content := VObject []; _createTime := None; _updateTime := None;
                  _id := VStr []; _schema := schema; saved := false |} content = Ok d1
    /\ Document.set_options P d1 now = Ok d2
    /\ d = set_saved d2 (if wasSaved then true else false)
    /\ prop_in P idMark content = Ok true
    /\ first_item P (_id d2) <> Ok (VStr (lit "-"))
    /\ (match _createTime d2 with Some tc => tc | None => 0 end < timeCheck)%Z.
Proof.
  unfold reconstruct_doc. intros Hrun.
  destruct (Document.new P content schema (VNum (-1)) now random) as [doc|e] eqn:Hnew;
    [|discriminate].
  destruct (first_item P (_id doc)) as [c|e] eqn:Hfirst; [|discriminate].
  destruct (Schema.is_string c (lit "-")) eqn:Hdash; [discriminate|].
  destruct (timeCheck <=? match _createTime doc with Some tc => tc | None => 0 end)%Z
    eqn:Htime; [discriminate|].
  injection Hrun as <-. apply Z.leb_gt in Htime.
  destruct (new_started _ _ _ _ _ _ Hnew) as [d1 [d2 [Hinit [Hopt Hd]]]].
  destruct (init_doc_fields _ _ _ Hinit) as [_ [_ [_ [hasId HhasId]]]].
  assert (Hhas : hasId = true).
  { destruct hasId; [reflexivity|]. exfalso.
    rewrite (new_mints P _ _ _ _ _ _ Hnew HhasId) in Hfirst.
    cbn in Hfirst. injection Hfirst as <-. discriminate. }
  subst hasId.
  assert (Hdoc : doc = d2).
  { destruct Hd as [[-> _] | [minted [-> Hempty]]]; [reflexivity|].
    exfalso. unfold Document.new in Hnew.
    destruct (negb (truthy content) || negb (Str.eqb (typeof content) (lit "object")));
      [discriminate|].
    apply bind_ok in Hnew. destruct Hnew as [valid [_ Hnew]].
    destruct (negb valid); [discriminate|].
    cbn [typeof] in Hnew.
    change (negb (Str.eqb (lit "number") (lit "string")
                  || Str.eqb (lit "number") (lit "number"))) with false in Hnew.
    cbn match in Hnew. rewrite Hinit in Hnew. cbn [bind] in Hnew.
    rewrite Hopt in Hnew. cbn [bind] in Hnew. rewrite Hempty in Hnew.
    cbn in Hnew. injection Hnew as Hnew. subst minted.
    cbn in Hfirst. injection Hfirst as <-. discriminate. }
  subst doc. exists d1, d2.
  split; [exact Hinit|]. split; [exact Hopt|]. split; [reflexivity|].
  split; [exact HhasId|]. split; [|exact Htime].
  rewrite Hfirst. intros E. injection E as ->. discriminate.
Qed.

(** The id, the schema and the saved flag of a rebuilt document. *)
Lemma rebuilt_id (content : value) (schema : Schema.t)
  (wasSaved : bool) (timeCheck now : Z) (random : Str.t) (d : Document.t) :
  reconstruct_doc P content schema wasSaved timeCheck now random = Some d ->
  saved d = wasSaved /\ _schema d = schema
  /\ prop_get P content idMark = Ok (_id d).
Proof.
  intros Hrun.
  destruct (reconstruct_doc_steps _ _ _ _ _ _ _ Hrun)
    as (d1 & d2 & Hinit & Hopt & -> & HhasId & _).
  destruct (init_doc_fields _ _ _ Hinit) as [_ [Hs1 _]].
  destruct (set_options_fields _ _ _ Hopt) as [_ [Hs2 _]].
  assert (Hget : exists v, prop_get P content idMark = Ok v).
  { unfold prop_in in HhasId. unfold prop_get.
    destruct content; try discriminate; eauto. }
  destruct Hget as [v Hget].
  pose proof (init_doc_id P _ _ _ _ Hinit HhasId Hget) as Hid1.
  pose proof (set_options_id P _ _ _ Hopt) as Hid2.
  cbn [saved _schema _id set_saved] in *.
  split; [destruct wasSaved; reflexivity|]. split; congruence.
Qed.

(** X15.  What [reconstruct_doc] hands back when it hands back a
    document: the saved flag is the one asked for, the schema is the
    given one, the content is the record validated against the schema,
    the id is the record's own [_id] and does not start with a dash, and
    the creation time lies before the instant at which the call
    started. *)
Theorem reconstruct_doc_rebuilds (content : value) (schema : Schema.t)
  (wasSaved : bool) (timeCheck now : Z) (random : Str.t) (d : Document.t) :
  reconstruct_doc P content schema wasSaved timeCheck now random = Some d ->
  saved d = wasSaved
  /\ _schema d = schema
  /\ Document.setup_content P schema content = Ok (_content d)
  /\ prop_in P idMark content = Ok true
  /\ prop_get P content idMark = Ok (_id d)
  /\ first_item P (_id d) <> Ok (VStr (lit "-"))
  /\ (match _createTime d with Some tc => tc | None => 0 end < timeCheck)%Z.
Proof.
  intros Hrun.
  destruct (rebuilt_id _ _ _ _ _ _ _ Hrun) as (Hsaved & Hschema & Hget).
  destruct (reconstruct_doc_steps _ _ _ _ _ _ _ Hrun)
    as (d1 & d2 & Hinit & Hopt & Hd & HhasId & Hfirst & Htime).
  destruct (init_doc_fields _ _ _ Hinit) as [Hc1 _].
  destruct (set_options_fields _ _ _ Hopt) as [Hc2 _].
  split; [exact Hsaved|]. split; [exact Hschema|].
  split; [|split; [exact HhasId|split; [exact Hget|]]].
  - subst d. cbn [_content _schema set_saved] in *. congruence.
  - subst d. cbn [_id _createTime set_saved]. split; assumption.
Qed.

End Rebuild.

Lemma reconstruct_doc_needs_id_witness :
  reconstruct_doc Reference.platform Reference.idless_record Reference.story_schema
    true 3000 3001 [] = None.
Proof.
  apply (reconstruct_doc_needs_id Reference.platform Reference.idless_record
           Reference.story_schema true 3000%Z 3001%Z []).
  discriminate.
Defined.

Lemma reconstruct_doc_rebuilds_witness :
  saved Reference.saved_doc = true
  /\ _schema Reference.saved_doc = Reference.story_schema
  /\ prop_get Reference.platform (VObject [(idMark, VStr (lit "0-1000-abcdef012345"));
                        (Reference.k_title, VStr (lit "A"));
                        (createTMark, VStr (lit "T1000"));
                        (updateTMark, VStr (lit "T1000"))]) idMark
     = Ok (_id Reference.saved_doc).
Proof.
  destruct (reconstruct_doc_rebuilds Reference.platform
              (VObject [(idMark, VStr (lit "0-1000-abcdef012345"));
                        (Reference.k_title, VStr (lit "A"));
                        (createTMark, VStr (lit "T1000"));
                        (updateTMark, VStr (lit "T1000"))])
              Reference.story_schema true 3000%Z 3001%Z [] Reference.saved_doc
              eq_refl)
    as [H1 [H2 [_ [_ [H3 _]]]]].
  split; [exact H1|]. split; [exact H2 | exact H3].
Defined.

End RebuildFacts.

(** ** Finding by id and emptying the store *)

Module FinderFacts.

Import Str Js Obj Store StrFacts JsFacts SchemaFacts DocumentFacts ModelFacts FindFacts SaveFacts.
Import RebuildFacts.
Import DBHandler Model.

Section Find.

Context (P : Platform).

Lemma hasOwn_defined (doc : value) (k : Str.t) :
  doc <> VNull -> doc <> VUndefined -> exists b, hasOwn P doc k = Ok b.
Proof.
  intros H1 H2. destruct doc; try congruence; eexists; reflexivity.
Qed.

(** What [findById] resolves with on a readable file. *)
Lemma findById_found (m : Model.t) (h : DBHandler.t) (disk : Fs.t) (p : Str.t)
  (mode : Z) (file : Str.t) (id : value) (ids : list Str.t) (docs : list value)
  (asDocument : bool) (timeCheck now : Z) (random : Str.t) :
  dbFilePath h = Some p ->
  disk p = Fs.Node true mode file ->
  valid_id id = Some ids ->
  JSON_parse P (load_file file) = Some (VArray docs) ->
  Forall (fun doc => doc <> VNull /\ doc <> VUndefined) docs ->
  findById P m h disk id asDocument timeCheck now random
  = Resolved (hand_back P m asDocument true timeCheck now random
                (filter (fun doc => match hasOwn P doc Document.idMark with
                                    | Ok true => has_id_among P ids doc
                                    | _ => false
                                    end) docs)).
Proof.
  intros Hh Hdisk Hid Hparse Hdocs.
  unfold findById, DBHandler.is_connected. rewrite Hh, Hid. cbn [negb].
  rewrite (find_parsed P h disk p mode file _ Hh Hdisk Hparse).
  rewrite include_any; [reflexivity|].
  apply Forall_impl with (2 := Hdocs). intros doc [H1 H2].
  apply hasOwn_defined; assumption.
Qed.

(** X16.  On a readable file whose text parses to an array without
    [null] entries, [findById] resolves with exactly the records that
    have an [_id] of their own among the asked ids, in the order of the
    file; handed back as documents, every one that is rebuilt is marked
    as saved and carries the [_id] of a record of the file, one of the
    asked ids. *)
Theorem findById_selects (m : Model.t) (h : DBHandler.t) (disk : Fs.t) (p : Str.t)
  (mode : Z) (file : Str.t) (id : value) (ids : list Str.t) (docs : list value)
  (asDocument : bool) (timeCheck now : Z) (random : Str.t) :
  dbFilePath h = Some p ->
  disk p = Fs.Node true mode file ->
  valid_id id = Some ids ->
  JSON_parse P (load_file file) = Some (VArray docs) ->
  Forall (fun doc => doc <> VNull /\ doc <> VUndefined) docs ->
  findById P m h disk id asDocument timeCheck now random
  = Resolved (hand_back P m asDocument true timeCheck now random
                (filter (fun doc => match hasOwn P doc Document.idMark with
                                    | Ok true => has_id_among P ids doc
                                    | _ => false
                                    end) docs))
  /\ (forall d,
        In (AsDocument (Some d))
           (hand_back P m true true timeCheck now random
              (filter (fun doc => match hasOwn P doc Document.idMark with
                                  | Ok true => has_id_among P ids doc
                                  | _ => false
                                  end) docs)) ->
        Document.saved d = true
        /\ includes_id ids (Document._id d) = true
        /\ exists doc, In doc docs /\ prop_get P doc Document.idMark = Ok (Document._id d)).
Proof.
  intros Hh Hdisk Hid Hparse Hdocs. split.
  - apply (findById_found m h disk p mode file id ids docs asDocument timeCheck now
             random Hh Hdisk Hid Hparse Hdocs).
  - intros d Hin. unfold hand_back in Hin. apply in_map_iff in Hin.
    destruct Hin as [doc [Heq Hdoc]]. injection Heq as Heq.
    apply filter_In in Hdoc. destruct Hdoc as [Hdoc Hsel].
    destruct (rebuilt_id P _ _ _ _ _ _ _ Heq) as [Hsaved [_ Hget]].
    split; [exact Hsaved|]. split; [|exists doc; tauto].
    destruct (hasOwn P doc Document.idMark) as [[|]|]; try discriminate.
    unfold has_id_among in Hsel. rewrite Hget in Hsel. exact Hsel.
Qed.

(** X8.  When [pop_all] resolves, it resolves with what [find] reads
    from the file as it was; afterwards the file reads as the empty
    array, the disk is the one [delete_all] leaves, and no other path of
    the disk has changed. *)
Theorem pop_all_empties (h : DBHandler.t) (disk disk' : Fs.t) (docArray : value) :
  pop_all P h disk = (disk', Resolved docArray) ->
  find P h disk = Resolved docArray
  /\ DBHandler.load h disk' = Resolved (lit "[]")
  /\ delete_all h disk = (disk', Resolved tt)
  /\ (forall q, dbFilePath h <> Some q -> disk' q = disk q).
Proof.
  unfold pop_all, delete_all. destruct (negb (is_connected h)) eqn:Hc; [discriminate|].
  destruct (find P h disk) as [v| |] eqn:Hfind; try discriminate.
  unfold erase_db, load, write_whole. unfold is_connected in Hc.
  destruct (dbFilePath h) as [p|]; [|discriminate].
  destruct (disk p) as [[|]| |[|] mode content]; intros H; try discriminate;
    injection H as <- <-; rewrite update_same;
    (split; [reflexivity|]; split; [reflexivity|]; split; [reflexivity|];
     intros q Hq; apply update_other; congruence).
Qed.

End Find.

Lemma findById_selects_witness :
  findById Reference.platform Reference.story_model Reference.connected
    (Reference.disk_with 33188 Reference.two_records)
    (VStr (lit "0-1000-abcdef012345")) true 3000 3001 []
  = Resolved [AsDocument (Some Reference.saved_doc)].
Proof.
  rewrite (proj1 (findById_selects Reference.platform Reference.story_model
                    Reference.connected
                    (Reference.disk_with 33188 Reference.two_records)
                    Reference.db_path 33188%Z Reference.two_records
                    (VStr (lit "0-1000-abcdef012345")) [lit "0-1000-abcdef012345"]
                    [VObject [(Document.idMark, VStr (lit "0-1000-abcdef012345"));
                              (Reference.k_title, VStr (lit "A"));
                              (Document.createTMark, VStr (lit "T1000"));
                              (Document.updateTMark, VStr (lit "T1000"))];
                     Reference.other_record]
                    true 3000%Z 3001%Z []
                    eq_refl eq_refl eq_refl eq_refl
                    ltac:(repeat constructor; discriminate))).
  vm_compute. reflexivity.
Defined.

Lemma pop_all_empties_witness :
  find Reference.platform Reference.connected
    (Reference.disk_with 33188 Reference.idless_file)
  = Resolved (VArray [Reference.idless_record])
  /\ DBHandler.load Reference.connected
       (fst (pop_all Reference.platform Reference.connected
               (Reference.disk_with 33188 Reference.idless_file)))
     = Resolved (lit "[]").
Proof.
  destruct (pop_all_empties Reference.platform Reference.connected
              (Reference.disk_with 33188 Reference.idless_file)
              (fst (pop_all Reference.platform Reference.connected
                      (Reference.disk_with 33188 Reference.idless_file)))
              (VArray [Reference.idless_record]) eq_refl)
    as [H1 [H2 _]].
  split; [exact H1 | exact H2].
Defined.

End FinderFacts.

(** ** Saving again: the record a document replaces *)

Module UpdateFacts.

Import Str Js Obj Store StrFacts JsFacts DBHandlerFacts DeleteFacts SaveFacts LoadFacts RewriteFacts.
Import DBHandler Document.

Lemma starts_includes (p s : Str.t) : starts_with p s = true -> includes p s = true.
Proof. intros H. destruct s; simpl; rewrite H; reflexivity. Qed.

Lemma includes_middle (p a b : Str.t) : includes p (a ++ p ++ b) = true.
Proof.
  apply includes_app_r. apply starts_includes. apply starts_with_app.
Qed.

Section Resave.

Context (P : Platform).

Lemma toString_frame (d : Document.t) :
  exists rest,
    toString P d
    = lit "{" ++ "034"%char :: (id_pattern P d ++ "034"%char :: rest ++ lit "}").
Proof.
  unfold toString, id_pattern, quote.
  set (body := removelast (tl (JSON_stringify P (_content d)))).
  destruct (_createTime d) as [tc|]; destruct (_updateTime d) as [tu|].
  - exists (lit "," ++ body
            ++ lit "," ++ ["034"%char] ++ createTMark ++ ["034"%char] ++ lit ":"
            ++ ["034"%char] ++ toISOString P tc ++ ["034"%char]
            ++ lit "," ++ ["034"%char] ++ updateTMark ++ ["034"%char] ++ lit ":"
            ++ ["034"%char] ++ toISOString P tu ++ ["034"%char]).
    repeat rewrite <- app_assoc. reflexivity.
  - exists (lit "," ++ body
            ++ lit "," ++ ["034"%char] ++ createTMark ++ ["034"%char] ++ lit ":"
            ++ ["034"%char] ++ toISOString P tc ++ ["034"%char]).
    repeat rewrite <- app_assoc. reflexivity.
  - exists (lit "," ++ body
            ++ lit "," ++ ["034"%char] ++ updateTMark ++ ["034"%char] ++ lit ":"
            ++ ["034"%char] ++ toISOString P tu ++ ["034"%char]).
    repeat rewrite <- app_assoc. reflexivity.
  - exists (lit "," ++ body).
    repeat rewrite <- app_assoc. reflexivity.
Qed.

Lemma record_holds_pattern (d : Document.t) :
  includes (encode_str (id_pattern P d)) (encode_str (toString P d)) = true.
Proof.
  destruct (toString_frame d) as [rest ->].
  change (lit "{" ++ "034"%char :: (id_pattern P d ++ "034"%char :: rest ++ lit "}"))
    with (lit "{" ++ "034"%char :: (id_pattern P d ++ "034"%char :: (rest ++ lit "}"))).
  rewrite encode_barrier by discriminate.
  rewrite encode_barrier by discriminate.
  change (encode_str (lit "{") ++ "034"%char
            :: encode_str (id_pattern P d) ++ "034"%char :: encode_str (rest ++ lit "}"))
    with ((encode_str (lit "{") ++ ["034"%char])
            ++ encode_str (id_pattern P d) ++ "034"%char :: encode_str (rest ++ lit "}")).
  apply includes_middle.
Qed.

Lemma record_is_plain (d : Document.t) : plain (encode_str (toString P d)).
Proof.
  split; [apply encode_no_newLine|].
  destruct (toString_frame d) as [rest ->].
  replace (lit "{" ++ "034"%char :: (id_pattern P d ++ "034"%char :: rest ++ lit "}"))
    with ((lit "{" ++ "034"%char :: (id_pattern P d ++ "034"%char :: rest)) ++ "}"%char :: [])
    by (cbn [lit list_ascii_of_string app]; rewrite <- app_assoc; reflexivity).
  rewrite encode_barrier by discriminate.
  rewrite last_char_app. discriminate.
Qed.

Lemma save_persisted (d : Document.t) (h : DBHandler.t) (disk : Fs.t) (p : Str.t)
  (mode : Z) (file : Str.t) :
  saved d = true -> dbFilePath h = Some p -> disk p = Fs.Node true mode file ->
  Document.save P d h disk
  = (set_saved d true,
     Fs.update
       (Fs.update disk p
          (Fs.Node true mode (delete_by_match_file (id_pattern P d) (read_chunks P file))))
       p
       (Fs.Node true mode
          (save_file (delete_by_match_file (id_pattern P d) (read_chunks P file))
             (toString P d))),
     Resolved (toString P d)).
Proof.
  intros Hs Hh Hdisk.
  unfold Document.save, DBHandler.is_connected, delete_by_match, DBHandler.save.
  rewrite Hh, Hs, id_pattern_nonempty, Hdisk. cbn [negb].
  rewrite update_same. reflexivity.
Qed.

(** X17.  Saving a document that was saved before replaces its own
    record: when the file holds the record of a document with the same
    id among records that do not hold the id pattern, the file
    afterwards holds the other records in their order, followed by the
    new text of the document; no other path of the disk changes. *)
Theorem update_replaces_own_record (d d0 : Document.t) (h : DBHandler.t)
  (disk : Fs.t) (p : Str.t) (mode : Z) (rs1 rs2 : list Str.t) :
  saved d = true -> dbFilePath h = Some p ->
  _id d = _id d0 ->
  disk p = Fs.Node true mode (layout (rs1 ++ encode_str (toString P d0) :: rs2)) ->
  concat (read_chunks P (layout (rs1 ++ encode_str (toString P d0) :: rs2)))
  = layout (rs1 ++ encode_str (toString P d0) :: rs2) ->
  Forall plain (rs1 ++ rs2) ->
  Forall (fun r => keep_line (encode_str (id_pattern P d)) r = true) (rs1 ++ rs2) ->
  exists disk',
    Document.save P d h disk = (set_saved d true, disk', Resolved (toString P d))
    /\ disk' p
       = Fs.Node true mode (layout (rs1 ++ rs2 ++ [encode_str (toString P d)]))
    /\ forall q, q <> p -> disk' q = disk q.
Proof.
  intros Hs Hh Hid Hdisk Hwhole Hp Hk.
  eexists. split; [apply (save_persisted d h disk p mode _ Hs Hh Hdisk)|].
  split.
  - rewrite update_same. f_equal.
    assert (Hpat : id_pattern P d = id_pattern P d0).
    { unfold id_pattern. rewrite Hid. reflexivity. }
    assert (Hall : Forall plain (rs1 ++ encode_str (toString P d0) :: rs2)).
    { apply Forall_app in Hp. destruct Hp as [H1 H2].
      apply Forall_app. split; [exact H1|]. constructor; [apply record_is_plain | exact H2]. }
    assert (Hne : rs1 ++ encode_str (toString P d0) :: rs2 <> [])
      by (destruct rs1; discriminate).
    rewrite (kept_of_layout (id_pattern P d) _ _ Hne Hall Hwhole).
    rewrite filter_app. cbn [filter].
    assert (Hinc : includes (encode_str (id_pattern P d)) (encode_str (toString P d0))
                   = true) by (rewrite Hpat; apply record_holds_pattern).
    rewrite (keep_line_pattern _ _ Hinc).
    apply Forall_app in Hk. destruct Hk as [Hk1 Hk2].
    rewrite (filter_all _ _ Hk1), (filter_all _ _ Hk2).
    rewrite (save_after_kept (encode_str (id_pattern P d)) (rs1 ++ rs2)).
    + rewrite <- app_assoc. reflexivity.
    + exact Hp.
    + apply Forall_app. split; assumption.
  - intros q Hq. rewrite !update_other by exact Hq. reflexivity.
Qed.

Lemma includes_newLine_literal (s : Str.t) :
  includes newLine s = false ->
  includes newLine (idMark ++ quote ++ lit ":" ++ quote ++ s) = false.
Proof.
  intros H. unfold idMark, quote. cbn [lit list_ascii_of_string app].
  rewrite !includes_newLine_skip by discriminate. exact H.
Qed.

(** X18.  The update removes by an id pattern that is not closed by a
    quote.  Saving a document that was saved before leaves in the file
    the records that do not hold its id pattern, in their order,
    followed by the new text of the document; the record of every
    document whose id, as text, starts with the id of the saved one
    holds the pattern, so it is not among the records that are left.
    No other path of the disk changes. *)
Theorem update_removes_longer_ids (d d' : Document.t) (x : Str.t) (h : DBHandler.t)
  (disk : Fs.t) (p : Str.t) (mode : Z) (rs : list Str.t) :
  saved d = true -> dbFilePath h = Some p ->
  str_of P (_id d') = str_of P (_id d) ++ x ->
  includes newLine (str_of P (_id d')) = false ->
  disk p = Fs.Node true mode (layout rs) ->
  concat (read_chunks P (layout rs)) = layout rs ->
  rs <> [] -> Forall plain rs ->
  exists disk',
    Document.save P d h disk = (set_saved d true, disk', Resolved (toString P d))
    /\ disk' p
       = Fs.Node true mode
           (layout (filter (keep_line (encode_str (id_pattern P d))) rs
                    ++ [encode_str (toString P d)]))
    /\ keep_line (encode_str (id_pattern P d)) (encode_str (toString P d')) = false
    /\ ~ In (encode_str (toString P d'))
            (filter (keep_line (encode_str (id_pattern P d))) rs)
    /\ forall q, q <> p -> disk' q = disk q.
Proof.
  intros Hs Hh Hx Hnl Hdisk Hwhole Hne Hp.
  assert (Hgone : keep_line (encode_str (id_pattern P d)) (encode_str (toString P d'))
                  = false).
  { apply keep_line_pattern.
    assert (Hd : encode_str (id_pattern P d) = id_pattern P d).
    { apply replaceAll_absent; [discriminate|]. unfold id_pattern.
      apply includes_newLine_literal.
      eapply includes_prefix_false. rewrite <- Hx. exact Hnl. }
    assert (Hd' : encode_str (id_pattern P d') = id_pattern P d ++ x).
    { unfold id_pattern. rewrite Hx.
      rewrite <- !app_assoc.
      replace (idMark ++ quote ++ lit ":" ++ quote ++ str_of P (_id d) ++ x)
        with (idMark ++ quote ++ lit ":" ++ quote ++ (str_of P (_id d) ++ x))
        by reflexivity.
      apply replaceAll_absent; [discriminate|].
      apply includes_newLine_literal. rewrite <- Hx. exact Hnl. }
    rewrite Hd. destruct (toString_frame d') as [rest ->].
    change (lit "{" ++ "034"%char :: (id_pattern P d' ++ "034"%char :: rest ++ lit "}"))
      with (lit "{" ++ "034"%char :: (id_pattern P d' ++ "034"%char :: (rest ++ lit "}"))).
    rewrite encode_barrier by discriminate.
    rewrite encode_barrier by discriminate.
    rewrite Hd'. rewrite <- app_assoc.
    change (encode_str (lit "{") ++ "034"%char
              :: id_pattern P d ++ x ++ "034"%char :: encode_str (rest ++ lit "}"))
      with ((encode_str (lit "{") ++ ["034"%char])
              ++ id_pattern P d ++ x ++ "034"%char :: encode_str (rest ++ lit "}")).
    apply includes_middle. }
  exists (Fs.update
            (Fs.update disk p
               (Fs.Node true mode
                  (delete_by_match_file (id_pattern P d) (read_chunks P (layout rs)))))
            p
            (Fs.Node true mode
               (save_file
                  (delete_by_match_file (id_pattern P d) (read_chunks P (layout rs)))
                  (toString P d)))).
  split; [apply (save_persisted d h disk p mode _ Hs Hh Hdisk)|].
  split; [|split; [exact Hgone|split]].
  - rewrite update_same. f_equal.
    rewrite (kept_of_layout (id_pattern P d) _ _ Hne Hp Hwhole).
    apply (save_after_kept (encode_str (id_pattern P d))).
    + apply Forall_filter_keep. exact Hp.
    + apply filter_kept.
  - intros Hin. apply filter_In in Hin. destruct Hin as [_ Hkeep].
    rewrite Hgone in Hkeep. discriminate Hkeep.
  - intros q Hq. rewrite !update_other by exact Hq. reflexivity.
Qed.

End Resave.

Lemma update_replaces_own_record_witness :
  exists disk',
    Document.save Reference.platform
      (set_content Reference.saved_doc (VObject [(Reference.k_title, VStr (lit "B"))]))
      Reference.connected (Reference.disk_with 33188 Reference.two_records)
    = (set_saved
         (set_content Reference.saved_doc (VObject [(Reference.k_title, VStr (lit "B"))]))
         true,
       disk',
       Resolved
         (toString Reference.platform
            (set_content Reference.saved_doc
               (VObject [(Reference.k_title, VStr (lit "B"))]))))
    /\ disk' Reference.db_path
       = Fs.Node true 33188
           (layout
              ([] ++ [Reference.stringify Reference.other_record]
               ++ [encode_str
                     (toString Reference.platform
                        (set_content Reference.saved_doc
                           (VObject [(Reference.k_title, VStr (lit "B"))])))])).
Proof.
  destruct (update_replaces_own_record Reference.platform
              (set_content Reference.saved_doc
                 (VObject [(Reference.k_title, VStr (lit "B"))]))
              Reference.story_doc Reference.connected
              (Reference.disk_with 33188 Reference.two_records)
              Reference.db_path 33188%Z [] [Reference.stringify Reference.other_record]
              eq_refl eq_refl eq_refl eq_refl eq_refl
              ltac:(repeat constructor; discriminate)
              ltac:(repeat constructor))
    as [disk' [H1 [H2 _]]].
  exists disk'. split; [exact H1 | exact H2].
Defined.

Lemma update_removes_longer_ids_witness :
  exists disk',
    disk' Reference.db_path
    = Fs.Node true 33188
        (layout
           ([Reference.stringify Reference.other_record]
            ++ [encode_str
                  (toString Reference.platform
                     (set_id Reference.saved_doc (VStr (lit "0-1000"))))])).
Proof.
  destruct (update_removes_longer_ids Reference.platform
              (set_id Reference.saved_doc (VStr (lit "0-1000")))
              Reference.story_doc (lit "-abcdef012345") Reference.connected
              (Reference.disk_with 33188 Reference.two_records)
              Reference.db_path 33188%Z
              [encode_str (toString Reference.platform Reference.story_doc);
               Reference.stringify Reference.other_record]
              eq_refl eq_refl eq_refl eq_refl eq_refl eq_refl
              ltac:(discriminate)
              ltac:(repeat constructor; discriminate))
    as [disk' [_ [H _]]].
  exists disk'. exact H.
Defined.

End UpdateFacts.

(** ** The module [mydb]: models and the handlers they hold *)

Module MyDbFacts.

Import Str Js Obj Store StrFacts JsFacts StoreFacts SchemaFacts ConstructorFacts.
Import MyDb.

Lemma loaded_well_formed : well_formed loaded.
Proof.
  unfold well_formed, loaded; simpl. repeat split; try (intros; discriminate).
  - intros inst [].
  - constructor.
Qed.

Lemma set_handler_well_formed (w : world) (r : ref) (h : DBHandler.t) :
  well_formed w -> well_formed (set_handler w r h).
Proof.
  intros (H1 & H2 & H3 & H4). unfold well_formed, set_handler; simpl.
  rewrite put_length. auto.
Qed.

Lemma disconnect_model_well_formed (w : world) (m : ref) :
  well_formed w -> well_formed (disconnect_model w m).
Proof.
  intros H. unfold disconnect_model.
  destruct (nth_error (models w) m) as [inst|]; [|exact H].
  destruct (DBHandler.is_connected _); [|exact H].
  apply set_handler_well_formed. exact H.
Qed.

Lemma set_dbHandler_none_well_formed (w : world) :
  well_formed w -> well_formed (set_dbHandler w None).
Proof.
  intros (H1 & H2 & H3 & H4). unfold well_formed, set_dbHandler; simpl.
  repeat split; auto. intros; discriminate.
Qed.

Lemma disconnect_well_formed (w : world) (model : option ref) :
  well_formed w -> well_formed (disconnect w model).
Proof.
  intros H. unfold disconnect. destruct model as [m|].
  - apply disconnect_model_well_formed. exact H.
  - pose proof (set_dbHandler_none_well_formed w H) as H'.
    destruct (lastModel (set_dbHandler w None)); [|exact H'].
    apply disconnect_model_well_formed. exact H'.
Qed.

Section Runs.

Context (P : Platform).

Lemma model_well_formed (w : world) (schema : Schema.t) :
  well_formed w -> well_formed (fst (model P w schema)).
Proof.
  intros H. unfold model.
  destruct (Schema.is_valid_schema P schema) as [valid|]; [|exact H].
  destruct (negb valid); [exact H|].
  destruct (Schema.copy P schema) as [c|]; [|exact H].
  destruct (Model.new P c) as [st|]; [|exact H].
  destruct H as (H1 & H2 & H3 & H4).
  unfold well_formed; cbn [fst handlers models dbHandler lastModel].
  rewrite !length_app. cbn [length].
  split; [|split; [|split]].
  - intros inst Hin. apply in_app_or in Hin. destruct Hin as [Hin|[<-|[]]].
    + specialize (H1 _ Hin). lia.
    + cbn. lia.
  - rewrite map_app. cbn [map handler].
    apply NoDup_app; [exact H2 | repeat constructor; intros [] | ].
    intros x Hx [<-|[]]. apply in_map_iff in Hx. destruct Hx as [inst [E Hin]].
    specialize (H1 _ Hin). lia.
  - intros r Hr. specialize (H3 _ Hr). lia.
  - intros m Hm. injection Hm as <-. lia.
Qed.

Lemma set_model_handler_well_formed (w : world) (m r : ref) :
  well_formed w -> r < length (handlers w) ->
  (forall inst, In inst (models w) -> handler inst <> r) ->
  well_formed (set_model_handler w m r).
Proof.
  intros (H1 & H2 & H3 & H4) Hr Hfresh. unfold set_model_handler.
  destruct (nth_error (models w) m) as [inst|] eqn:E; [|repeat split; assumption].
  unfold well_formed; cbn [handlers models dbHandler lastModel].
  rewrite put_length. split; [|split; [|split]]; auto.
  - intros i Hin. apply in_put in Hin. destruct Hin as [->|Hin]; [exact Hr | auto].
  - rewrite map_put. cbn [handler]. apply NoDup_put_fresh; [exact H2|].
    intros Hin. apply in_map_iff in Hin. destruct Hin as [i [Ei Hi]].
    apply (Hfresh _ Hi). exact Ei.
Qed.

Lemma connect_well_formed (w : world) (disk : Fs.t) (dbURI : value)
  (model : option ref) :
  well_formed w -> well_formed (fst (fst (connect P w disk dbURI model))).
Proof.
  intros H. unfold connect.
  destruct (match model with Some m => nth_error (models w) m | None => None end)
    as [inst|].
  - destruct (DBHandler.connect_dbFilePath P _ disk dbURI) as [[h disk'] outcome].
    cbn [fst]. apply set_handler_well_formed. exact H.
  - destruct (DBHandler.connect_dbFilePath P _ disk dbURI) as [[h disk'] outcome].
    assert (Hw : well_formed {| handlers := handlers w ++ [h]; models := models w;
                               dbHandler := Some (length (handlers w));
                               lastModel := lastModel w |}).
    { destruct H as (H1 & H2 & H3 & H4).
      unfold well_formed; cbn [handlers models dbHandler lastModel].
      rewrite length_app. cbn [length]. split; [|split; [|split]]; auto.
      - intros i Hin. specialize (H1 _ Hin). lia.
      - intros r Hr. injection Hr as <-. lia. }
    destruct outcome as [u|e|]; cbn [fst].
    + cbn [lastModel]. destruct (lastModel w) as [m|]; [|exact Hw].
      apply set_model_handler_well_formed; [exact Hw| |].
      * cbn [handlers]. rewrite length_app. cbn. lia.
      * cbn [models]. intros i Hin. destruct H as (H1 & _).
        specialize (H1 _ Hin). lia.
    + apply set_dbHandler_none_well_formed. exact Hw.
    + exact Hw.
Qed.

Lemma step_well_formed (st : world * Fs.t) (c : call) :
  well_formed (fst st) -> well_formed (fst (step P st c)).
Proof.
  intros H. destruct c as [schema|dbURI m|m]; cbn [step].
  - cbn [fst]. apply model_well_formed. exact H.
  - pose proof (connect_well_formed (fst st) (snd st) dbURI m H) as H'.
    destruct (connect P (fst st) (snd st) dbURI m) as [[w disk] r]. exact H'.
  - cbn [fst]. apply disconnect_well_formed. exact H.
Qed.

Lemma run_well_formed (disk : Fs.t) (calls : list call) :
  well_formed (fst (run P disk calls)).
Proof.
  unfold run.
  assert (G : forall st, well_formed (fst st) -> well_formed (fst (fold_left (step P) calls st))).
  { induction calls as [|c calls IH]; intros st H; [exact H|].
    cbn [fold_left]. apply IH. apply step_well_formed. exact H. }
  apply G. apply loaded_well_formed.
Qed.

Lemma set_handler_other (w : world) (r : ref) (h : DBHandler.t) (m : ref) (inst : instance) :
  nth_error (models w) m = Some inst -> handler inst <> r ->
  dbFilePath_of (set_handler w r h) m = dbFilePath_of w m.
Proof.
  intros Hm Hr. unfold dbFilePath_of, set_handler, handler_at; cbn [models handlers].
  rewrite Hm. rewrite nth_put_other by congruence. reflexivity.
Qed.

Lemma distinct_handlers (w : world) (m m' : ref) (i i' : instance) :
  well_formed w -> m <> m' ->
  nth_error (models w) m = Some i -> nth_error (models w) m' = Some i' ->
  handler i <> handler i'.
Proof.
  intros (_ & Hnd & _) Hne Hi Hi' E.
  apply Hne. apply (proj1 (NoDup_nth_error (map handler (models w))) Hnd).
  - rewrite length_map. apply nth_error_Some. congruence.
  - rewrite !nth_error_map, Hi, Hi'. cbn. congruence.
Qed.

(** X19.  After any sequence of calls of the module, connecting or
    disconnecting one model leaves the path of every other model as it
    was: no two models made by [model] hold the same handler. *)
Theorem models_are_isolated (disk : Fs.t) (calls : list call) (dbURI : value)
  (m m' : ref) :
  m <> m' ->
  m < length (models (fst (run P disk calls))) ->
  dbFilePath_of
    (fst (fst (connect P (fst (run P disk calls)) (snd (run P disk calls))
                 dbURI (Some m)))) m'
  = dbFilePath_of (fst (run P disk calls)) m'
  /\ dbFilePath_of (disconnect (fst (run P disk calls)) (Some m)) m'
     = dbFilePath_of (fst (run P disk calls)) m'.
Proof.
  intros Hne Hm. pose proof (run_well_formed disk calls) as Hw.
  destruct (run P disk calls) as [w d]. cbn [fst snd] in *.
  destruct (nth_error (models w) m) as [inst|] eqn:Em;
    [|apply nth_error_None in Em; lia].
  assert (Hother : forall h, dbFilePath_of (set_handler w (handler inst) h) m'
                             = dbFilePath_of w m').
  { intros h. destruct (nth_error (models w) m') as [inst'|] eqn:Em'.
    - apply (set_handler_other w _ h m' inst' Em').
      intros E. apply (distinct_handlers w m m' inst inst' Hw Hne Em Em'). congruence.
    - unfold dbFilePath_of, set_handler; cbn [models]. rewrite Em'. reflexivity. }
  split.
  - unfold connect. rewrite Em.
    destruct (DBHandler.connect_dbFilePath P _ d dbURI) as [[h disk'] outcome].
    cbn [fst]. apply Hother.
  - unfold disconnect, disconnect_model. rewrite Em.
    destruct (DBHandler.is_connected _); [apply Hother | reflexivity].
Qed.

Lemma connect_resolved (h0 h : DBHandler.t) (disk disk' : Fs.t) (dbURI : value) (u : unit) :
  DBHandler.connect_dbFilePath P h0 disk dbURI = (h, disk', Resolved u) ->
  exists p, dbURI = VStr p /\ DBHandler.dbFilePath h = Some p.
Proof.
  unfold DBHandler.connect_dbFilePath, DBHandler.check_db_file. intros H.
  destruct dbURI; try discriminate.
  exists s. split; [reflexivity|].
  destruct (negb (truthy (VStr s)) || negb (Str.eqb (extname P s) DBHandler.dbFileExt));
    [discriminate|].
  destruct (disk s) as [[|]| |[|] mode content]; try discriminate.
  - injection H as <- _ _. reflexivity.
  - destruct (negb (Z.land mode Fs.F_OK =? 0)%Z && negb (Z.land mode Fs.W_OK =? 0)%Z
              && negb (Z.land mode Fs.R_OK =? 0)%Z); [discriminate|].
    injection H as <- _ _. reflexivity.
Qed.

(** The instances the constructor builds from a definition whose types
    are named are schemas [model] makes a model from. *)
Lemma constructed_accepted (definition options : value) (s : Schema.t) :
  Schema.new P definition options = Ok s -> Schema.named_types definition ->
  (exists p, In p (keys (own_entries definition)) /\ p <> proto_key) ->
  accepted P s.
Proof.
  intros Hnew Hnamed Hp.
  pose proof (new_named_valid P _ _ _ Hnew Hnamed Hp) as Hvalid.
  split; [exact Hvalid|]. exists s. split; [|exact Hvalid].
  exact (copy_constructed P _ _ _ Hnew Hnamed Hp).
Qed.

Lemma model_made (w : world) (s : Schema.t) :
  accepted P s ->
  exists c,
    model P w s
    = ({| handlers := handlers w
                      ++ [match dbHandler w with
                          | Some r => DBHandler.copy (handler_at w r)
                          | None => fresh_handler
                          end];
          models := models w
                    ++ [{| state := {| Model.schema := c; Model.countDocs := 0 |};
                           handler := length (handlers w) |}];
          dbHandler := dbHandler w;
          lastModel := Some (length (models w)) |},
       Ok (length (models w))).
Proof.
  intros [Hvalid [c [Hcopy Hc]]]. exists c.
  unfold model. rewrite Hvalid. cbn [negb]. rewrite Hcopy. unfold Model.new.
  rewrite Hc. reflexivity.
Qed.

(** A call of [model] makes a model or leaves the module as it is. *)
Lemma model_outcome (w : world) (s : Schema.t) :
  accepted P s \/ fst (model P w s) = w.
Proof.
  unfold model, accepted.
  destruct (Schema.is_valid_schema P s) as [[|]|]; try (right; reflexivity).
  cbn [negb]. destruct (Schema.copy P s) as [c|]; [|right; reflexivity].
  unfold Model.new.
  destruct (Schema.is_valid_schema P c) as [[|]|] eqn:Hc; try (right; reflexivity).
  left. split; [reflexivity|]. exists c. split; [reflexivity | exact Hc].
Qed.

Lemma nth_snoc {A} (l : list A) (x d : A) : nth (length l) (l ++ [x]) d = x.
Proof. rewrite app_nth2 by lia. rewrite Nat.sub_diag. reflexivity. Qed.

Lemma nth_error_snoc {A} (l : list A) (x : A) : nth_error (l ++ [x]) (length l) = Some x.
Proof. rewrite nth_error_app2 by lia. rewrite Nat.sub_diag. reflexivity. Qed.

Lemma model_path (w : world) (s : Schema.t) :
  accepted P s ->
  well_formed w ->
  length (models (fst (model P w s))) = S (length (models w))
  /\ dbFilePath_of (fst (model P w s)) (length (models w))
     = match dbHandler w with
       | Some r => DBHandler.dbFilePath (handler_at w r)
       | None => None
       end
  /\ forall m, m <> length (models w) ->
       dbFilePath_of (fst (model P w s)) m = dbFilePath_of w m.
Proof.
  intros Hacc (H1 & _). destruct (model_made w s Hacc) as [c ->]. cbn [fst].
  split; [|split].
  - cbn [models]. rewrite length_app. cbn [length]. lia.
  - unfold dbFilePath_of, handler_at; cbn [models handlers].
    rewrite nth_error_snoc. cbn [handler]. rewrite nth_snoc.
    destruct (dbHandler w); reflexivity.
  - intros m Hm. unfold dbFilePath_of, handler_at; cbn [models handlers].
    destruct (Nat.lt_ge_cases m (length (models w))) as [Hlt|Hge].
    + rewrite nth_error_app1 by exact Hlt.
      destruct (nth_error (models w) m) as [inst|] eqn:E; [|reflexivity].
      rewrite app_nth1; [reflexivity|]. apply H1. eapply nth_error_In. exact E.
    + rewrite (proj2 (nth_error_None _ _)) by (rewrite length_app; cbn; lia).
      rewrite (proj2 (nth_error_None _ _)) by lia. reflexivity.
Qed.

Lemma model_keeps_module (w : world) (s : Schema.t) (r : ref) :
  well_formed w -> dbHandler w = Some r ->
  dbHandler (fst (model P w s)) = Some r
  /\ handler_at (fst (model P w s)) r = handler_at w r.
Proof.
  intros Hw Hdb. destruct (model_outcome w s) as [Hacc | E]; [|rewrite E; tauto].
  destruct (model_made w s Hacc) as [c ->]. cbn [fst dbHandler].
  split; [exact Hdb|]. unfold handler_at; cbn [handlers].
  apply app_nth1. destruct Hw as (_ & _ & H3 & _). exact (H3 r Hdb).
Qed.

(** Models made one after the other while the module holds a connected
    handler are all made connected to its path. *)
Lemma models_made_connected (schemas : list Schema.t) (r : ref) (p : Str.t) (n0 : nat) :
  forall w,
    well_formed w -> dbHandler w = Some r ->
    handler_at w r = {| DBHandler.dbFilePath := Some p |} ->
    (forall m, n0 <= m < length (models w) -> dbFilePath_of w m = Some p) ->
    (forall m, n0 <= m
               < length (models (fold_left (fun w s => fst (model P w s)) schemas w)) ->
       dbFilePath_of (fold_left (fun w s => fst (model P w s)) schemas w) m = Some p)
    /\ (Forall (accepted P) schemas ->
        length (models (fold_left (fun w s => fst (model P w s)) schemas w))
        = length (models w) + length schemas)
    /\ (forall m, m < length (models w) ->
          dbFilePath_of (fold_left (fun w s => fst (model P w s)) schemas w) m
          = dbFilePath_of w m).
Proof.
  induction schemas as [|s schemas IH]; intros w Hw Hdb Hat Hrange.
  - cbn [fold_left length]. split; [exact Hrange|]. split; [intros _; lia | reflexivity].
  - cbn [fold_left].
    destruct (model_keeps_module w s r Hw Hdb) as [Hdb1 Hat1].
    pose proof (model_well_formed w s Hw) as Hw1.
    assert (Hstep : length (models w) <= length (models (fst (model P w s)))
                    /\ (accepted P s ->
                        length (models (fst (model P w s))) = S (length (models w)))
                    /\ (forall m, m < length (models w) ->
                          dbFilePath_of (fst (model P w s)) m = dbFilePath_of w m)
                    /\ (forall m, n0 <= m < length (models (fst (model P w s))) ->
                          dbFilePath_of (fst (model P w s)) m = Some p)).
    { destruct (model_outcome w s) as [Hacc|E].
      - destruct (model_path w s Hacc Hw) as [Hlen [Hnew Hold]].
        split; [lia|]. split; [intros _; exact Hlen|]. split.
        + intros m Hm. apply Hold. lia.
        + intros m Hm. destruct (Nat.eq_dec m (length (models w))) as [->|Hne].
          * rewrite Hnew, Hdb, Hat. reflexivity.
          * rewrite (Hold m Hne). apply Hrange. lia.
      - rewrite E. split; [lia|]. split.
        + intros Hacc. destruct (model_path w s Hacc Hw) as [Hlen _].
          rewrite E in Hlen. lia.
        + split; [reflexivity | exact Hrange]. }
    destruct Hstep as [Hle [Hlen [Hold Hrange1]]].
    destruct (IH (fst (model P w s)) Hw1 Hdb1 (eq_trans Hat1 Hat) Hrange1)
      as [H1 [H2 H3]].
    split; [exact H1|]. split.
    + intros Hall. inversion Hall as [|? ? Hs Hrest]; subst.
      rewrite (H2 Hrest), (Hlen Hs). cbn [length]. lia.
    + intros m Hm. rewrite (H3 m) by lia. apply Hold. exact Hm.
Qed.

Lemma connect_all (w : world) (disk : Fs.t) (dbURI : value) (w' : world)
  (disk' : Fs.t) :
  well_formed w ->
  connect P w disk dbURI None = (w', disk', Resolved tt) ->
  exists p,
    dbURI = VStr p
    /\ dbHandler w' = Some (length (handlers w))
    /\ handler_at w' (length (handlers w)) = {| DBHandler.dbFilePath := Some p |}
    /\ length (handlers w') = S (length (handlers w))
    /\ length (models w') = length (models w)
    /\ lastModel w' = lastModel w
    /\ (forall m, lastModel w = Some m ->
          exists inst, nth_error (models w') m = Some inst
                       /\ handler inst = length (handlers w))
    /\ (forall m, lastModel w <> Some m -> nth_error (models w') m = nth_error (models w) m)
    /\ (forall r, r < length (handlers w) -> handler_at w' r = handler_at w r).
Proof.
  intros Hw H. unfold connect in H.
  destruct (DBHandler.connect_dbFilePath P fresh_handler disk dbURI)
    as [[h d'] outcome] eqn:Ec.
  destruct outcome as [u|e|]; try discriminate.
  destruct (connect_resolved _ _ _ _ _ _ Ec) as [p [-> Hp]].
  exists p. split; [reflexivity|].
  assert (Hh : h = {| DBHandler.dbFilePath := Some p |}).
  { destruct h as [x]. cbn in Hp. subst x. reflexivity. }
  subst h. destruct Hw as (H1 & H2 & H3 & H4).
  cbn [lastModel] in H.
  destruct (lastModel w) as [m|] eqn:El.
  - unfold set_model_handler in H. cbn [models handlers dbHandler lastModel] in H.
    specialize (H4 _ eq_refl).
    destruct (nth_error (models w) m) as [inst|] eqn:Em;
      [|apply nth_error_None in Em; lia].
    injection H as <- <-. cbn [dbHandler handlers models lastModel].
    unfold handler_at; cbn [handlers].
    rewrite length_app, put_length. cbn [length].
    split; [reflexivity|]. split; [apply nth_snoc|]. split; [lia|].
    split; [reflexivity|]. split; [reflexivity|]. split; [|split].
    + intros m0 E. injection E as <-. eexists.
      split; [apply nth_error_put_same; exact H4 | reflexivity].
    + intros m0 Hm0. apply nth_error_put_other. congruence.
    + intros r Hr. apply app_nth1. exact Hr.
  - injection H as <- <-. cbn [dbHandler handlers models lastModel].
    unfold handler_at; cbn [handlers]. rewrite length_app. cbn [length].
    split; [reflexivity|]. split; [apply nth_snoc|]. split; [lia|].
    split; [reflexivity|]. split; [reflexivity|]. split; [|split].
    + intros m0 E. discriminate.
    + reflexivity.
    + intros r Hr. apply app_nth1. exact Hr.
Qed.

(** X20.  After any sequence of calls, a [connect] without a model
    that resolves connects the model made last to the given path and
    leaves the path of every other model as it was.  Every model made
    afterwards by calls of [model], as many as there are and as long as
    no [connect] or [disconnect] comes in between, is made connected to
    that path: a call of [model] with a schema it accepts makes one, a
    call with another schema makes none, and the models there were keep
    their paths. *)
Theorem connect_reaches_last_model (disk : Fs.t) (calls : list call) (dbURI : value)
  (w' : world) (disk' : Fs.t) :
  connect P (fst (run P disk calls)) (snd (run P disk calls)) dbURI None
  = (w', disk', Resolved tt) ->
  exists p,
    dbURI = VStr p
    /\ (forall m, lastModel (fst (run P disk calls)) = Some m ->
          dbFilePath_of w' m = Some p)
    /\ (forall m, lastModel (fst (run P disk calls)) <> Some m ->
          dbFilePath_of w' m = dbFilePath_of (fst (run P disk calls)) m)
    /\ (forall s, accepted P s -> snd (model P w' s) = Ok (length (models w')))
    /\ (forall schemas,
          (forall m,
             length (models w') <= m
             < length (models (fold_left (fun w s => fst (model P w s)) schemas w')) ->
             dbFilePath_of (fold_left (fun w s => fst (model P w s)) schemas w') m
             = Some p)
          /\ (Forall (accepted P) schemas ->
              length (models (fold_left (fun w s => fst (model P w s)) schemas w'))
              = length (models w') + length schemas)
          /\ (forall m, m < length (models w') ->
                dbFilePath_of (fold_left (fun w s => fst (model P w s)) schemas w') m
                = dbFilePath_of w' m)).
Proof.
  intros H. pose proof (run_well_formed disk calls) as Hw.
  pose proof (connect_well_formed _ (snd (run P disk calls)) dbURI None Hw) as Hw'.
  destruct (run P disk calls) as [w d]. cbn [fst snd] in *.
  rewrite H in Hw'. cbn [fst] in Hw'.
  destruct (connect_all w d dbURI w' disk' Hw H)
    as (p & -> & Hdb & Hat & Hlen & Hlm & Hl & Hlast & Hothers & Hkeep).
  exists p. split; [reflexivity|]. split; [|split; [|split]].
  - intros m Hm. destruct (Hlast m Hm) as [inst [Hi Hr]].
    unfold dbFilePath_of. rewrite Hi, Hr, Hat. reflexivity.
  - intros m Hm. unfold dbFilePath_of. rewrite (Hothers m Hm).
    destruct (nth_error (models w) m) as [inst|] eqn:E; [|reflexivity].
    rewrite Hkeep; [reflexivity|]. destruct Hw as (H1 & _).
    apply H1. eapply nth_error_In. exact E.
  - intros s Hacc. destruct (model_made w' s Hacc) as [c ->]. reflexivity.
  - intros schemas.
    apply (models_made_connected schemas (length (handlers w)) p (length (models w')) w'
             Hw' Hdb Hat).
    intros m Hm. lia.
Qed.

Lemma is_connected_path (w : world) (m : ref) :
  is_connected w m = match dbFilePath_of w m with Some _ => true | None => false end.
Proof.
  unfold is_connected, dbFilePath_of, DBHandler.is_connected.
  destruct (nth_error (models w) m); reflexivity.
Qed.

(** X21.  After a [connect] without a model, the model made last
    holds the handler of the module itself, not a copy.  So
    disconnecting that model also disconnects the models made
    afterwards, although [connect] resolved and [disconnect()] was never
    called; disconnecting a model made after the [connect] has no such
    effect.  The models are made from a schema [model] accepts. *)
Theorem disconnecting_the_shared_handler (disk : Fs.t) (calls : list call)
  (dbURI : value) (w1 : world) (disk1 : Fs.t) (m : ref) (s : Schema.t) :
  lastModel (fst (run P disk calls)) = Some m ->
  connect P (fst (run P disk calls)) (snd (run P disk calls)) dbURI None
  = (w1, disk1, Resolved tt) ->
  accepted P s ->
  is_connected (fst (model P w1 s)) (length (models w1)) = true
  /\ is_connected (fst (model P (disconnect w1 (Some m)) s)) (length (models w1)) = false
  /\ is_connected
       (fst (model P (disconnect (fst (model P w1 s)) (Some (length (models w1)))) s))
       (S (length (models w1))) = true.
Proof.
  intros Hlast H Hnew. pose proof (run_well_formed disk calls) as Hw.
  pose proof (connect_well_formed _ (snd (run P disk calls)) dbURI None Hw) as Hw1.
  destruct (run P disk calls) as [w d]. cbn [fst snd] in *.
  rewrite H in Hw1. cbn [fst] in Hw1.
  destruct (connect_all w d dbURI w1 disk1 Hw H)
    as (p & -> & Hdb & Hat & Hlen & Hlm & Hl & Hshared & Hothers & Hkeep).
  destruct (Hshared m Hlast) as [inst [Hinst Hr]].
  set (r := length (handlers w)) in *.
  split; [|split].
  - rewrite is_connected_path.
    rewrite (proj1 (proj2 (model_path w1 s Hnew Hw1))), Hdb, Hat. reflexivity.
  - assert (Hd : disconnect w1 (Some m)
                 = set_handler w1 r (DBHandler.disconnect (handler_at w1 r))).
    { unfold disconnect, disconnect_model. rewrite Hinst, Hr, Hat. reflexivity. }
    pose proof (disconnect_well_formed w1 (Some m) Hw1) as Hwd.
    rewrite is_connected_path.
    replace (length (models w1)) with (length (models (disconnect w1 (Some m))))
      by (rewrite Hd; reflexivity).
    rewrite (proj1 (proj2 (model_path _ s Hnew Hwd))).
    rewrite Hd. unfold set_handler at 1. cbn [dbHandler]. rewrite Hdb.
    unfold handler_at, set_handler; cbn [handlers].
    rewrite nth_put_same by (rewrite Hlen; unfold r; lia). reflexivity.
  - pose proof (model_well_formed w1 s Hw1) as Hw2.
    destruct (model_made w1 s Hnew) as [c Hmade]. rewrite Hmade in *. cbn [fst] in *.
    set (w2 := {| handlers := handlers w1 ++ _; models := _; dbHandler := _;
                  lastModel := _ |}) in *.
    assert (Hd : disconnect w2 (Some (length (models w1)))
                 = set_handler w2 (length (handlers w1))
                     (DBHandler.disconnect (handler_at w2 (length (handlers w1))))).
    { unfold disconnect, disconnect_model. subst w2. cbn [models].
      rewrite nth_error_snoc. cbn [handler]. unfold handler_at; cbn [handlers].
      rewrite nth_snoc, Hdb. fold (handler_at w1 r). rewrite Hat. reflexivity. }
    pose proof (disconnect_well_formed w2 (Some (length (models w1))) Hw2) as Hw3.
    rewrite is_connected_path.
    replace (S (length (models w1)))
      with (length (models (disconnect w2 (Some (length (models w1))))))
      by (rewrite Hd; subst w2; cbn [set_handler models]; rewrite length_app; cbn; lia).
    rewrite (proj1 (proj2 (model_path _ s Hnew Hw3))).
    rewrite Hd. unfold set_handler at 1. cbn [dbHandler]. subst w2. cbn [dbHandler].
    rewrite Hdb.
    unfold handler_at, set_handler; cbn [handlers].
    rewrite nth_put_other by (unfold r; lia).
    rewrite app_nth1 by (unfold r; lia).
    fold (handler_at w1 r). rewrite Hat. reflexivity.
Qed.

End Runs.

(** For the instance the constructor returns from a definition whose
    only parameter is named [__proto__], [model] makes no model: after a
    [connect] that resolved there is then no new model, connected or
    not. *)
Lemma proto_schema_makes_no_model :
  ~ (forall (P : Platform) (disk : Fs.t) (calls : list call) (dbURI : value)
            (w1 : world) (disk1 : Fs.t) (m : ref) (definition options : value)
            (s : Schema.t),
        lastModel (fst (run P disk calls)) = Some m ->
        connect P (fst (run P disk calls)) (snd (run P disk calls)) dbURI None
        = (w1, disk1, Resolved tt) ->
        Schema.new P definition options = Ok s ->
        is_connected (fst (model P w1 s)) (length (models w1)) = true).
Proof.
  intros H.
  specialize (H Reference.platform (Reference.disk_with 33188 [])
                [CallModel Reference.story_schema] (VStr Reference.db_path)
                (fst (fst (connect Reference.platform
                             (fst (run Reference.platform (Reference.disk_with 33188 [])
                                     [CallModel Reference.story_schema]))
                             (snd (run Reference.platform (Reference.disk_with 33188 [])
                                     [CallModel Reference.story_schema]))
                             (VStr Reference.db_path) None)))
                (snd (fst (connect Reference.platform
                             (fst (run Reference.platform (Reference.disk_with 33188 [])
                                     [CallModel Reference.story_schema]))
                             (snd (run Reference.platform (Reference.disk_with 33188 [])
                                     [CallModel Reference.story_schema]))
                             (VStr Reference.db_path) None)))
                0
                (VObject [(proto_key, VObject [(Schema.k_type, VStr (lit "string"))])])
                VUndefined
                {| Schema._definition := VObject [];
                   Schema.options_ := [(Schema.k_timestamps, VBool false)] |}
                eq_refl eq_refl eq_refl).
  vm_compute in H. discriminate H.
Qed.

Lemma models_are_isolated_witness :
  dbFilePath_of
    (fst (fst (connect Reference.platform
                 (fst (run Reference.platform (Reference.disk_with 33188 [])
                         [CallModel Reference.story_schema;
                          CallModel Reference.story_schema]))
                 (snd (run Reference.platform (Reference.disk_with 33188 [])
                         [CallModel Reference.story_schema;
                          CallModel Reference.story_schema]))
                 (VStr Reference.db_path) (Some 0)))) 1
  = dbFilePath_of
      (fst (run Reference.platform (Reference.disk_with 33188 [])
              [CallModel Reference.story_schema; CallModel Reference.story_schema])) 1
  /\ dbFilePath_of
       (disconnect
          (fst (run Reference.platform (Reference.disk_with 33188 [])
                  [CallModel Reference.story_schema;
                   CallModel Reference.story_schema])) (Some 0)) 1
     = dbFilePath_of
         (fst (run Reference.platform (Reference.disk_with 33188 [])
                 [CallModel Reference.story_schema; CallModel Reference.story_schema])) 1.
Proof.
  apply (models_are_isolated Reference.platform (Reference.disk_with 33188 [])
           [CallModel Reference.story_schema; CallModel Reference.story_schema]
           (VStr Reference.db_path) 0 1).
  - discriminate.
  - vm_compute. lia.
Defined.

Lemma connect_reaches_last_model_witness :
  dbFilePath_of
    (fst (fst (connect Reference.platform
                 (fst (run Reference.platform (Reference.disk_with 33188 [])
                         [CallModel Reference.story_schema]))
                 (snd (run Reference.platform (Reference.disk_with 33188 [])
                         [CallModel Reference.story_schema]))
                 (VStr Reference.db_path) None))) 0
  = Some Reference.db_path.
Proof.
  destruct (connect_reaches_last_model Reference.platform
              (Reference.disk_with 33188 []) [CallModel Reference.story_schema]
              (VStr Reference.db_path)
              (fst (fst (connect Reference.platform
                           (fst (run Reference.platform (Reference.disk_with 33188 [])
                                   [CallModel Reference.story_schema]))
                           (snd (run Reference.platform (Reference.disk_with 33188 [])
                                   [CallModel Reference.story_schema]))
                           (VStr Reference.db_path) None)))
              (snd (fst (connect Reference.platform
                           (fst (run Reference.platform (Reference.disk_with 33188 [])
                                   [CallModel Reference.story_schema]))
                           (snd (run Reference.platform (Reference.disk_with 33188 [])
                                   [CallModel Reference.story_schema]))
                           (VStr Reference.db_path) None)))
              eq_refl)
    as [p [E [H _]]].
  injection E as <-. apply H. reflexivity.
Defined.

Lemma disconnecting_the_shared_handler_witness :
  is_connected
    (fst (model Reference.platform
            (disconnect
               (fst (fst (connect Reference.platform
                            (fst (run Reference.platform (Reference.disk_with 33188 [])
                                    [CallModel Reference.story_schema]))
                            (snd (run Reference.platform (Reference.disk_with 33188 [])
                                    [CallModel Reference.story_schema]))
                            (VStr Reference.db_path) None)))
               (Some 0))
            Reference.story_schema)) 1
  = false.
Proof.
  apply (disconnecting_the_shared_handler Reference.platform
           (Reference.disk_with 33188 []) [CallModel Reference.story_schema]
           (VStr Reference.db_path)
           (fst (fst (connect Reference.platform
                        (fst (run Reference.platform (Reference.disk_with 33188 [])
                                [CallModel Reference.story_schema]))
                        (snd (run Reference.platform (Reference.disk_with 33188 [])
                                [CallModel Reference.story_schema]))
                        (VStr Reference.db_path) None)))
           (snd (fst (connect Reference.platform
                        (fst (run Reference.platform (Reference.disk_with 33188 [])
                                [CallModel Reference.story_schema]))
                        (snd (run Reference.platform (Reference.disk_with 33188 [])
                                [CallModel Reference.story_schema]))
                        (VStr Reference.db_path) None)))
           0 Reference.story_schema eq_refl eq_refl).
  split; [reflexivity|]. exists Reference.story_schema. split; reflexivity.
Defined.

End MyDbFacts.

(** ** The controller of the stories *)

Module StoryFacts.

Import Str Js Obj Store StrFacts JsFacts SchemaFacts DocumentFacts SaveFacts DeleteFacts.
Import LoadFacts RewriteFacts IdFacts RebuildFacts FinderFacts UpdateFacts.
Import Story.

Lemma form_fold (formData : list (Str.t * value)) :
  NoDup (keys formData) ->
  forall l acc,
    (forall kv, In kv l -> In kv formData) ->
    NoDup (keys acc ++ keys l) ->
    fold_left (fun obj key =>
                 assign key (match lookup key formData with
                             | Some v => v
                             | None => VUndefined
                             end) obj)
      (filter (fun key => negb (starts_with (lit "_") key)) (keys l)) acc
    = acc ++ filter (fun kv => negb (starts_with (lit "_") (fst kv))) l.
Proof.
  intros Hnd. induction l as [|[k v] l IH]; intros acc Hin Hfresh.
  - simpl. rewrite app_nil_r. reflexivity.
  - cbn [keys map fst filter].
    assert (Hk : ~ In k (keys acc)).
    { intros H. cbn [keys map fst] in Hfresh. apply NoDup_remove_2 in Hfresh.
      apply Hfresh. apply in_or_app. left. exact H. }
    assert (Hin' : forall kv, In kv l -> In kv formData)
      by (intros kv H; apply Hin; right; exact H).
    destruct (negb (starts_with (lit "_") k)) eqn:E.
    + cbn [fold_left]. fold (keys l).
      rewrite (lookup_in k v formData Hnd) by (apply Hin; left; reflexivity).
      rewrite assign_new by exact Hk.
      rewrite IH.
      * rewrite <- app_assoc. reflexivity.
      * exact Hin'.
      * unfold keys. rewrite map_app. cbn [map fst]. rewrite <- app_assoc.
        exact Hfresh.
    + fold (keys l). apply IH; [exact Hin'|].
      cbn [keys map fst] in Hfresh. apply NoDup_remove_1 in Hfresh. exact Hfresh.
Qed.

(** X22.  The content [story_post] takes from a form is the form
    without the fields whose name starts with an underscore, the other
    fields in their order and with their values. *)
Theorem form_content_drops_hidden_fields (formData : list (Str.t * value)) :
  NoDup (keys formData) ->
  form_content formData
  = filter (fun kv => negb (starts_with (lit "_") (fst kv))) formData.
Proof.
  intros Hnd. unfold form_content.
  apply (form_fold formData Hnd formData []); [auto | exact Hnd].
Qed.

Lemma lookup_filter (g : Str.t -> bool) (k : Str.t) (l : list (Str.t * value)) :
  lookup k (filter (fun kv => g (fst kv)) l) = if g k then lookup k l else None.
Proof.
  induction l as [|[k' v] l IH]; simpl.
  - destruct (g k); reflexivity.
  - destruct (g k') eqn:E; rewrite ?lookup_cons.
    + destruct (Str.eqb k' k) eqn:Ek.
      * apply eqb_eq in Ek. subst. rewrite E. reflexivity.
      * exact IH.
    + rewrite IH. destruct (Str.eqb k' k) eqn:Ek; [|reflexivity].
      apply eqb_eq in Ek. subst. rewrite E. reflexivity.
Qed.

Lemma form_content_drops_hidden_fields_witness :
  form_content [(Document.idMark, VStr (lit "7"));
                (lit "_method", VStr (lit "POST"));
                (k_title, VStr (lit "A"))]
  = [(k_title, VStr (lit "A"))].
Proof.
  rewrite (form_content_drops_hidden_fields
             [(Document.idMark, VStr (lit "7"));
              (lit "_method", VStr (lit "POST"));
              (k_title, VStr (lit "A"))]
             ltac:(repeat constructor; simpl; intuition discriminate)).
  reflexivity.
Defined.

Lemma form_content_lookup (formData : list (Str.t * value)) (k : Str.t) :
  NoDup (keys formData) ->
  lookup k (form_content formData)
  = if negb (starts_with (lit "_") k) then lookup k formData else None.
Proof.
  intros Hnd. unfold form_content.
  rewrite (form_fold formData Hnd formData []); [|auto | exact Hnd].
  apply (lookup_filter (fun k => negb (starts_with (lit "_") k))).
Qed.

Section Controller.

Context (P : Platform).

Lemma storySchema_value :
  storySchema P
  = Ok {| Schema._definition :=
            VObject
              [ (k_title, VObject [(Schema.k_type, VStr (lit "string"));
                                   (Schema.k_required, VBool true);
                                   (Schema.k_default, VStr [])]);
                (k_snippet, VObject [(Schema.k_type, VStr (lit "string"));
                                     (Schema.k_required, VBool true);
                                     (Schema.k_default, VStr [])]);
                (k_body, VObject [(Schema.k_type, VStr (lit "string"));
                                  (Schema.k_required, VBool true);
                                  (Schema.k_default, VStr [])]) ];
          Schema.options_ := [(Schema.k_timestamps, VBool true)] |}.
Proof. vm_compute. reflexivity. Qed.

Lemma story_param (d : value) (c : list (Str.t * value)) (k t : Str.t) :
  prop_get P d k
  = Ok (VObject [(Schema.k_type, VStr (lit "string")); (Schema.k_required, VBool true);
                 (Schema.k_default, VStr [])]) ->
  lookup k c = Some (VStr t) ->
  Document.setup_param P d k (VObject c) = Ok (VStr t).
Proof.
  intros Hd Hk. unfold Document.setup_param.
  rewrite (prop_in_own P c k _ Hk), Hd. cbn [bind negb].
  rewrite (prop_get_own P [(Schema.k_type, VStr (lit "string"));
                           (Schema.k_required, VBool true);
                           (Schema.k_default, VStr [])]
             Schema.k_type (VStr (lit "string")) eq_refl).
  rewrite (prop_get_own P c k _ Hk). reflexivity.
Qed.

Lemma story_setup (s : Schema.t) (c : list (Str.t * value)) (t1 t2 t3 : Str.t) :
  Ok s = storySchema P ->
  lookup k_title c = Some (VStr t1) ->
  lookup k_snippet c = Some (VStr t2) ->
  lookup k_body c = Some (VStr t3) ->
  Document.setup_content P s (VObject c)
  = Ok (VObject [(k_title, VStr t1); (k_snippet, VStr t2); (k_body, VStr t3)]).
Proof.
  rewrite storySchema_value. intros Hs H1 H2 H3. injection Hs as ->.
  unfold Document.setup_content.
  match goal with |- context [Schema.definition ?x] =>
    change (Schema.definition x) with (Ok (Schema._definition x)) end.
  cbn [bind own_entries keys map fst Schema._definition].
  cbn [Document.setup_loop].
  match goal with |- context [Document.setup_param P ?d k_title _] =>
    rewrite (story_param d c k_title t1 eq_refl H1),
            (story_param d c k_snippet t2 eq_refl H2),
            (story_param d c k_body t3 eq_refl H3)
  end.
  reflexivity.
Qed.

Lemma init_doc_on_object (d : Document.t) (c : list (Str.t * value)) (nc : value) :
  Document.setup_content P (Document._schema d) (VObject c) = Ok nc ->
  exists d1, Document.init_doc P d (VObject c) = Ok d1.
Proof.
  intros H. unfold Document.init_doc. rewrite H. cbn [bind].
  unfold prop_in, prop_get. cbn [is_primitive bind].
  eexists. reflexivity.
Qed.

Lemma set_options_stamps (d : Document.t) (now : Z) :
  Schema.options_ (Document._schema d) = [(Schema.k_timestamps, VBool true)] ->
  exists d2, Document.set_options P d now = Ok d2 /\ Document._createTime d2 <> None.
Proof.
  intros H. unfold Document.set_options, Schema.options. rewrite H.
  change (structuredClone (VObject [(Schema.k_timestamps, VBool true)]))
    with (Ok (VObject [(Schema.k_timestamps, VBool true)])).
  cbn [bind].
  change (prop_get P (VObject [(Schema.k_timestamps, VBool true)]) Schema.k_timestamps)
    with (Ok (VBool true)).
  cbn [bind].
  destruct (Document._createTime d) as [tc|] eqn:E.
  - exists d. split; [reflexivity|]. congruence.
  - eexists. split; [reflexivity|]. discriminate.
Qed.

Lemma new_on_object (s : Schema.t) (c : list (Str.t * value)) (nc : value)
  (n now : Z) (random : Str.t) :
  Schema.is_valid_schema P s = Ok true ->
  Schema.options_ s = [(Schema.k_timestamps, VBool true)] ->
  Document.setup_content P s (VObject c) = Ok nc ->
  lookup Document.idMark c = None ->
  exists story,
    Document.new P (VObject c) s (VNum n) now random = Ok story
    /\ Document._content story = nc
    /\ Document._id story
       = VStr (Document.decimal n ++ lit "-" ++ Document.decimal now ++ lit "-" ++ random)
    /\ Document._schema story = s
    /\ Document.saved story = false
    /\ Document._createTime story <> None.
Proof.
  intros Hvalid Hopts Hsetup Hid.
  set (d0 := {| Document._content := VObject []; Document._createTime := None;
                Document._updateTime := None; Document._id := VStr [];
                Document._schema := s; Document.saved := false |}).
  destruct (init_doc_on_object d0 c nc Hsetup) as [d1 Hinit].
  destruct (init_doc_fields P _ _ _ Hinit) as [Hc1 [Hs1 [Hv1 _]]].
  assert (Hin : prop_in P Document.idMark (VObject c) = Ok false).
  { unfold prop_in, find_prop. cbn [is_primitive own_props own_entries].
    rewrite Hid. reflexivity. }
  pose proof (init_doc_keeps_id P _ _ _ Hinit Hin) as Hid1.
  cbn [Document._schema Document.saved Document._id d0] in *.
  destruct (set_options_stamps d1 now) as [d2 [Hopt Hct]]; [rewrite Hs1; exact Hopts|].
  destruct (set_options_fields P _ _ _ Hopt) as [Hc2 [Hs2 Hv2]].
  pose proof (set_options_id P _ _ _ Hopt) as Hid2.
  eexists. split.
  - unfold Document.new. cbn [truthy typeof negb orb].
    change (Str.eqb (lit "object") (lit "object")) with true.
    change (negb (Str.eqb (lit "number") (lit "string")
                  || Str.eqb (lit "number") (lit "number"))) with false.
    cbn [negb orb]. rewrite Hvalid. cbn [bind negb].
    fold d0. rewrite Hinit. cbn [bind]. rewrite Hopt. cbn [bind].
    rewrite Hid2, Hid1. cbn [Schema.is_string]. reflexivity.
  - cbn [Document.set_id Document._content Document._id Document._schema
           Document.saved Document._createTime].
    rewrite Hc1 in Hsetup. injection Hsetup as Hsetup.
    repeat split; try congruence.
Qed.

Lemma story_schema_facts (s : Schema.t) :
  Ok s = storySchema P ->
  Schema.is_valid_schema P s = Ok true
  /\ Schema.options_ s = [(Schema.k_timestamps, VBool true)].
Proof.
  intros Hs. rewrite storySchema_value in Hs. injection Hs as ->.
  split; reflexivity.
Qed.

(** X23.  A form posted with [_method] POST and a text for [title],
    [snippet] and [body], on a connected model of the story schema whose
    file can be read: the controller answers with a redirect to
    [/stories]; the counter of the model is one more; the file is what
    [save] makes of it with the text of a new story, whose content is
    the three fields, whose id is minted from the counter, and which has
    a creation time; all other fields of the form are dropped. *)
Theorem story_post_creates (Story : Model.t) (h : DBHandler.t) (disk : Fs.t)
  (p : Str.t) (mode : Z) (file : Str.t) (formData : list (Str.t * value))
  (timeCheck now : Z) (random : Str.t) (editTime : Z) (t1 t2 t3 : Str.t) :
  Ok (Model.schema Story) = storySchema P ->
  DBHandler.dbFilePath h = Some p ->
  disk p = Fs.Node true mode file ->
  NoDup (keys formData) ->
  lookup (lit "_method") formData = Some (VStr (lit "POST")) ->
  lookup k_title formData = Some (VStr t1) ->
  lookup k_snippet formData = Some (VStr t2) ->
  lookup k_body formData = Some (VStr t3) ->
  exists story,
    story_post P Story h disk formData timeCheck now random editTime
    = ({| Model.schema := Model.schema Story;
          Model.countDocs := (Model.countDocs Story + 1)%Z |},
       Fs.update disk p
         (Fs.Node true mode (DBHandler.save_file file (Document.toString P story))),
       Redirect stories_url)
    /\ Document._content story
       = VObject [(k_title, VStr t1); (k_snippet, VStr t2); (k_body, VStr t3)]
    /\ Document._id story
       = VStr (Document.decimal (Model.countDocs Story) ++ lit "-"
               ++ Document.decimal now ++ lit "-" ++ random)
    /\ Document._createTime story <> None.
Proof.
  intros Hs Hh Hdisk Hnd Hm H1 H2 H3.
  destruct (story_schema_facts _ Hs) as [Hvalid Hopts].
  set (c := form_content formData).
  assert (Hc : forall k, lookup k c
                         = if negb (starts_with (lit "_") k) then lookup k formData
                           else None).
  { intros k. unfold c. apply form_content_lookup. exact Hnd. }
  assert (Hsetup : Document.setup_content P (Model.schema Story) (VObject c)
                   = Ok (VObject [(k_title, VStr t1); (k_snippet, VStr t2);
                                  (k_body, VStr t3)])).
  { apply (story_setup _ c t1 t2 t3 Hs); rewrite Hc; assumption. }
  destruct (new_on_object (Model.schema Story) c _ (Model.countDocs Story) now random
              Hvalid Hopts Hsetup (Hc Document.idMark))
    as (story & Hnew & Hcontent & Hid & Hschema & Hsaved & Hct).
  exists story. split; [|auto].
  unfold story_post. rewrite Hm.
  change (Str.eqb (lit "POST") (lit "POST")) with true. cbn match.
  unfold story_create_post, Model.new_document. cbn [Model.schema Model.countDocs].
  fold c. rewrite Hnew.
  rewrite (save_first P story h disk p mode file Hsaved Hh Hdisk). reflexivity.
Qed.

End Controller.

Lemma story_post_creates_witness :
  exists story,
    story_post Reference.platform
      {| Model.schema := match storySchema Reference.platform with
                         | Ok s => s
                         | Throw _ => Reference.story_schema
                         end;
         Model.countDocs := 0 |}
      Reference.connected (Reference.disk_with 33188 (DBHandler.overwrite_file []))
      [(lit "_method", VStr (lit "POST")); (k_title, VStr (lit "T"));
       (k_snippet, VStr (lit "S")); (k_body, VStr (lit "B"))]
      3000 3001 (lit "abcdef012345") 3002
    = ({| Model.schema := match storySchema Reference.platform with
                          | Ok s => s
                          | Throw _ => Reference.story_schema
                          end;
          Model.countDocs := 1 |},
       Fs.update (Reference.disk_with 33188 (DBHandler.overwrite_file []))
         Reference.db_path
         (Fs.Node true 33188
            (DBHandler.save_file (DBHandler.overwrite_file [])
               (Document.toString Reference.platform story))),
       Redirect stories_url)
    /\ Document._content story
       = VObject [(k_title, VStr (lit "T")); (k_snippet, VStr (lit "S"));
                  (k_body, VStr (lit "B"))].
Proof.
  destruct (story_post_creates Reference.platform
              {| Model.schema := match storySchema Reference.platform with
                                 | Ok s => s
                                 | Throw _ => Reference.story_schema
                                 end;
                 Model.countDocs := 0 |}
              Reference.connected
              (Reference.disk_with 33188 (DBHandler.overwrite_file []))
              Reference.db_path 33188%Z (DBHandler.overwrite_file [])
              [(lit "_method", VStr (lit "POST")); (k_title, VStr (lit "T"));
               (k_snippet, VStr (lit "S")); (k_body, VStr (lit "B"))]
              3000%Z 3001%Z (lit "abcdef012345") 3002%Z (lit "T") (lit "S") (lit "B")
              eq_refl eq_refl eq_refl
              ltac:(repeat constructor; simpl; intuition discriminate)
              eq_refl eq_refl eq_refl eq_refl)
    as [story [H1 [H2 _]]].
  exists story. split; [exact H1 | exact H2].
Defined.

Section Edit.

Context (P : Platform).

(** X24.  A form posted with [_method] PUT and the [_id] of a stored
    story, on a file of well-formed records: the controller finds the
    story, answers with a redirect to [/stories] and leaves the model as
    it was; the file then holds the records that do not hold the id
    pattern, followed by the text of the story with the content of the
    form, the id and the creation time it had, and the time of the edit
    as update time; no other path of the disk changes. *)
Theorem story_post_edits (Story : Model.t) (h : DBHandler.t) (disk : Fs.t)
  (p : Str.t) (mode : Z) (rs : list Str.t) (formData : list (Str.t * value))
  (timeCheck now : Z) (random : Str.t) (editTime : Z) (id : Str.t)
  (docs : list value) (doc : value) (rest : list value) (story : Document.t)
  (newContent : value) :
  DBHandler.dbFilePath h = Some p ->
  disk p = Fs.Node true mode (DBHandler.layout rs) ->
  rs <> [] -> Forall DBHandler.plain rs ->
  concat (read_chunks P (DBHandler.layout rs)) = DBHandler.layout rs ->
  lookup (lit "_method") formData = Some (VStr (lit "PUT")) ->
  lookup Document.idMark formData = Some (VStr id) ->
  JSON_parse P (DBHandler.load_file (DBHandler.layout rs)) = Some (VArray docs) ->
  Forall (fun doc => doc <> VNull /\ doc <> VUndefined) docs ->
  filter (fun doc => match hasOwn P doc Document.idMark with
                     | Ok true => Model.has_id_among P [id] doc
                     | _ => false
                     end) docs = doc :: rest ->
  Document.reconstruct_doc P doc (Model.schema Story) true timeCheck now random
  = Some story ->
  Document.setup_content P (Model.schema Story) (VObject (form_content formData))
  = Ok newContent ->
  exists disk',
    story_post P Story h disk formData timeCheck now random editTime
    = (Story, disk', Redirect stories_url)
    /\ disk' p
       = Fs.Node true mode
           (DBHandler.layout
              (filter (DBHandler.keep_line
                         (DBHandler.encode_str (Document.id_pattern P story))) rs
               ++ [DBHandler.encode_str
                     (Document.toString P
                        {| Document._content := newContent;
                           Document._createTime := Document._createTime story;
                           Document._updateTime := Some editTime;
                           Document._id := VStr id;
                           Document._schema := Model.schema Story;
                           Document.saved := true |})]))
    /\ (forall q, q <> p -> disk' q = disk q)
    /\ Document._id story = VStr id.
Proof.
  intros Hh Hdisk Hne Hplain Hwhole Hm Hid Hparse Hdocs Hsel Hrec Hsetup.
  destruct (rebuilt_id P _ _ _ _ _ _ _ Hrec) as (Hsaved & Hschema & Hget).
  assert (Hidv : Document._id story = VStr id).
  { assert (Hin : In doc (doc :: rest)) by (left; reflexivity).
    rewrite <- Hsel in Hin. apply filter_In in Hin. destruct Hin as [_ Hin].
    destruct (hasOwn P doc Document.idMark) as [[|]|]; try discriminate.
    unfold Model.has_id_among in Hin. rewrite Hget in Hin.
    unfold Model.includes_id in Hin.
    destruct (Document._id story) as [| | | |s| | | | | | |]; try discriminate.
    cbn [existsb] in Hin. rewrite orb_false_r in Hin. apply eqb_eq in Hin.
    subst. reflexivity. }
  set (story' := {| Document._content := newContent;
                    Document._createTime := Document._createTime story;
                    Document._updateTime := Some editTime;
                    Document._id := VStr id;
                    Document._schema := Model.schema Story;
                    Document.saved := true |}).
  assert (Hedit : Document.edit P story (VObject (form_content formData)) editTime
                  = (story', Ok tt)).
  { unfold Document.edit. rewrite Hschema, Hsetup. unfold story'.
    unfold Document.set_updateTime, Document.set_content.
    cbn [Document._content Document._createTime Document._updateTime Document._id
           Document._schema Document.saved].
    rewrite Hschema, Hsaved, Hidv. reflexivity. }
  assert (Hpat : Document.id_pattern P story' = Document.id_pattern P story).
  { unfold Document.id_pattern, story'. cbn [Document._id]. rewrite Hidv. reflexivity. }
  eexists. split; [|split; [|split; [|exact Hidv]]].
  - unfold story_post. rewrite Hm, Hid.
    change (Str.eqb (lit "PUT") (lit "POST")) with false.
    change (Str.eqb (lit "PUT") (lit "PUT")) with true. cbn match.
    unfold story_edit_post.
    rewrite (findById_found P Story h disk p mode _ (VStr id) [id] docs true
               timeCheck now random Hh Hdisk eq_refl Hparse Hdocs).
    rewrite Hsel. unfold Model.hand_back. cbn [map]. rewrite Hrec, Hedit.
    rewrite (save_persisted P story' h disk p mode _ eq_refl Hh Hdisk).
    reflexivity.
  - rewrite update_same. f_equal. rewrite Hpat.
    rewrite (kept_of_layout (Document.id_pattern P story) rs _ Hne Hplain Hwhole).
    apply (save_after_kept (DBHandler.encode_str (Document.id_pattern P story))).
    + apply Forall_filter_keep. exact Hplain.
    + apply filter_kept.
  - intros q Hq. rewrite !update_other by exact Hq. reflexivity.
Qed.

End Edit.

Lemma story_post_edits_witness :
  exists disk',
    story_post Reference.platform Reference.story_model Reference.connected
      (Reference.disk_with 33188 Reference.two_records)
      [(Document.idMark, VStr (lit "0-1000-abcdef012345"));
       (lit "_method", VStr (lit "PUT"));
       (Reference.k_title, VStr (lit "B"))]
      3000 3001 [] 2000
    = (Reference.story_model, disk', Redirect stories_url)
    /\ disk' Reference.db_path
       = Fs.Node true 33188
           (DBHandler.layout
              [Reference.stringify Reference.other_record;
               Document.toString Reference.platform
                 {| Document._content := VObject [(Reference.k_title, VStr (lit "B"))];
                    Document._createTime := Some 1000%Z;
                    Document._updateTime := Some 2000%Z;
                    Document._id := VStr (lit "0-1000-abcdef012345");
                    Document._schema := Reference.story_schema;
                    Document.saved := true |}]).
Proof.
  destruct (story_post_edits Reference.platform Reference.story_model
              Reference.connected (Reference.disk_with 33188 Reference.two_records)
              Reference.db_path 33188%Z
              [DBHandler.encode_str
                 (Document.toString Reference.platform Reference.story_doc);
               Reference.stringify Reference.other_record]
              [(Document.idMark, VStr (lit "0-1000-abcdef012345"));
               (lit "_method", VStr (lit "PUT"));
               (Reference.k_title, VStr (lit "B"))]
              3000%Z 3001%Z [] 2000%Z (lit "0-1000-abcdef012345")
              [VObject [(Document.idMark, VStr (lit "0-1000-abcdef012345"));
                        (Reference.k_title, VStr (lit "A"));
                        (Document.createTMark, VStr (lit "T1000"));
                        (Document.updateTMark, VStr (lit "T1000"))];
               Reference.other_record]
              (VObject [(Document.idMark, VStr (lit "0-1000-abcdef012345"));
                        (Reference.k_title, VStr (lit "A"));
                        (Document.createTMark, VStr (lit "T1000"));
                        (Document.updateTMark, VStr (lit "T1000"))])
              [] Reference.saved_doc
              (VObject [(Reference.k_title, VStr (lit "B"))])
              eq_refl eq_refl
              ltac:(discriminate)
              ltac:(repeat constructor; discriminate)
              eq_refl eq_refl eq_refl eq_refl
              ltac:(repeat constructor; discriminate)
              eq_refl eq_refl eq_refl)
    as [disk' [H1 [H2 _]]].
  exists disk'. split; [exact H1|]. rewrite H2. vm_compute. reflexivity.
Defined.

End StoryFacts.
